(** * agent-ui-framework: a shallow embedding of the animation and theme
    packages of the Go renderer, with the protocol-level components of the
    specification modelled beside them.

    - [Animations]: [internal/ui/animations/spring.go], on binary64 floats;
      the harmonica spring is a parameter.  [TickCmd] (a timer command) and
      [PositionSpring.Position] (a float-to-int conversion) are left out.
    - [Json]: JSON values with a printer and a parser, the proof that
      parsing undoes printing, and the coercion of a byte string to
      UTF-8.
    - [Theme]: [internal/theme/theme.go], [charm.go] and [loader.go]; the
      two package-level variables [Current] and [Available] are threaded as
      an explicit state record, the operating system is an environment and
      a file map, [encoding/json], [os.ReadDir] and [filepath.Join] are
      parameters.
    - [Registry]: the registry of [theme.go] once more, with the themes
      at addresses, for what depends on a registered pointer leading to
      [Current].
    - [Views]: [internal/ui/views/chroma_style.go] in its two revisions,
      the second being the one that converts ANSI codes to hex;
      [chroma.MustNewStyle] is a parameter.
    - [Codec], [Progress], [Bridge]: the message codec, the progress
      view and the transport bridge, whose code is not among the sources;
      each is modelled from the specification. *)

From Stdlib Require Import ZArith Floats String Ascii List Bool Lia.
From Stdlib Require Import DecimalString DecimalZ DecimalPos.
From stdpp Require Import base option gmap strings list.

Set Warnings "-inexact-float,-register-all".

(* ===================================================================== *)
(** ** internal/ui/animations/spring.go                                    *)
(* ===================================================================== *)

Module Animations.

#[local] Open Scope float_scope.

(** [SpringConfig]: frames per second, stiffness, damping. *)
Record SpringConfig := mkSpringConfig {
  FPS : Z;
  Stiffness : float;
  Damping : float
}.

(** [DefaultSpringConfig()]: 200-300ms animations. *)
Definition DefaultSpringConfig : SpringConfig :=
  {| FPS := 60; Stiffness := 7.0; Damping := 0.15 |}.

(** [FastSpringConfig()]: micro-interactions. *)
Definition FastSpringConfig : SpringConfig :=
  {| FPS := 60; Stiffness := 12.0; Damping := 0.25 |}.

(** [SlowSpringConfig()]: deliberate transitions. *)
Definition SlowSpringConfig : SpringConfig :=
  {| FPS := 60; Stiffness := 4.0; Damping := 0.1 |}.

(** The stiffness/damping pair of a configuration. *)
Definition profile (c : SpringConfig) : float * float := (Stiffness c, Damping c).

(** [isSettled]: both magnitudes strictly under the threshold.  The two
    sign flips are written as the source writes them. *)
Definition isSettled (current velocity target threshold : float) : bool :=
  let positionDelta := current - target in
  let positionDelta := if positionDelta <? 0 then - positionDelta else positionDelta in
  let velocity := if velocity <? 0 then - velocity else velocity in
  (positionDelta <? threshold) && (velocity <? threshold).

Section Spring.

(** The harmonica library is an external dependency: its spring type, its
    frame-time helper, its constructor and its integration step are taken
    as given. *)
Variable harmonica_Spring : Type.
Variable harmonica_FPS : Z -> float.
Variable harmonica_NewSpring : float -> float -> float -> harmonica_Spring.
Variable harmonica_Update :
  harmonica_Spring -> float -> float -> float -> float * float.

(** [Spring] wraps [harmonica.Spring]. *)
Record Spring := mkSpring {
  spring : harmonica_Spring;
  target : float;
  current : float;
  velocity : float;
  active : bool
}.

Definition NewSpring (config : SpringConfig) : Spring :=
  {| spring := harmonica_NewSpring (harmonica_FPS (FPS config))
                 (Stiffness config) (Damping config);
     current := 0; target := 0; velocity := 0; active := false |}.

(** [SetTarget]: new target, spring activated. *)
Definition SetTarget (s : Spring) (tgt : float) : Spring :=
  {| spring := spring s; target := tgt; current := current s;
     velocity := velocity s; active := true |}.

(** [SetCurrent]: jump without animation. *)
Definition SetCurrent (s : Spring) (value : float) : Spring :=
  {| spring := spring s; target := value; current := value;
     velocity := 0; active := false |}.

(** [Update]: one frame.  The receiver is mutated in place in the source;
    here the new receiver is returned beside the boolean result. *)
Definition Update (s : Spring) : Spring * bool :=
  if negb (active s) then (s, false)
  else
    let '(c, v) :=
      harmonica_Update (spring s) (current s) (velocity s) (target s) in
    if isSettled c v (target s) 0.5 then
      ({| spring := spring s; target := target s; current := target s;
          velocity := 0; active := false |}, false)
    else
      ({| spring := spring s; target := target s; current := c;
          velocity := v; active := active s |}, true).

Definition Value (s : Spring) : float := current s.
Definition IsActive (s : Spring) : bool := active s.

(** [n] successive calls of [Update] with nothing in between: the final
    receiver and the results in call order. *)
Fixpoint ticks (n : nat) (s : Spring) : Spring * list bool :=
  match n with
  | O => (s, [])
  | S n' =>
      let '(s1, b) := Update s in
      let '(s2, bs) := ticks n' s1 in
      (s2, b :: bs)
  end.

(** [OpacitySpring]: a spring whose targets are clamped to [0,1]. *)
Record OpacitySpring := mkOpacitySpring { ospring : Spring }.

Definition NewOpacitySpring (config : SpringConfig) : OpacitySpring :=
  {| ospring := NewSpring config |}.

Definition FadeIn (o : OpacitySpring) : OpacitySpring :=
  {| ospring := SetTarget (ospring o) 1.0 |}.

Definition FadeOut (o : OpacitySpring) : OpacitySpring :=
  {| ospring := SetTarget (ospring o) 0.0 |}.

Definition SetOpacity (o : OpacitySpring) (opacity : float) : OpacitySpring :=
  let opacity := if opacity <? 0.0 then 0.0 else opacity in
  let opacity := if 1.0 <? opacity then 1.0 else opacity in
  {| ospring := SetTarget (ospring o) opacity |}.

Definition OpacityUpdate (o : OpacitySpring) : OpacitySpring * bool :=
  let '(s, b) := Update (ospring o) in ({| ospring := s |}, b).

Definition Opacity (o : OpacitySpring) : float :=
  let value := Value (ospring o) in
  if value <? 0.0 then 0.0
  else if 1.0 <? value then 1.0
  else value.

Definition OpacityIsActive (o : OpacitySpring) : bool := IsActive (ospring o).

Definition IsVisible (o : OpacitySpring) : bool := 0.01 <? Opacity o.

(** [PositionSpring]: a pair of springs. *)
Record PositionSpring := mkPositionSpring { X : Spring; Y : Spring }.

Definition NewPositionSpring (config : SpringConfig) : PositionSpring :=
  {| X := NewSpring config; Y := NewSpring config |}.

Definition PositionSetTarget (p : PositionSpring) (x y : float) : PositionSpring :=
  {| X := SetTarget (X p) x; Y := SetTarget (Y p) y |}.

Definition PositionSetCurrent (p : PositionSpring) (x y : float) : PositionSpring :=
  {| X := SetCurrent (X p) x; Y := SetCurrent (Y p) y |}.

Definition PositionUpdate (p : PositionSpring) : PositionSpring * bool :=
  let '(x, xActive) := Update (X p) in
  let '(y, yActive) := Update (Y p) in
  ({| X := x; Y := y |}, xActive || yActive).

Definition PositionIsActive (p : PositionSpring) : bool :=
  IsActive (X p) || IsActive (Y p).

End Spring.

Arguments spring {_} _.
Arguments target {_} _.
Arguments current {_} _.
Arguments velocity {_} _.
Arguments active {_} _.
Arguments mkSpring {_} _ _ _ _ _.
Arguments SetTarget {_} _ _.
Arguments SetCurrent {_} _ _.
Arguments Update {_} _ _.
Arguments Value {_} _.
Arguments IsActive {_} _.
Arguments ticks {_} _ _ _.
Arguments ospring {_} _.
Arguments mkOpacitySpring {_} _.
Arguments SetOpacity {_} _ _.
Arguments Opacity {_} _.
Arguments X {_} _.
Arguments Y {_} _.
Arguments mkPositionSpring {_} _ _.
Arguments PositionUpdate {_} _ _.
Arguments PositionIsActive {_} _.

(** A concrete integration step to evaluate the package on: a spring given
    by its four precomputed coefficients, advanced in target-relative
    space. *)
Record CoefSpring := mkCoefSpring {
  posPosCoef : float; posVelCoef : float;
  velPosCoef : float; velVelCoef : float
}.

Definition coefUpdate (h : CoefSpring) (pos vel equilibriumPos : float)
  : float * float :=
  let oldPos := pos - equilibriumPos in
  let oldVel := vel in
  (oldPos * posPosCoef h + oldVel * posVelCoef h + equilibriumPos,
   oldPos * velPosCoef h + oldVel * velVelCoef h).

(** A heavily damped sample spring: each frame halves the distance. *)
Definition halving : CoefSpring :=
  {| posPosCoef := 0.5; posVelCoef := 0; velPosCoef := 0; velVelCoef := 0.5 |}.

(** Two concrete springs on the halving step: one frame away from
    settling, and far from it. *)
Definition nearly_there : Spring CoefSpring :=
  {| spring := halving; target := 10; current := 9.5; velocity := 0.2;
     active := true |}.

Definition far_away : Spring CoefSpring :=
  {| spring := halving; target := 10; current := 0; velocity := 0;
     active := true |}.

(** *** The spring API as a client drives it *)

Arguments NewSpring {_} _ _ _.
Arguments FadeIn {_} _.
Arguments FadeOut {_} _.
Arguments OpacityUpdate {_} _ _.
Arguments IsVisible {_} _.
Arguments NewPositionSpring {_} _ _ _.
Arguments PositionSetTarget {_} _ _ _.
Arguments PositionSetCurrent {_} _ _ _.
Arguments OpacityIsActive {_} _.
Arguments NewOpacitySpring {_} _ _ _.

(** The calls a client can make on a [Spring]. *)
Inductive Call :=
| CallSetTarget (tgt : float)
| CallSetCurrent (value : float)
| CallUpdate.

Definition call {H : Type} (step : H -> float -> float -> float -> float * float)
    (s : Spring H) (c : Call) : Spring H :=
  match c with
  | CallSetTarget tgt => SetTarget s tgt
  | CallSetCurrent value => SetCurrent s value
  | CallUpdate => fst (Update step s)
  end.

Definition calls {H : Type} (step : H -> float -> float -> float -> float * float)
    (s : Spring H) (cs : list Call) : Spring H :=
  fold_left (call step) cs s.

(** [n] successive frames of an opacity animation. *)
Definition frames {H : Type} (step : H -> float -> float -> float -> float * float)
    (n : nat) (o : OpacitySpring H) : OpacitySpring H :=
  Nat.iter n (fun o => fst (OpacityUpdate step o)) o.

(** A spring that sits on its target without moving. *)
Definition at_rest {H : Type} (s : Spring H) : Prop :=
  current s = target s /\ velocity s = 0.

(** A float that is not a number, as IEEE comparison sees it. *)
Definition is_nan (x : float) : bool := negb (PrimFloat.eqb x x).

(** The calls a client can make on a [PositionSpring]. *)
Inductive PositionCall :=
| CallPositionSetTarget (x y : float)
| CallPositionSetCurrent (x y : float)
| CallPositionUpdate.

Definition positionCall {H : Type}
    (step : H -> float -> float -> float -> float * float)
    (p : PositionSpring H) (c : PositionCall) : PositionSpring H :=
  match c with
  | CallPositionSetTarget x y => PositionSetTarget p x y
  | CallPositionSetCurrent x y => PositionSetCurrent p x y
  | CallPositionUpdate => fst (PositionUpdate step p)
  end.

(* --------------------------------------------------------------------- *)
(** *** Properties of the spring                                           *)
(* --------------------------------------------------------------------- *)

(** The source's sign flip agrees with the IEEE absolute value under a
    strict comparison (the two differ only on negative zero, which compares
    like zero). *)
Lemma flip_ltb_abs (x th : float) :
  ((if x <? 0 then - x else x) <? th) = (abs x <? th).
Proof.
  destruct (x <? 0) eqn:E; rewrite ltb_spec in E;
    rewrite !ltb_spec, ?opp_spec, abs_spec;
    change (Prim2SF 0) with (S754_zero false) in E;
    destruct (Prim2SF x) as [s | s | | s m e]; simpl in E |- *;
    try destruct s; try discriminate; try reflexivity;
    destruct (Prim2SF th) as [s' | s' | | s' m' e']; reflexivity.
Qed.

Lemma isSettled_abs (c v t th : float) :
  isSettled c v t th = (abs (c - t) <? th) && (abs v <? th).
Proof. unfold isSettled. cbv zeta. now rewrite !flip_ltb_abs. Qed.

Section SpringFacts.

Context {H : Type} (step : H -> float -> float -> float -> float * float).

Lemma Update_inactive (s : Spring H) :
  IsActive s = false -> Update step s = (s, false).
Proof. unfold IsActive, Update. now intros ->. Qed.

(** C4: for an active spring, one [Update] advances position and
    velocity by the spring step; when afterwards both [|position -
    target|] and [|velocity|] are strictly below [0.5], position is set
    to the target, velocity to [0], the spring is inactive and [Update]
    returns [false]; otherwise the advanced values are kept, the spring
    stays active and [Update] returns [true]. *)
Theorem Update_settling_rule (s : Spring H) (c v : float) :
  IsActive s = true ->
  step (spring s) (current s) (velocity s) (target s) = (c, v) ->
  ((abs (c - target s) <? 0.5) && (abs v <? 0.5) = true ->
   Update step s =
     ({| spring := spring s; target := target s; current := target s;
         velocity := 0; active := false |}, false))
  /\ ((abs (c - target s) <? 0.5) && (abs v <? 0.5) = false ->
      Update step s =
        ({| spring := spring s; target := target s; current := c;
            velocity := v; active := true |}, true)).
Proof.
  unfold IsActive, Update. intros Ha Hstep. rewrite Ha, Hstep. cbn [negb].
  rewrite isSettled_abs. split; intros ->; reflexivity.
Qed.

(** C5: on a spring that reports inactive, any number of further
    [Update] calls all return [false] and leave the spring (so its
    current value and velocity) unchanged. *)
Theorem inactive_ticks_noop (s : Spring H) (n : nat) :
  IsActive s = false ->
  ticks step n s = (s, repeat false n)
  /\ Value (fst (ticks step n s)) = Value s
  /\ velocity (fst (ticks step n s)) = velocity s
  /\ IsActive (fst (ticks step n s)) = false.
Proof.
  intros Hs.
  assert (Ht : ticks step n s = (s, repeat false n)).
  { induction n as [|n IH]; [reflexivity|].
    cbn [ticks repeat]. rewrite (Update_inactive s Hs), IH. reflexivity. }
  rewrite Ht. cbn [fst]. auto.
Qed.

(** X1: [Opacity] never reports a value below 0 or above 1, and
    [SetOpacity] never sets a target below 0 or above 1. *)
Theorem Opacity_within_unit (o : OpacitySpring H) (opacity : float) :
  (Opacity o <? 0) = false /\ (1 <? Opacity o) = false
  /\ (target (ospring (SetOpacity o opacity)) <? 0) = false
  /\ (1 <? target (ospring (SetOpacity o opacity))) = false.
Proof.
  unfold Opacity, SetOpacity, Value, SetTarget. cbn [ospring target].
  repeat split.
  - destruct (current (ospring o) <? 0) eqn:E1; [reflexivity|].
    destruct (1 <? current (ospring o)) eqn:E2; [reflexivity | exact E1].
  - destruct (current (ospring o) <? 0) eqn:E1; [reflexivity|].
    destruct (1 <? current (ospring o)) eqn:E2; [reflexivity | exact E2].
  - destruct (opacity <? 0) eqn:E1; [reflexivity|].
    destruct (1 <? opacity) eqn:E2; [reflexivity | exact E1].
  - destruct (opacity <? 0) eqn:E1; [reflexivity|].
    destruct (1 <? opacity) eqn:E2; [reflexivity | exact E2].
Qed.

End SpringFacts.

(** C7: the three named profiles are constants with the stiffness/damping
    pairs (7.0, 0.15), (12.0, 0.25) and (4.0, 0.1), pairwise distinct. *)
Theorem profiles_fixed_and_distinct :
  profile DefaultSpringConfig = (7.0, 0.15)
  /\ profile FastSpringConfig = (12.0, 0.25)
  /\ profile SlowSpringConfig = (4.0, 0.1)
  /\ profile DefaultSpringConfig <> profile FastSpringConfig
  /\ profile DefaultSpringConfig <> profile SlowSpringConfig
  /\ profile FastSpringConfig <> profile SlowSpringConfig.
Proof.
  assert (sep : forall (c : float) (p q : float * float),
             PrimFloat.eqb (fst p) c = true ->
             PrimFloat.eqb (fst q) c = false -> p <> q).
  { intros c p q Hp Hq ->. congruence. }
  repeat split; try reflexivity.
  - apply (sep 7.0); reflexivity.
  - apply (sep 7.0); reflexivity.
  - apply (sep 12.0); reflexivity.
Qed.

Lemma Update_settling_rule_witness :
  Update coefUpdate nearly_there =
    ({| spring := halving; target := 10; current := 10; velocity := 0;
        active := false |}, false)
  /\ Update coefUpdate far_away =
    ({| spring := halving; target := 10; current := 5; velocity := 0;
        active := true |}, true).
Proof.
  split.
  - exact (proj1 (Update_settling_rule coefUpdate nearly_there 9.75 0.1
                    eq_refl eq_refl) eq_refl).
  - exact (proj2 (Update_settling_rule coefUpdate far_away 5 0
                    eq_refl eq_refl) eq_refl).
Defined.

Lemma inactive_ticks_noop_witness :
  ticks coefUpdate 3 (SetCurrent nearly_there 4) =
    (SetCurrent nearly_there 4, [false; false; false]).
Proof.
  exact (proj1 (inactive_ticks_noop coefUpdate (SetCurrent nearly_there 4) 3 eq_refl)).
Defined.

(* --------------------------------------------------------------------- *)
(** *** Laws of the spring API                                             *)
(* --------------------------------------------------------------------- *)

Lemma nan_spec (x : float) : is_nan x = true -> Prim2SF x = S754_nan.
Proof.
  unfold is_nan. rewrite FloatAxioms.eqb_spec. unfold SFeqb, SFcompare.
  destruct (Prim2SF x) as [s | s | | s m e]; try reflexivity.
  - discriminate.
  - destruct s; discriminate.
  - rewrite Z.compare_refl, Pos.compare_cont_refl. destruct s; discriminate.
Qed.

Lemma nan_not_below (x th : float) : is_nan x = true -> (abs x <? th) = false.
Proof.
  intros Hx. rewrite ltb_spec, abs_spec, (nan_spec x Hx). reflexivity.
Qed.

Lemma nan_sub (x y : float) :
  is_nan x = true \/ is_nan y = true -> is_nan (x - y) = true.
Proof.
  intros Hxy.
  assert (Hs : Prim2SF (x - y) = S754_nan).
  { rewrite sub_spec. destruct Hxy as [Hx | Hy].
    - rewrite (nan_spec x Hx). reflexivity.
    - rewrite (nan_spec y Hy). destruct (Prim2SF x); reflexivity. }
  unfold is_nan. rewrite FloatAxioms.eqb_spec, Hs. reflexivity.
Qed.

Section SpringLaws.

Context {H : Type} (step : H -> float -> float -> float -> float * float).

Lemma Update_activity (s : Spring H) :
  IsActive (fst (Update step s)) = snd (Update step s)
  /\ target (fst (Update step s)) = target s
  /\ (IsActive s = true -> snd (Update step s) = false ->
      at_rest (fst (Update step s))).
Proof.
  unfold Update, IsActive, at_rest.
  destruct (active s) eqn:Ha; cbn [negb].
  - destruct (step _ _ _ _) as [c v].
    destruct (isSettled c v (target s) 0.5); cbn [fst snd active target current velocity].
    + split; [reflexivity|]. split; [reflexivity|]. intros _ _. split; reflexivity.
    + split; [reflexivity|]. split; [reflexivity|]. intros _ Hf. discriminate Hf.
  - cbn [fst snd]. split; [exact Ha|]. split; [reflexivity|]. intros Hf. discriminate Hf.
Qed.

Lemma clamp_unit (x : float) :
  ((if 1 <? (if x <? 0 then 0 else x) then 1 else (if x <? 0 then 0 else x)) <? 0) = false
  /\ (1 <? (if 1 <? (if x <? 0 then 0 else x) then 1 else (if x <? 0 then 0 else x))) = false.
Proof.
  destruct (x <? 0) eqn:E1; [split; reflexivity|].
  destruct (1 <? x) eqn:E2; [split; reflexivity|]. split; assumption.
Qed.

Lemma call_keeps_rest (s : Spring H) (c : Call) :
  (IsActive s = false -> at_rest s) ->
  IsActive (call step s c) = false -> at_rest (call step s c).
Proof.
  intros Hs. destruct c as [tgt | value |]; cbn [call].
  - discriminate.
  - intros _. split; reflexivity.
  - intros Hc. destruct (IsActive s) eqn:Ha.
    + destruct (Update_activity s) as (Hr & _ & Hrest).
      apply (Hrest Ha). now rewrite <- Hr.
    + rewrite (Update_inactive step s Ha). cbn [fst]. exact (Hs eq_refl).
Qed.

(** X2: whatever sequence of [SetTarget], [SetCurrent] and [Update] calls is
    made on a new spring, whenever it reports inactive it sits exactly on
    its target with zero velocity. *)
Theorem inactive_spring_at_rest (fps : Z -> float)
    (new : float -> float -> float -> H) (config : SpringConfig)
    (cs : list Call) :
  IsActive (calls step (NewSpring fps new config) cs) = false ->
  Value (calls step (NewSpring fps new config) cs)
  = target (calls step (NewSpring fps new config) cs)
  /\ velocity (calls step (NewSpring fps new config) cs) = 0.
Proof.
  unfold calls.
  assert (Hgen : forall s, (IsActive s = false -> at_rest s) ->
            IsActive (fold_left (call step) cs s) = false ->
            at_rest (fold_left (call step) cs s)).
  { induction cs as [|c cs IH]; intros s Hs; [exact Hs|].
    cbn [fold_left]. apply IH. now apply call_keeps_rest. }
  apply Hgen. intros _. split; reflexivity.
Qed.

Lemma nan_not_settled (c v t : float) :
  is_nan c = true \/ is_nan v = true \/ is_nan t = true ->
  isSettled c v t 0.5 = false.
Proof.
  intros Hnan. rewrite isSettled_abs. destruct Hnan as [Hc | [Hv | Ht]].
  - rewrite (nan_not_below _ _ (nan_sub c t (or_introl Hc))). reflexivity.
  - rewrite (nan_not_below v _ Hv). apply andb_false_r.
  - rewrite (nan_not_below _ _ (nan_sub c t (or_intror Ht))). reflexivity.
Qed.

Lemma ticks_S (n : nat) (s : Spring H) :
  ticks step (S n) s =
    (fst (ticks step n (fst (Update step s))),
     snd (Update step s) :: snd (ticks step n (fst (Update step s)))).
Proof.
  cbn [ticks]. destruct (Update step s) as [s1 b]. cbn [fst snd].
  now destruct (ticks step n s1).
Qed.

(** X3: A target that is not a number is never reached: after [SetTarget]
    with such a value every [Update] returns [true], whatever the spring
    step computes, and the spring stays active. *)
Theorem nan_target_never_settles (s : Spring H) (tgt : float) (n : nat) :
  is_nan tgt = true ->
  snd (ticks step n (SetTarget s tgt)) = repeat true n
  /\ IsActive (fst (ticks step n (SetTarget s tgt))) = true.
Proof.
  intros Hnan.
  assert (Hgen : forall s0 : Spring H,
            IsActive s0 = true -> target s0 = tgt ->
            snd (ticks step n s0) = repeat true n
            /\ IsActive (fst (ticks step n s0)) = true).
  { induction n as [|n IH]; intros s0 Ha Ht; [now split|].
    rewrite ticks_S. cbn [fst snd repeat].
    assert (Hu : snd (Update step s0) = true
                 /\ IsActive (fst (Update step s0)) = true
                 /\ target (fst (Update step s0)) = tgt).
    { unfold Update. unfold IsActive in Ha. rewrite Ha. cbn [negb].
      destruct (step _ _ _ _) as [c v].
      rewrite (nan_not_settled c v (target s0))
        by (right; right; now rewrite Ht).
      cbn. auto. }
    destruct Hu as (Hb & Ha' & Ht'). rewrite Hb.
    destruct (IH _ Ha' Ht') as [-> ->]. now split. }
  now apply Hgen.
Qed.

Lemma Update_keeps_rest (s : Spring H) :
  (IsActive s = false -> at_rest s) ->
  IsActive (fst (Update step s)) = false -> at_rest (fst (Update step s)).
Proof. exact (fun Hs => call_keeps_rest s CallUpdate Hs). Qed.

Lemma frames_S (n : nat) (o : OpacitySpring H) :
  frames step (S n) o = frames step n (fst (OpacityUpdate step o)).
Proof.
  exact (Nat.iter_succ_r n (fun o => fst (OpacityUpdate step o)) o).
Qed.

Lemma frames_settle (n : nat) (s : Spring H) :
  (IsActive s = false -> at_rest s) ->
  IsActive (ospring (frames step n {| ospring := s |})) = false ->
  Value (ospring (frames step n {| ospring := s |})) = target s.
Proof.
  revert s. induction n as [|n IH]; intros s Hs.
  - cbn [frames Nat.iter ospring]. intros Ha. now destruct (Hs Ha).
  - rewrite frames_S. unfold OpacityUpdate. cbn [ospring].
    destruct (Update_activity s) as (_ & Ht & _).
    pose proof (Update_keeps_rest s Hs) as Hr.
    destruct (Update step s) as [s' b]. cbn [fst] in *.
    rewrite <- Ht. now apply IH.
Qed.


Lemma PositionUpdate_parts (p : PositionSpring H) :
  X (fst (PositionUpdate step p)) = fst (Update step (X p))
  /\ Y (fst (PositionUpdate step p)) = fst (Update step (Y p)).
Proof.
  unfold PositionUpdate.
  destruct (Update step (X p)) as [x xa], (Update step (Y p)) as [y ya].
  now split.
Qed.

(** X5: [PositionSpring.Update] advances both springs, whether or not the
    first is still animating, and the boolean it returns is
    [PositionSpring.IsActive] of the result. *)
Theorem PositionUpdate_reports_activity (p : PositionSpring H) :
  X (fst (PositionUpdate step p)) = fst (Update step (X p))
  /\ Y (fst (PositionUpdate step p)) = fst (Update step (Y p))
  /\ PositionIsActive (fst (PositionUpdate step p)) = snd (PositionUpdate step p).
Proof.
  unfold PositionUpdate, PositionIsActive.
  destruct (Update_activity (X p)) as (Hx & _).
  destruct (Update_activity (Y p)) as (Hy & _).
  destruct (Update step (X p)) as [x xa], (Update step (Y p)) as [y ya].
  cbn in *. now rewrite Hx, Hy.
Qed.

(** X6: whatever sequence of [SetTarget], [SetCurrent] and [Update] calls is
    made on a new [PositionSpring], whenever it reports inactive both
    coordinates sit exactly on their targets with zero velocity. *)
Theorem position_inactive_at_rest (fps : Z -> float)
    (new : float -> float -> float -> H) (config : SpringConfig)
    (cs : list PositionCall) :
  let p := fold_left (positionCall step) cs (NewPositionSpring fps new config) in
  PositionIsActive p = false ->
  (Value (X p) = target (X p) /\ velocity (X p) = 0)
  /\ (Value (Y p) = target (Y p) /\ velocity (Y p) = 0).
Proof.
  cbv zeta.
  assert (Hgen : forall p,
            (IsActive (X p) = false -> at_rest (X p)) ->
            (IsActive (Y p) = false -> at_rest (Y p)) ->
            (IsActive (X (fold_left (positionCall step) cs p)) = false ->
             at_rest (X (fold_left (positionCall step) cs p)))
            /\ (IsActive (Y (fold_left (positionCall step) cs p)) = false ->
                at_rest (Y (fold_left (positionCall step) cs p)))).
  { induction cs as [|c cs IH]; intros p Hx Hy; [now split|].
    cbn [fold_left]. apply IH; destruct c as [x y | x y |]; cbn [positionCall].
    - exact (call_keeps_rest (X p) (CallSetTarget x) Hx).
    - exact (call_keeps_rest (X p) (CallSetCurrent x) Hx).
    - destruct (PositionUpdate_parts p) as [-> _].
      exact (call_keeps_rest (X p) CallUpdate Hx).
    - exact (call_keeps_rest (Y p) (CallSetTarget y) Hy).
    - exact (call_keeps_rest (Y p) (CallSetCurrent y) Hy).
    - destruct (PositionUpdate_parts p) as [_ ->].
      exact (call_keeps_rest (Y p) CallUpdate Hy). }
  destruct (Hgen (NewPositionSpring fps new config)) as [Hx Hy];
    [intros _; split; reflexivity | intros _; split; reflexivity |].
  unfold PositionIsActive. intros Ha. apply orb_false_elim in Ha as [Hax Hay].
  split; [exact (Hx Hax) | exact (Hy Hay)].
Qed.

End SpringLaws.

Lemma inactive_spring_at_rest_witness :
  Value (calls coefUpdate (NewSpring (fun _ => 0.016) (fun _ _ _ => halving)
                             DefaultSpringConfig)
           [CallSetTarget 1; CallUpdate; CallUpdate]) = 1
  /\ velocity (calls coefUpdate (NewSpring (fun _ => 0.016) (fun _ _ _ => halving)
                                   DefaultSpringConfig)
                 [CallSetTarget 1; CallUpdate; CallUpdate]) = 0.
Proof.
  exact (inactive_spring_at_rest coefUpdate (fun _ => 0.016)
           (fun _ _ _ => halving) DefaultSpringConfig
           [CallSetTarget 1; CallUpdate; CallUpdate] eq_refl).
Defined.

Lemma nan_target_never_settles_witness :
  snd (ticks coefUpdate 3 (SetTarget nearly_there nan)) = [true; true; true]
  /\ IsActive (fst (ticks coefUpdate 3 (SetTarget nearly_there nan))) = true.
Proof.
  exact (nan_target_never_settles coefUpdate nearly_there nan 3 eq_refl).
Defined.


Lemma position_inactive_at_rest_witness :
  let p := fold_left (positionCall coefUpdate)
             [CallPositionSetTarget 1 0.25; CallPositionUpdate; CallPositionUpdate]
             (NewPositionSpring (fun _ => 0.016) (fun _ _ _ => halving)
                DefaultSpringConfig) in
  (Value (X p) = 1 /\ velocity (X p) = 0)
  /\ (Value (Y p) = 0.25 /\ velocity (Y p) = 0).
Proof.
  exact (position_inactive_at_rest coefUpdate (fun _ => 0.016)
           (fun _ _ _ => halving) DefaultSpringConfig
           [CallPositionSetTarget 1 0.25; CallPositionUpdate; CallPositionUpdate]
           eq_refl).
Defined.

End Animations.

(* ===================================================================== *)
(** ** JSON text: values, printing, parsing                                *)
(* ===================================================================== *)

Module Json.

#[local] Open Scope string_scope.

(** A JSON value.  Numbers are integers; an object keeps its members in
    order of appearance. *)
Inductive json :=
| JNull
| JBool (b : bool)
| JNum (n : Z)
| JStr (s : string)
| JArr (l : list json)
| JObj (m : list (string * json)).

Definition dquote : ascii := "034"%char.
Definition backslash : ascii := "092"%char.

Definition hex_digit (n : nat) : ascii :=
  ascii_of_nat (if (n <? 10)%nat then (48 + n)%nat else (87 + n)%nat).

Definition hex_value (c : ascii) : option nat :=
  let n := nat_of_ascii c in
  if ((48 <=? n) && (n <=? 57))%nat then Some (n - 48)%nat
  else if ((97 <=? n) && (n <=? 102))%nat then Some (n - 87)%nat
  else if ((65 <=? n) && (n <=? 70))%nat then Some (n - 55)%nat
  else None.

(** One character inside a string literal: the quote and the backslash
    are escaped, newline, carriage return and tab have their short
    escapes, any other control character is written [\u00XX]. *)
Definition escape_char (c : ascii) : string :=
  if Ascii.eqb c dquote then String backslash (String dquote "")
  else if Ascii.eqb c backslash then String backslash (String backslash "")
  else if Ascii.eqb c "010" then String backslash "n"
  else if Ascii.eqb c "013" then String backslash "r"
  else if Ascii.eqb c "009" then String backslash "t"
  else if (nat_of_ascii c <? 32)%nat then
    String backslash
      (String "u" (String "0" (String "0"
         (String (hex_digit (nat_of_ascii c / 16))
            (String (hex_digit (nat_of_ascii c mod 16)) "")))))
  else String c "".

Fixpoint escape (s : string) : string :=
  match s with
  | "" => ""
  | String c r => escape_char c ++ escape r
  end.

Definition quote (s : string) : string :=
  String dquote (escape s ++ String dquote "").

Definition print_int (n : Z) : string := NilZero.string_of_int (Z.to_int n).

(** The elements of an array after its opening bracket, and the members
    of an object after its opening brace, given how a value prints. *)
Definition elems_with (p : json -> string) : list json -> string :=
  fix go (l : list json) : string :=
    match l with
    | [] => "]"
    | v :: l' => p v ++ match l' with [] => "]" | _ => "," ++ go l' end
    end.

Definition members_with (p : json -> string) : list (string * json) -> string :=
  fix go (m : list (string * json)) : string :=
    match m with
    | [] => "}"
    | kv :: m' =>
        quote (fst kv) ++ ":" ++ p (snd kv) ++
        match m' with [] => "}" | _ => "," ++ go m' end
    end.

(** Compact printing: no blank anywhere outside string literals. *)
Fixpoint print (v : json) : string :=
  match v with
  | JNull => "null"
  | JBool true => "true"
  | JBool false => "false"
  | JNum n => print_int n
  | JStr s => quote s
  | JArr l => "[" ++ elems_with print l
  | JObj m => "{" ++ members_with print m
  end.

(** Indented printing, one member or element per line, two blanks per
    level. *)
Fixpoint spaces (n : nat) : string :=
  match n with O => "" | S n' => String " " (spaces n') end.

Definition newline : string := String "010"%char "".

Definition pad (depth : nat) : string := newline ++ spaces (2 * depth).

Definition elems_indent_with (p : json -> string) (depth : nat)
  : list json -> string :=
  fix go (l : list json) : string :=
    match l with
    | [] => "]"
    | v :: l' =>
        pad (S depth) ++ p v
        ++ match l' with [] => pad depth ++ "]" | _ => "," ++ go l' end
    end.

Definition members_indent_with (p : json -> string) (depth : nat)
  : list (string * json) -> string :=
  fix go (m : list (string * json)) : string :=
    match m with
    | [] => "}"
    | kv :: m' =>
        pad (S depth) ++ quote (fst kv) ++ ": " ++ p (snd kv)
        ++ match m' with [] => pad depth ++ "}" | _ => "," ++ go m' end
    end.

Fixpoint print_indent (depth : nat) (v : json) : string :=
  match v with
  | JArr l => "[" ++ elems_indent_with (print_indent (S depth)) depth l
  | JObj m => "{" ++ members_indent_with (print_indent (S depth)) depth m
  | _ => print v
  end.

(** *** Parsing *)

Definition is_ws (c : ascii) : bool :=
  Ascii.eqb c " " || Ascii.eqb c "009" || Ascii.eqb c "010" || Ascii.eqb c "013".

Fixpoint skip_ws (s : string) : string :=
  match s with
  | String c r => if is_ws c then skip_ws r else s
  | "" => ""
  end.

Definition is_numchar (c : ascii) : bool :=
  Ascii.eqb c "-" || ((48 <=? nat_of_ascii c) && (nat_of_ascii c <=? 57))%nat.

(** The longest prefix of number characters, and what follows it. *)
Fixpoint span_num (s : string) : string * string :=
  match s with
  | String c r =>
      if is_numchar c then let '(a, b) := span_num r in (String c a, b)
      else ("", s)
  | "" => ("", "")
  end.

Definition parse_int (s : string) : option (Z * string) :=
  let '(digits, rest) := span_num s in
  match NilZero.int_of_string digits with
  | Some d => Some (Z.of_int d, rest)
  | None => None
  end.

(** [strip p s]: [s] without its prefix [p], when it has it. *)
Fixpoint strip (p s : string) : option string :=
  match p, s with
  | "", _ => Some s
  | String a p', String b s' => if Ascii.eqb a b then strip p' s' else None
  | _, "" => None
  end.

(** The bytes of a code point below 0x10000 in UTF-8. *)
Definition utf8 (n : nat) : string :=
  if (n <? 128)%nat then String (ascii_of_nat n) ""
  else if (n <? 2048)%nat then
    String (ascii_of_nat (192 + n / 64))
      (String (ascii_of_nat (128 + n mod 64)) "")
  else
    String (ascii_of_nat (224 + n / 4096))
      (String (ascii_of_nat (128 + (n / 64) mod 64))
         (String (ascii_of_nat (128 + n mod 64)) "")).

Definition hex4 (a b c d : ascii) : option nat :=
  match hex_value a, hex_value b, hex_value c, hex_value d with
  | Some x, Some y, Some z, Some w => Some (((x * 16 + y) * 16 + z) * 16 + w)%nat
  | _, _, _, _ => None
  end.

Definition unescape (e : ascii) : option ascii :=
  if Ascii.eqb e dquote then Some dquote
  else if Ascii.eqb e backslash then Some backslash
  else if Ascii.eqb e "/" then Some "/"%char
  else if Ascii.eqb e "b" then Some "008"%char
  else if Ascii.eqb e "f" then Some "012"%char
  else if Ascii.eqb e "n" then Some "010"%char
  else if Ascii.eqb e "r" then Some "013"%char
  else if Ascii.eqb e "t" then Some "009"%char
  else None.

(** The rest of a string literal after its opening quote: the string it
    denotes and what follows the closing quote. *)
Fixpoint parse_string_body (s : string) : option (string * string) :=
  match s with
  | "" => None
  | String c r =>
      if Ascii.eqb c dquote then Some ("", r)
      else if Ascii.eqb c backslash then
        match r with
        | String e r1 =>
            if Ascii.eqb e "u" then
              match r1 with
              | String h1 (String h2 (String h3 (String h4 r2))) =>
                  match hex4 h1 h2 h3 h4, parse_string_body r2 with
                  | Some n, Some (t, rest) => Some (utf8 n ++ t, rest)
                  | _, _ => None
                  end
              | _ => None
              end
            else
              match unescape e, parse_string_body r1 with
              | Some c', Some (t, rest) => Some (String c' t, rest)
              | _, _ => None
              end
        | "" => None
        end
      else if (nat_of_ascii c <? 32)%nat then None
      else
        match parse_string_body r with
        | Some (t, rest) => Some (String c t, rest)
        | None => None
        end
  end.

(** The next character that is not a blank, and what follows it. *)
Definition next (s : string) : option (ascii * string) :=
  match skip_ws s with
  | String c r => Some (c, r)
  | "" => None
  end.

(** Recursive descent, on a bound for the number of nested calls. *)
Fixpoint parse_value (fuel : nat) (s : string) : option (json * string) :=
  match fuel with
  | O => None
  | S f =>
      match next s with
      | None => None
      | Some (c, r) =>
          if Ascii.eqb c "[" then
            match next r with
            | Some (c', r') =>
                if Ascii.eqb c' "]" then Some (JArr [], r')
                else
                  match parse_elems f r with
                  | Some (l, r'') => Some (JArr l, r'')
                  | None => None
                  end
            | None => None
            end
          else if Ascii.eqb c "{" then
            match next r with
            | Some (c', r') =>
                if Ascii.eqb c' "}" then Some (JObj [], r')
                else
                  match parse_members f r with
                  | Some (m, r'') => Some (JObj m, r'')
                  | None => None
                  end
            | None => None
            end
          else if Ascii.eqb c dquote then
            match parse_string_body r with
            | Some (t, r') => Some (JStr t, r')
            | None => None
            end
          else if Ascii.eqb c "n" then
            match strip "ull" r with Some r' => Some (JNull, r') | None => None end
          else if Ascii.eqb c "t" then
            match strip "rue" r with Some r' => Some (JBool true, r') | None => None end
          else if Ascii.eqb c "f" then
            match strip "alse" r with Some r' => Some (JBool false, r') | None => None end
          else
            match parse_int (String c r) with
            | Some (n, r') => Some (JNum n, r')
            | None => None
            end
      end
  end
with parse_elems (fuel : nat) (s : string) : option (list json * string) :=
  match fuel with
  | O => None
  | S f =>
      match parse_value f s with
      | Some (v, r) =>
          match next r with
          | Some (c, r') =>
              if Ascii.eqb c "," then
                match parse_elems f r' with
                | Some (l, r'') => Some (v :: l, r'')
                | None => None
                end
              else if Ascii.eqb c "]" then Some ([v], r')
              else None
          | None => None
          end
      | None => None
      end
  end
with parse_members (fuel : nat) (s : string) : option (list (string * json) * string) :=
  match fuel with
  | O => None
  | S f =>
      match next s with
      | Some (c, r) =>
          if Ascii.eqb c dquote then
            match parse_string_body r with
            | Some (k, r1) =>
                match next r1 with
                | Some (c1, r2) =>
                    if Ascii.eqb c1 ":" then
                      match parse_value f r2 with
                      | Some (v, r3) =>
                          match next r3 with
                          | Some (c3, r4) =>
                              if Ascii.eqb c3 "," then
                                match parse_members f r4 with
                                | Some (m, r5) => Some ((k, v) :: m, r5)
                                | None => None
                                end
                              else if Ascii.eqb c3 "}" then Some ([(k, v)], r4)
                              else None
                          | None => None
                          end
                      | None => None
                      end
                    else None
                | None => None
                end
            | None => None
            end
          else None
      | None => None
      end
  end.

(** A whole text: one value, blanks around it, nothing else. *)
Definition parse (s : string) : option json :=
  match parse_value (S (String.length s)) s with
  | Some (v, r) => match next r with None => Some v | Some _ => None end
  | None => None
  end.

(** The number of nested calls a value takes to parse. *)
Fixpoint size (v : json) : nat :=
  match v with
  | JArr l => S (list_sum (map (fun v => S (size v)) l))
  | JObj m => S (list_sum (map (fun kv => S (size (snd kv))) m))
  | _ => 1
  end.

(** What may follow a value in a text: nothing, or a character that does
    not continue a number. *)
Definition ends_number (rest : string) : Prop :=
  match rest with
  | String c _ => is_numchar c = false
  | "" => True
  end.

Fixpoint all_num (s : string) : bool :=
  match s with
  | String c r => is_numchar c && all_num r
  | "" => true
  end.

(** Blanks only. *)
Fixpoint all_ws (s : string) : bool :=
  match s with
  | String c r => is_ws c && all_ws r
  | "" => true
  end.

(** The first character of a printed value. *)
Definition starts_value (c : ascii) : bool :=
  is_numchar c || Ascii.eqb c "[" || Ascii.eqb c "{" || Ascii.eqb c dquote
  || Ascii.eqb c "n" || Ascii.eqb c "t" || Ascii.eqb c "f".

Definition size_elems (l : list json) : nat :=
  list_sum (map (fun v => S (size v)) l).

Definition size_members (m : list (string * json)) : nat :=
  list_sum (map (fun kv => S (size (snd kv))) m).

(** *** UTF-8

    Strings are byte strings.  [rune_size] follows the decoder of Go's
    [unicode/utf8]: the length of the well-formed encoding the string
    starts with, if it starts with one (no overlong form, no surrogate,
    nothing above U+10FFFF, no truncated sequence). *)

Definition byte_in (lo hi : nat) (c : ascii) : bool :=
  ((lo <=? nat_of_ascii c) && (nat_of_ascii c <=? hi))%nat.

Definition continuation (c : ascii) : bool := byte_in 128 191 c.

(** The second byte a three-byte and a four-byte leader accept. *)
Definition second3 (a b : ascii) : bool :=
  if Ascii.eqb a "224" then byte_in 160 191 b
  else if Ascii.eqb a "237" then byte_in 128 159 b
  else continuation b.

Definition second4 (a b : ascii) : bool :=
  if Ascii.eqb a "240" then byte_in 144 191 b
  else if Ascii.eqb a "244" then byte_in 128 143 b
  else continuation b.

Definition rune_size (s : string) : option nat :=
  match s with
  | "" => None
  | String a r =>
      if (nat_of_ascii a <? 128)%nat then Some 1%nat
      else if byte_in 194 223 a then
        match r with
        | String b _ => if continuation b then Some 2%nat else None
        | _ => None
        end
      else if byte_in 224 239 a then
        match r with
        | String b (String c _) =>
            if second3 a b && continuation c then Some 3%nat else None
        | _ => None
        end
      else if byte_in 240 244 a then
        match r with
        | String b (String c (String d _)) =>
            if second4 a b && continuation c && continuation d
            then Some 4%nat else None
        | _ => None
        end
      else None
  end.

(** U+FFFD, the replacement character, encoded. *)
Definition replacement : string :=
  String "239" (String "191" (String "189" "")).

(** The string with every byte that starts no well-formed encoding
    replaced by U+FFFD, one replacement for each such byte. *)
Fixpoint toValidUTF8 (s : string) : string :=
  match s with
  | "" => ""
  | String a r1 =>
      match rune_size s with
      | Some 1%nat => String a (toValidUTF8 r1)
      | Some 2%nat =>
          match r1 with
          | String b r2 => String a (String b (toValidUTF8 r2))
          | _ => replacement ++ toValidUTF8 r1
          end
      | Some 3%nat =>
          match r1 with
          | String b (String c r3) =>
              String a (String b (String c (toValidUTF8 r3)))
          | _ => replacement ++ toValidUTF8 r1
          end
      | Some 4%nat =>
          match r1 with
          | String b (String c (String d r4)) =>
              String a (String b (String c (String d (toValidUTF8 r4))))
          | _ => replacement ++ toValidUTF8 r1
          end
      | _ => replacement ++ toValidUTF8 r1
      end
  end.

(** Whether the string is well-formed UTF-8 throughout. *)
Fixpoint validUTF8 (s : string) : bool :=
  match s with
  | "" => true
  | String a r1 =>
      match rune_size s with
      | Some 1%nat => validUTF8 r1
      | Some 2%nat =>
          match r1 with
          | String b r2 => validUTF8 r2
          | _ => false
          end
      | Some 3%nat =>
          match r1 with
          | String b (String c r3) => validUTF8 r3
          | _ => false
          end
      | Some 4%nat =>
          match r1 with
          | String b (String c (String d r4)) => validUTF8 r4
          | _ => false
          end
      | _ => false
      end
  end.

(** Whether every string of a value, keys included, is valid UTF-8. *)
Fixpoint utf8_json (v : json) : bool :=
  match v with
  | JStr s => validUTF8 s
  | JArr l => forallb utf8_json l
  | JObj m => forallb (fun kv => validUTF8 (fst kv) && utf8_json (snd kv)) m
  | _ => true
  end.


(** *** Printing then parsing *)

#[local] Arguments String.append !s1 s2 : simpl nomatch.

Lemma app_assoc (a b c : string) : (a ++ b) ++ c = a ++ (b ++ c).
Proof. induction a as [|x a IH]; cbn; [reflexivity | now rewrite IH]. Qed.

Lemma length_app (a b : string) :
  String.length (a ++ b) = (String.length a + String.length b)%nat.
Proof. induction a as [|x a IH]; cbn; [reflexivity | now rewrite IH]. Qed.

Lemma parse_string_body_char (c : ascii) (r : string) :
  parse_string_body (escape_char c ++ r) =
    match parse_string_body r with
    | Some (t, rest) => Some (String c t, rest)
    | None => None
    end.
Proof. destruct c as [[] [] [] [] [] [] [] []]; reflexivity. Qed.

Lemma parse_string_body_escape (s rest : string) :
  parse_string_body (escape s ++ String dquote rest) = Some (s, rest).
Proof.
  induction s as [|c s IH]; [reflexivity|].
  cbn [escape]. rewrite app_assoc, parse_string_body_char, IH. reflexivity.
Qed.

Lemma quote_app (s rest : string) :
  quote s ++ rest = String dquote (escape s ++ String dquote rest).
Proof. unfold quote. cbn. now rewrite app_assoc. Qed.

Lemma span_num_app (s rest : string) :
  all_num s = true -> ends_number rest -> span_num (s ++ rest) = (s, rest).
Proof.
  intros Hs Hr. induction s as [|c s IH]; cbn in *.
  - destruct rest as [|c r]; [reflexivity|]. cbn in *. now rewrite Hr.
  - apply andb_prop in Hs as [Hc Hs]. rewrite Hc, (IH Hs). reflexivity.
Qed.

Lemma all_num_uint (d : Decimal.uint) : all_num (NilEmpty.string_of_uint d) = true.
Proof. induction d; cbn; auto. Qed.

Lemma all_num_print_int (n : Z) : all_num (print_int n) = true.
Proof.
  unfold print_int, NilZero.string_of_int, NilZero.string_of_uint.
  destruct (Z.to_int n) as [d | d]; destruct d;
    first [ reflexivity | apply all_num_uint
          | change (all_num (String "-" ?s)) with (all_num s); apply all_num_uint ].
Qed.

Lemma to_int_proper (n : Z) :
  Z.to_int n <> Decimal.Pos Decimal.Nil /\ Z.to_int n <> Decimal.Neg Decimal.Nil.
Proof.
  destruct n as [|p|p]; cbn; split; try discriminate;
    intros [= E]; now apply DecimalPos.Unsigned.to_uint_nonnil in E.
Qed.

Lemma parse_int_print (n : Z) (rest : string) :
  ends_number rest -> parse_int (print_int n ++ rest) = Some (n, rest).
Proof.
  intros Hr. unfold parse_int.
  rewrite (span_num_app _ _ (all_num_print_int n) Hr).
  unfold print_int. destruct (to_int_proper n) as [Hp Hn].
  rewrite (NilZero.isi _ Hp Hn), DecimalZ.of_to. reflexivity.
Qed.

Lemma print_int_head (n : Z) :
  exists c r, print_int n = String c r /\ is_numchar c = true.
Proof.
  pose proof (all_num_print_int n) as Ha.
  destruct (print_int n) as [|c r] eqn:E.
  - exfalso. unfold print_int, NilZero.string_of_int, NilZero.string_of_uint in E.
    destruct (to_int_proper n) as [Hp Hn].
    destruct (Z.to_int n) as [d | d]; destruct d; cbn in E; congruence.
  - cbn in Ha. apply andb_prop in Ha as [Hc _]. eauto.
Qed.

Lemma print_head (v : json) :
  exists c r, print v = String c r /\ starts_value c = true.
Proof.
  destruct v as [| [] | n | s | l | m]; cbn; try (eexists _, _; split; reflexivity).
  destruct (print_int_head n) as (c & r & E & Hc). exists c, r. split; [exact E|].
  unfold starts_value. now rewrite Hc.
Qed.

(** A character that starts a value is no blank and closes nothing. *)
Lemma starts_value_facts (c : ascii) :
  starts_value c = true ->
  is_ws c = false /\ Ascii.eqb c "]" = false /\ Ascii.eqb c "}" = false.
Proof. destruct c as [[] [] [] [] [] [] [] []]; cbn; intros; auto; discriminate. Qed.

Lemma numchar_facts (c : ascii) :
  is_numchar c = true ->
  is_ws c = false /\ Ascii.eqb c "[" = false /\ Ascii.eqb c "{" = false
  /\ Ascii.eqb c dquote = false /\ Ascii.eqb c "n" = false
  /\ Ascii.eqb c "t" = false /\ Ascii.eqb c "f" = false.
Proof. destruct c as [[] [] [] [] [] [] [] []]; cbn; intros; auto 10; discriminate. Qed.

Lemma next_print (v : json) (rest : string) :
  exists c r, print v ++ rest = String c r /\ next (print v ++ rest) = Some (c, r)
              /\ starts_value c = true.
Proof.
  destruct (print_head v) as (c & r & E & Hc).
  exists c, (r ++ rest). rewrite E. cbn. split; [reflexivity|].
  destruct (starts_value_facts c Hc) as (Hw & _).
  unfold next. cbn. rewrite Hw. auto.
Qed.

Lemma next_cons (c : ascii) (r : string) :
  is_ws c = false -> next (String c r) = Some (c, r).
Proof. intros Hc. unfold next. cbn [skip_ws]. now rewrite Hc. Qed.

(** Unfolding equations of the printer and of the parser. *)
Lemma print_arr (l : list json) (rest : string) :
  print (JArr l) ++ rest = String "[" (elems_with print l ++ rest).
Proof. reflexivity. Qed.

Lemma print_obj (m : list (string * json)) (rest : string) :
  print (JObj m) ++ rest = String "{" (members_with print m ++ rest).
Proof. reflexivity. Qed.

Lemma elems_cons (v : json) (l : list json) (rest : string) :
  elems_with print (v :: l) ++ rest =
  print v ++ String (match l with [] => "]"%char | _ => ","%char end)
               (match l with [] => rest | _ => elems_with print l ++ rest end).
Proof.
  change (elems_with print (v :: l))
    with (print v ++ match l with [] => "]" | _ => "," ++ elems_with print l end).
  rewrite app_assoc. now destruct l.
Qed.

Lemma members_cons (k : string) (v : json) (m : list (string * json)) (rest : string) :
  members_with print ((k, v) :: m) ++ rest =
  String dquote (escape k ++ String dquote (String ":" (print v ++
    String (match m with [] => "}"%char | _ => ","%char end)
           (match m with [] => rest | _ => members_with print m ++ rest end)))).
Proof.
  change (members_with print ((k, v) :: m))
    with (quote k ++ ":" ++ print v ++
          match m with [] => "}" | _ => "," ++ members_with print m end).
  rewrite app_assoc, quote_app.
  change ((":" ++ ?y) ++ rest) with (String ":" (y ++ rest)).
  rewrite app_assoc. now destruct m.
Qed.

Lemma parse_value_arr (f : nat) (r : string) :
  parse_value (S f) (String "[" r) =
    match next r with
    | Some (c', r') =>
        if Ascii.eqb c' "]" then Some (JArr [], r')
        else match parse_elems f r with
             | Some (l, r'') => Some (JArr l, r'')
             | None => None
             end
    | None => None
    end.
Proof. reflexivity. Qed.

Lemma parse_value_obj (f : nat) (r : string) :
  parse_value (S f) (String "{" r) =
    match next r with
    | Some (c', r') =>
        if Ascii.eqb c' "}" then Some (JObj [], r')
        else match parse_members f r with
             | Some (m, r'') => Some (JObj m, r'')
             | None => None
             end
    | None => None
    end.
Proof. reflexivity. Qed.

Lemma parse_value_str (f : nat) (r : string) :
  parse_value (S f) (String dquote r) =
    match parse_string_body r with
    | Some (t, r') => Some (JStr t, r')
    | None => None
    end.
Proof. reflexivity. Qed.

Lemma parse_elems_S (f : nat) (s : string) :
  parse_elems (S f) s =
    match parse_value f s with
    | Some (v, r) =>
        match next r with
        | Some (c, r') =>
            if Ascii.eqb c "," then
              match parse_elems f r' with
              | Some (l, r'') => Some (v :: l, r'')
              | None => None
              end
            else if Ascii.eqb c "]" then Some ([v], r')
            else None
        | None => None
        end
    | None => None
    end.
Proof. reflexivity. Qed.

Lemma parse_members_S (f : nat) (r : string) :
  parse_members (S f) (String dquote r) =
    match parse_string_body r with
    | Some (k, r1) =>
        match next r1 with
        | Some (c1, r2) =>
            if Ascii.eqb c1 ":" then
              match parse_value f r2 with
              | Some (v, r3) =>
                  match next r3 with
                  | Some (c3, r4) =>
                      if Ascii.eqb c3 "," then
                        match parse_members f r4 with
                        | Some (m, r5) => Some ((k, v) :: m, r5)
                        | None => None
                        end
                      else if Ascii.eqb c3 "}" then Some ([(k, v)], r4)
                      else None
                  | None => None
                  end
              | None => None
              end
            else None
        | None => None
        end
    | None => None
    end.
Proof. reflexivity. Qed.

Lemma parse_print_fuel (f : nat) :
  (forall v rest, (size v <= f)%nat -> ends_number rest ->
     parse_value f (print v ++ rest) = Some (v, rest))
  /\ (forall l rest, l <> [] -> (size_elems l <= f)%nat ->
     parse_elems f (elems_with print l ++ rest) = Some (l, rest))
  /\ (forall m rest, m <> [] -> (size_members m <= f)%nat ->
     parse_members f (members_with print m ++ rest) = Some (m, rest)).
Proof.
  induction f as [|f (IHv & IHl & IHm)].
  { split; [|split].
    - intros v rest Hs. destruct v; cbn in Hs; lia.
    - intros [|v l] rest Hl Hs; [congruence | cbn in Hs; lia].
    - intros [|kv m] rest Hm Hs; [congruence | cbn in Hs; lia]. }
  split; [|split].
  - intros v rest Hs Hr. destruct v as [| [] | n | s | l | m].
    + reflexivity.
    + reflexivity.
    + reflexivity.
    + destruct (print_int_head n) as (c & r & E & Hc).
      destruct (numchar_facts c Hc) as (Hw & H1 & H2 & H3 & H4 & H5 & H6).
      cbn [print]. pose proof (parse_int_print n rest Hr) as Hp.
      rewrite E in Hp |- *. cbn [append] in Hp |- *.
      cbn [parse_value]. rewrite (next_cons _ _ Hw), H1, H2, H3, H4, H5, H6, Hp.
      reflexivity.
    + cbn [print]. rewrite quote_app, parse_value_str, parse_string_body_escape.
      reflexivity.
    + rewrite print_arr, parse_value_arr. destruct l as [|v l]; [reflexivity|].
      rewrite IHl; [| discriminate | cbn in Hs |- *; lia].
      rewrite elems_cons.
      destruct (next_print v (String (match l with [] => "]"%char | _ => ","%char end)
                 (match l with [] => rest | _ => elems_with print l ++ rest end)))
        as (c & r & _ & -> & Hc).
      destruct (starts_value_facts c Hc) as (_ & -> & _). reflexivity.
    + rewrite print_obj, parse_value_obj. destruct m as [|[k v] m]; [reflexivity|].
      rewrite IHm; [| discriminate | cbn in Hs |- *; lia].
      rewrite members_cons. rewrite next_cons by reflexivity. reflexivity.
  - intros [|v l] rest Hne Hs; [congruence|]. clear Hne.
    rewrite elems_cons, parse_elems_S, IHv.
    + destruct l as [|v' l].
      * reflexivity.
      * rewrite next_cons by reflexivity. cbn [Ascii.eqb Bool.eqb].
        rewrite IHl; [reflexivity | discriminate |].
        unfold size_elems in *. cbn in Hs |- *. lia.
    + unfold size_elems in Hs. cbn in Hs. lia.
    + destruct l; reflexivity.
  - intros [|[k v] m] rest Hne Hs; [congruence|]. clear Hne.
    rewrite members_cons.
    rewrite parse_members_S, parse_string_body_escape.
    rewrite next_cons by reflexivity. cbn [Ascii.eqb Bool.eqb].
    rewrite IHv.
    + destruct m as [|kv' m].
      * reflexivity.
      * rewrite next_cons by reflexivity. cbn [Ascii.eqb Bool.eqb].
        rewrite IHm; [reflexivity | discriminate |].
        unfold size_members in *. cbn in Hs |- *. lia.
    + unfold size_members in Hs. cbn in Hs. lia.
    + destruct m; reflexivity.
Qed.

Lemma app_nil_r (a : string) : a ++ "" = a.
Proof. induction a as [|x a IH]; cbn; [reflexivity | now rewrite IH]. Qed.

Lemma size_in_elems (v : json) (l : list json) :
  In v l -> (S (size v) <= size_elems l)%nat.
Proof.
  unfold size_elems, list_sum. induction l as [|w l IH]; cbn; [tauto|].
  intros [-> | Hin]; [lia | specialize (IH Hin); lia].
Qed.

Lemma size_in_members (kv : string * json) (m : list (string * json)) :
  In kv m -> (S (size (snd kv)) <= size_members m)%nat.
Proof.
  unfold size_members, list_sum. induction m as [|w m IH]; cbn; [tauto|].
  intros [-> | Hin]; [lia | specialize (IH Hin); lia].
Qed.

Lemma length_elems (l : list json) :
  (forall v, In v l -> (size v <= String.length (print v))%nat) ->
  (size_elems l <= String.length (elems_with print l))%nat.
Proof.
  unfold size_elems, list_sum. induction l as [|v l IH]; intros Hl; [cbn; lia|].
  change (elems_with print (v :: l))
    with (print v ++ match l with [] => "]" | _ => "," ++ elems_with print l end).
  rewrite length_app. specialize (Hl v (or_introl eq_refl)) as Hv.
  destruct l as [|w l]; [cbn; lia|].
  specialize (IH (fun x Hx => Hl x (or_intror Hx))).
  cbn [map fold_right] in IH |- *. cbn [append String.length]. lia.
Qed.

Lemma length_members (m : list (string * json)) :
  (forall kv, In kv m -> (size (snd kv) <= String.length (print (snd kv)))%nat) ->
  (size_members m <= String.length (members_with print m))%nat.
Proof.
  unfold size_members, list_sum. induction m as [|kv m IH]; intros Hm; [cbn; lia|].
  change (members_with print (kv :: m))
    with (quote (fst kv) ++ ":" ++ print (snd kv) ++
          match m with [] => "}" | _ => "," ++ members_with print m end).
  rewrite !length_app. specialize (Hm kv (or_introl eq_refl)) as Hv.
  destruct m as [|w m]; [cbn; lia|].
  specialize (IH (fun x Hx => Hm x (or_intror Hx))).
  cbn [map fold_right] in IH |- *. cbn [append String.length]. lia.
Qed.

Lemma size_le_length_bound (n : nat) (v : json) :
  (size v <= n)%nat -> (size v <= String.length (print v))%nat.
Proof.
  revert v. induction n as [|n IH]; intros v Hs.
  { destruct v; cbn in Hs; lia. }
  destruct v as [| [] | k | s | l | m]; try (cbn; lia).
  - destruct (print_int_head k) as (c & r & E & _). cbn [print size].
    rewrite E. cbn. lia.
  - cbn [size print]. change ("[" ++ ?x) with (String "[" x).
    cbn [String.length]. apply le_n_S, length_elems.
    intros v Hv. apply IH. apply size_in_elems in Hv.
    unfold size_elems in Hv. cbn [size] in Hs. lia.
  - cbn [size print]. change ("{" ++ ?x) with (String "{" x).
    cbn [String.length]. apply le_n_S, length_members.
    intros kv Hkv. apply IH. apply size_in_members in Hkv.
    unfold size_members in Hkv. cbn [size] in Hs. lia.
Qed.

Lemma size_le_length (v : json) : (size v <= String.length (print v))%nat.
Proof. exact (size_le_length_bound (size v) v (le_n _)). Qed.

(** Parsing a printed value gives the value back, whatever blanks follow
    it. *)
Lemma parse_print_then (v : json) (rest : string) :
  ends_number rest -> next rest = None -> parse (print v ++ rest) = Some v.
Proof.
  intros Hr Hn. unfold parse.
  destruct (parse_print_fuel (S (String.length (print v ++ rest)))) as (Hv & _).
  rewrite Hv, Hn; [reflexivity | | exact Hr].
  rewrite length_app. pose proof (size_le_length v). lia.
Qed.

Theorem parse_print (v : json) : parse (print v) = Some v.
Proof.
  rewrite <- (app_nil_r (print v)). now apply parse_print_then.
Qed.

(** *** Indented printing then parsing *)

Lemma next_ws (w s : string) : all_ws w = true -> next (w ++ s) = next s.
Proof.
  unfold next. induction w as [|c w IH]; [reflexivity|].
  cbn [all_ws append skip_ws]. intros Hw. apply andb_prop in Hw as [-> Hw].
  exact (IH Hw).
Qed.

Lemma all_ws_pad (d : nat) : all_ws (pad d) = true.
Proof.
  unfold pad. change (newline ++ ?s) with (String "010" s).
  cbn [all_ws]. generalize (2 * d)%nat as n.
  induction n as [|n IH]; [reflexivity | exact IH].
Qed.

Lemma parse_value_next (f : nat) (s s' : string) :
  next s = next s' -> parse_value f s = parse_value f s'.
Proof. destruct f; [reflexivity|]. cbn [parse_value]. now intros ->. Qed.

Lemma parse_elems_next (f : nat) (s s' : string) :
  next s = next s' -> parse_elems f s = parse_elems f s'.
Proof.
  destruct f; [reflexivity|]. intros E. rewrite !parse_elems_S.
  now rewrite (parse_value_next f s s' E).
Qed.

Lemma parse_members_next (f : nat) (s s' : string) :
  next s = next s' -> parse_members f s = parse_members f s'.
Proof. destruct f; [reflexivity|]. cbn [parse_members]. now intros ->. Qed.

Lemma parse_value_blank (f : nat) (s : string) :
  parse_value f (String " " s) = parse_value f s.
Proof. apply parse_value_next. reflexivity. Qed.

Lemma print_indent_head (d : nat) (v : json) :
  exists c r, print_indent d v = String c r /\ starts_value c = true.
Proof.
  destruct v as [| [] | n | s | l | m];
    try exact (print_head _); cbn [print_indent];
    eexists _, _; split; reflexivity.
Qed.

Lemma next_print_indent (d : nat) (v : json) (rest : string) :
  exists c r, next (print_indent d v ++ rest) = Some (c, r)
              /\ starts_value c = true.
Proof.
  destruct (print_indent_head d v) as (c & r & E & Hc).
  exists c, (r ++ rest). rewrite E. split; [|exact Hc].
  apply next_cons. now destruct (starts_value_facts c Hc).
Qed.

Lemma print_indent_arr (d : nat) (l : list json) (rest : string) :
  print_indent d (JArr l) ++ rest
  = String "[" (elems_indent_with (print_indent (S d)) d l ++ rest).
Proof. reflexivity. Qed.

Lemma print_indent_obj (d : nat) (m : list (string * json)) (rest : string) :
  print_indent d (JObj m) ++ rest
  = String "{" (members_indent_with (print_indent (S d)) d m ++ rest).
Proof. reflexivity. Qed.

Lemma elems_indent_cons (d : nat) (v : json) (l : list json) (rest : string) :
  elems_indent_with (print_indent (S d)) d (v :: l) ++ rest =
  pad (S d) ++ print_indent (S d) v
  ++ match l with
     | [] => pad d ++ String "]" rest
     | _ => String "," (elems_indent_with (print_indent (S d)) d l ++ rest)
     end.
Proof.
  change (elems_indent_with (print_indent (S d)) d (v :: l))
    with (pad (S d) ++ print_indent (S d) v
          ++ match l with
             | [] => pad d ++ "]"
             | _ => "," ++ elems_indent_with (print_indent (S d)) d l
             end).
  rewrite !app_assoc. destruct l; [now rewrite app_assoc | reflexivity].
Qed.

Lemma members_indent_cons (d : nat) (k : string) (v : json)
    (m : list (string * json)) (rest : string) :
  members_indent_with (print_indent (S d)) d ((k, v) :: m) ++ rest =
  pad (S d) ++ String dquote (escape k ++ String dquote (String ":" (String " "
    (print_indent (S d) v
     ++ match m with
        | [] => pad d ++ String "}" rest
        | _ => String "," (members_indent_with (print_indent (S d)) d m ++ rest)
        end)))).
Proof.
  change (members_indent_with (print_indent (S d)) d ((k, v) :: m))
    with (pad (S d) ++ quote k ++ ": " ++ print_indent (S d) v
          ++ match m with
             | [] => pad d ++ "}"
             | _ => "," ++ members_indent_with (print_indent (S d)) d m
             end).
  rewrite !app_assoc, quote_app.
  destruct m; [rewrite app_assoc|]; reflexivity.
Qed.

Lemma parse_print_indent_fuel (f : nat) :
  (forall v d rest, (size v <= f)%nat -> ends_number rest ->
     parse_value f (print_indent d v ++ rest) = Some (v, rest))
  /\ (forall l d rest, l <> [] -> (size_elems l <= f)%nat ->
     parse_elems f (elems_indent_with (print_indent (S d)) d l ++ rest)
     = Some (l, rest))
  /\ (forall m d rest, m <> [] -> (size_members m <= f)%nat ->
     parse_members f (members_indent_with (print_indent (S d)) d m ++ rest)
     = Some (m, rest)).
Proof.
  induction f as [|f (IHv & IHl & IHm)].
  { split; [|split].
    - intros v d rest Hs. destruct v; cbn in Hs; lia.
    - intros [|v l] d rest Hl Hs; [congruence | cbn in Hs; lia].
    - intros [|kv m] d rest Hm Hs; [congruence | cbn in Hs; lia]. }
  split; [|split].
  - intros v d rest Hs Hr.
    destruct v as [| [] | n | s | l | m];
      try exact (proj1 (parse_print_fuel (S f)) _ rest Hs Hr).
    + rewrite print_indent_arr, parse_value_arr. destruct l as [|v l]; [reflexivity|].
      rewrite IHl; [| discriminate | cbn in Hs |- *; lia].
      rewrite elems_indent_cons, (next_ws _ _ (all_ws_pad (S d))).
      destruct (next_print_indent (S d) v
                  (match l with
                   | [] => pad d ++ String "]" rest
                   | _ => String "," (elems_indent_with (print_indent (S d)) d l ++ rest)
                   end)) as (c & r & -> & Hc).
      destruct (starts_value_facts c Hc) as (_ & -> & _). reflexivity.
    + rewrite print_indent_obj, parse_value_obj.
      destruct m as [|[k v] m]; [reflexivity|].
      rewrite IHm; [| discriminate | cbn in Hs |- *; lia].
      rewrite members_indent_cons, (next_ws _ _ (all_ws_pad (S d))).
      rewrite next_cons by reflexivity. reflexivity.
  - intros [|v l] d rest Hne Hs; [congruence|]. clear Hne.
    rewrite elems_indent_cons, parse_elems_S.
    rewrite (parse_value_next f _ _ (next_ws _ _ (all_ws_pad (S d)))), IHv.
    + destruct l as [|v' l].
      * rewrite (next_ws _ _ (all_ws_pad d)), next_cons by reflexivity. reflexivity.
      * rewrite next_cons by reflexivity. cbn [Ascii.eqb Bool.eqb].
        rewrite IHl; [reflexivity | discriminate |].
        unfold size_elems in *. cbn in Hs |- *. lia.
    + unfold size_elems in Hs. cbn in Hs. lia.
    + destruct l; reflexivity.
  - intros [|[k v] m] d rest Hne Hs; [congruence|]. clear Hne.
    rewrite members_indent_cons.
    rewrite (parse_members_next (S f) _ _ (next_ws _ _ (all_ws_pad (S d)))).
    rewrite parse_members_S, parse_string_body_escape.
    rewrite next_cons by reflexivity. cbn [Ascii.eqb Bool.eqb].
    rewrite parse_value_blank, IHv.
    + destruct m as [|kv' m].
      * rewrite (next_ws _ _ (all_ws_pad d)), next_cons by reflexivity. reflexivity.
      * rewrite next_cons by reflexivity. cbn [Ascii.eqb Bool.eqb].
        rewrite IHm; [reflexivity | discriminate |].
        unfold size_members in *. cbn in Hs |- *. lia.
    + unfold size_members in Hs. cbn in Hs. lia.
    + destruct m; reflexivity.
Qed.

Lemma print_le_print_indent (n : nat) :
  forall d v, (size v <= n)%nat ->
    (String.length (print v) <= String.length (print_indent d v))%nat.
Proof.
  induction n as [|n IH]; intros d v Hs.
  { destruct v; cbn in Hs; lia. }
  destruct v as [| [] | k | s | l | m]; try (cbn [print_indent]; lia).
  - cbn [print print_indent]. change ("[" ++ ?x) with (String "[" x).
    cbn [String.length]. apply le_n_S.
    assert (Hl : forall v, In v l -> (size v <= n)%nat).
    { intros v Hv. apply size_in_elems in Hv. unfold size_elems in Hv.
      cbn [size] in Hs. lia. }
    clear Hs. induction l as [|v l IHl]; [cbn; lia|].
    change (elems_with print (v :: l))
      with (print v ++ match l with [] => "]" | _ => "," ++ elems_with print l end).
    change (elems_indent_with (print_indent (S d)) d (v :: l))
      with (pad (S d) ++ print_indent (S d) v
            ++ match l with
               | [] => pad d ++ "]"
               | _ => "," ++ elems_indent_with (print_indent (S d)) d l
               end).
    rewrite !length_app.
    pose proof (IH (S d) v (Hl v (or_introl eq_refl))) as Hv.
    destruct l as [|w l]; [cbn [String.length]; rewrite length_app; cbn; lia|].
    specialize (IHl (fun x Hx => Hl x (or_intror Hx))).
    cbn [append String.length]. lia.
  - cbn [print print_indent]. change ("{" ++ ?x) with (String "{" x).
    cbn [String.length]. apply le_n_S.
    assert (Hm : forall kv, In kv m -> (size (snd kv) <= n)%nat).
    { intros kv Hkv. apply size_in_members in Hkv. unfold size_members in Hkv.
      cbn [size] in Hs. lia. }
    clear Hs. induction m as [|kv m IHm]; [cbn; lia|].
    change (members_with print (kv :: m))
      with (quote (fst kv) ++ ":" ++ print (snd kv)
            ++ match m with [] => "}" | _ => "," ++ members_with print m end).
    change (members_indent_with (print_indent (S d)) d (kv :: m))
      with (pad (S d) ++ quote (fst kv) ++ ": " ++ print_indent (S d) (snd kv)
            ++ match m with
               | [] => pad d ++ "}"
               | _ => "," ++ members_indent_with (print_indent (S d)) d m
               end).
    rewrite !length_app.
    pose proof (IH (S d) (snd kv) (Hm kv (or_introl eq_refl))) as Hv.
    destruct m as [|w m]; [cbn [String.length]; rewrite length_app; cbn; lia|].
    specialize (IHm (fun x Hx => Hm x (or_intror Hx))).
    cbn [append String.length]. lia.
Qed.

Theorem parse_print_indent (v : json) : parse (print_indent 0 v) = Some v.
Proof.
  unfold parse. rewrite <- (app_nil_r (print_indent 0 v)) at 2.
  destruct (parse_print_indent_fuel (S (String.length (print_indent 0 v))))
    as (Hv & _).
  rewrite Hv; [reflexivity | | exact I].
  pose proof (size_le_length v).
  pose proof (print_le_print_indent (size v) 0 v (le_n _)). lia.
Qed.

(** *** Coercion to UTF-8 *)

(** What [rune_size] says of a string: how it starts, and that nothing
    after the encoding matters. *)
Inductive starts_rune : string -> nat -> Prop :=
| starts1 a r :
    (forall x, rune_size (String a x) = Some 1%nat) ->
    starts_rune (String a r) 1
| starts2 a b r :
    (forall x, rune_size (String a (String b x)) = Some 2%nat) ->
    starts_rune (String a (String b r)) 2
| starts3 a b c r :
    (forall x, rune_size (String a (String b (String c x))) = Some 3%nat) ->
    starts_rune (String a (String b (String c r))) 3
| starts4 a b c d r :
    (forall x, rune_size (String a (String b (String c (String d x)))) = Some 4%nat) ->
    starts_rune (String a (String b (String c (String d r)))) 4.

Lemma rune_size_starts (s : string) (k : nat) :
  rune_size s = Some k -> starts_rune s k.
Proof.
  destruct s as [|a r]; [discriminate|]. unfold rune_size.
  destruct (nat_of_ascii a <? 128)%nat eqn:E1.
  { intros [= <-]. apply starts1. intros x. unfold rune_size. now rewrite E1. }
  destruct (byte_in 194 223 a) eqn:E2.
  { destruct r as [|b r]; [discriminate|].
    destruct (continuation b) eqn:Eb; [|discriminate].
    intros [= <-]. apply starts2. intros x. unfold rune_size. now rewrite E1, E2, Eb. }
  destruct (byte_in 224 239 a) eqn:E3.
  { destruct r as [|b [|c r]]; try discriminate.
    destruct (second3 a b && continuation c) eqn:Eb; [|discriminate].
    intros [= <-]. apply starts3. intros x. unfold rune_size. now rewrite E1, E2, E3, Eb. }
  destruct (byte_in 240 244 a) eqn:E4; [|discriminate].
  destruct r as [|b [|c [|d r]]]; try discriminate.
  destruct (second4 a b && continuation c && continuation d) eqn:Eb; [|discriminate].
  intros [= <-]. apply starts4. intros x. unfold rune_size. now rewrite E1, E2, E3, E4, Eb.
Qed.

Lemma rune_size_le (s : string) (k : nat) :
  rune_size s = Some k -> (1 <= k <= 4)%nat.
Proof. intros Hk. destruct (rune_size_starts s k Hk); lia. Qed.

Lemma rune_size_replacement (x : string) :
  rune_size (replacement ++ x) = Some 3%nat.
Proof. reflexivity. Qed.

(** The unfolding equations of the coercion. *)
Lemma toValidUTF8_none (a : ascii) (r : string) :
  rune_size (String a r) = None ->
  toValidUTF8 (String a r) = replacement ++ toValidUTF8 r.
Proof. intros Hn. cbn [toValidUTF8]. now rewrite Hn. Qed.

Lemma toValidUTF8_1 (a : ascii) (r : string) :
  rune_size (String a r) = Some 1%nat ->
  toValidUTF8 (String a r) = String a (toValidUTF8 r).
Proof. intros Hn. cbn [toValidUTF8]. now rewrite Hn. Qed.

Lemma toValidUTF8_2 (a b : ascii) (r : string) :
  rune_size (String a (String b r)) = Some 2%nat ->
  toValidUTF8 (String a (String b r)) = String a (String b (toValidUTF8 r)).
Proof. intros Hn. cbn [toValidUTF8]. now rewrite Hn. Qed.

Lemma toValidUTF8_3 (a b c : ascii) (r : string) :
  rune_size (String a (String b (String c r))) = Some 3%nat ->
  toValidUTF8 (String a (String b (String c r)))
  = String a (String b (String c (toValidUTF8 r))).
Proof. intros Hn. cbn [toValidUTF8]. now rewrite Hn. Qed.

Lemma toValidUTF8_4 (a b c d : ascii) (r : string) :
  rune_size (String a (String b (String c (String d r)))) = Some 4%nat ->
  toValidUTF8 (String a (String b (String c (String d r))))
  = String a (String b (String c (String d (toValidUTF8 r)))).
Proof. intros Hn. cbn [toValidUTF8]. now rewrite Hn. Qed.

Lemma toValidUTF8_replacement (x : string) :
  toValidUTF8 (replacement ++ x) = replacement ++ toValidUTF8 x.
Proof. exact (toValidUTF8_3 "239" "191" "189" x eq_refl). Qed.

(** Coercing twice is coercing once. *)
Lemma toValidUTF8_idem_bound (n : nat) (s : string) :
  (String.length s <= n)%nat ->
  toValidUTF8 (toValidUTF8 s) = toValidUTF8 s.
Proof.
  revert s. induction n as [|n IH]; intros s Hn.
  { destruct s; [reflexivity | cbn in Hn; lia]. }
  destruct s as [|a r]; [reflexivity|].
  destruct (rune_size (String a r)) as [k|] eqn:Hk.
  - destruct (rune_size_starts _ _ Hk) as [a0 r0 H1 | a0 b r0 H2 | a0 b c r0 H3
                                            | a0 b c d r0 H4]; cbn in Hn.
    + rewrite (toValidUTF8_1 _ _ (H1 _)), (toValidUTF8_1 _ _ (H1 _)).
      rewrite IH by lia. reflexivity.
    + rewrite (toValidUTF8_2 _ _ _ (H2 _)), (toValidUTF8_2 _ _ _ (H2 _)).
      rewrite IH by lia. reflexivity.
    + rewrite (toValidUTF8_3 _ _ _ _ (H3 _)), (toValidUTF8_3 _ _ _ _ (H3 _)).
      rewrite IH by lia. reflexivity.
    + rewrite (toValidUTF8_4 _ _ _ _ _ (H4 _)), (toValidUTF8_4 _ _ _ _ _ (H4 _)).
      rewrite IH by lia. reflexivity.
  - rewrite (toValidUTF8_none _ _ Hk), toValidUTF8_replacement.
    cbn in Hn. rewrite IH by lia. reflexivity.
Qed.

Lemma toValidUTF8_idem (s : string) :
  toValidUTF8 (toValidUTF8 s) = toValidUTF8 s.
Proof. exact (toValidUTF8_idem_bound (String.length s) s (Nat.le_refl _)). Qed.

(** A well-formed string is left as it is. *)
Lemma toValidUTF8_valid_bound (n : nat) (s : string) :
  (String.length s <= n)%nat -> validUTF8 s = true -> toValidUTF8 s = s.
Proof.
  revert s. induction n as [|n IH]; intros s Hn.
  { destruct s; [reflexivity | cbn in Hn; lia]. }
  destruct s as [|a r]; [reflexivity|].
  destruct (rune_size (String a r)) as [k|] eqn:Hk.
  - destruct (rune_size_starts _ _ Hk) as [a0 r0 H1 | a0 b r0 H2 | a0 b c r0 H3
                                            | a0 b c d r0 H4]; cbn in Hn;
      cbn [validUTF8]; rewrite Hk; intros Hv.
    + rewrite (toValidUTF8_1 _ _ (H1 _)), IH by (lia || assumption). reflexivity.
    + rewrite (toValidUTF8_2 _ _ _ (H2 _)), IH by (lia || assumption). reflexivity.
    + rewrite (toValidUTF8_3 _ _ _ _ (H3 _)), IH by (lia || assumption). reflexivity.
    + rewrite (toValidUTF8_4 _ _ _ _ _ (H4 _)), IH by (lia || assumption). reflexivity.
  - cbn [validUTF8]. rewrite Hk. discriminate.
Qed.

Lemma toValidUTF8_valid (s : string) :
  validUTF8 s = true -> toValidUTF8 s = s.
Proof. exact (toValidUTF8_valid_bound (String.length s) s (Nat.le_refl _)). Qed.

End Json.

(* ===================================================================== *)
(** ** internal/theme: theme.go, charm.go, loader.go                       *)
(* ===================================================================== *)

Module Theme.

#[local] Open Scope string_scope.
#[local] Open Scope Z_scope.

(** [lipgloss.TerminalColor]: the interface value held by a color field.
    [NilColor] is the nil interface (the zero value of a field);
    [Color] is the simple string color, the other constructors are the
    structured color types of the library. *)
Inductive TerminalColor :=
| NilColor
| NoColor
| Color (s : string)
| AdaptiveColor (Light Dark : string)
| CompleteColor (TrueColor ANSI256 ANSI : string)
| CompleteAdaptiveColor (Light Dark : string * string * string).

(** [Colors]: the palette. *)
Record Colors := mkColors {
  Primary : TerminalColor;
  Secondary : TerminalColor;
  Background : TerminalColor;
  Surface : TerminalColor;
  Overlay : TerminalColor;
  Text : TerminalColor;
  TextMuted : TerminalColor;
  TextDim : TerminalColor;
  Success : TerminalColor;
  Warning : TerminalColor;
  Error : TerminalColor;
  Info : TerminalColor;
  Accent1 : TerminalColor;
  Accent2 : TerminalColor;
  Accent3 : TerminalColor
}.

(** [lipgloss.Style], as far as [BuildStyles] sets it: the properties the
    builder calls record.  Paddings and margins are (top, right, bottom,
    left). *)
Inductive Border := RoundedBorder.

Record Style := mkStyle {
  sBackground : TerminalColor;
  sForeground : TerminalColor;
  sBorder : option Border;
  sBorderForeground : TerminalColor;
  sPadding : Z * Z * Z * Z;
  sMargin : Z * Z * Z * Z;
  sBold : bool;
  sItalic : bool
}.

Definition NewStyle : Style :=
  {| sBackground := NilColor; sForeground := NilColor; sBorder := None;
     sBorderForeground := NilColor; sPadding := (0, 0, 0, 0);
     sMargin := (0, 0, 0, 0); sBold := false; sItalic := false |}.

Definition withBackground (c : TerminalColor) (s : Style) : Style :=
  {| sBackground := c; sForeground := sForeground s; sBorder := sBorder s;
     sBorderForeground := sBorderForeground s; sPadding := sPadding s;
     sMargin := sMargin s; sBold := sBold s; sItalic := sItalic s |}.

Definition withForeground (c : TerminalColor) (s : Style) : Style :=
  {| sBackground := sBackground s; sForeground := c; sBorder := sBorder s;
     sBorderForeground := sBorderForeground s; sPadding := sPadding s;
     sMargin := sMargin s; sBold := sBold s; sItalic := sItalic s |}.

Definition withBorder (b : Border) (s : Style) : Style :=
  {| sBackground := sBackground s; sForeground := sForeground s;
     sBorder := Some b; sBorderForeground := sBorderForeground s;
     sPadding := sPadding s; sMargin := sMargin s; sBold := sBold s;
     sItalic := sItalic s |}.

Definition withBorderForeground (c : TerminalColor) (s : Style) : Style :=
  {| sBackground := sBackground s; sForeground := sForeground s;
     sBorder := sBorder s; sBorderForeground := c; sPadding := sPadding s;
     sMargin := sMargin s; sBold := sBold s; sItalic := sItalic s |}.

Definition withPadding (p : Z * Z * Z * Z) (s : Style) : Style :=
  {| sBackground := sBackground s; sForeground := sForeground s;
     sBorder := sBorder s; sBorderForeground := sBorderForeground s;
     sPadding := p; sMargin := sMargin s; sBold := sBold s;
     sItalic := sItalic s |}.

Definition withMargin (f : Z * Z * Z * Z -> Z * Z * Z * Z) (s : Style) : Style :=
  {| sBackground := sBackground s; sForeground := sForeground s;
     sBorder := sBorder s; sBorderForeground := sBorderForeground s;
     sPadding := sPadding s; sMargin := f (sMargin s); sBold := sBold s;
     sItalic := sItalic s |}.

Definition withBold (b : bool) (s : Style) : Style :=
  {| sBackground := sBackground s; sForeground := sForeground s;
     sBorder := sBorder s; sBorderForeground := sBorderForeground s;
     sPadding := sPadding s; sMargin := sMargin s; sBold := b;
     sItalic := sItalic s |}.

Definition withItalic (b : bool) (s : Style) : Style :=
  {| sBackground := sBackground s; sForeground := sForeground s;
     sBorder := sBorder s; sBorderForeground := sBorderForeground s;
     sPadding := sPadding s; sMargin := sMargin s; sBold := sBold s;
     sItalic := b |}.

(** The builder calls, chained as in the source: [NewStyle |> ...]. *)
Definition Padding1 (a : Z) := withPadding (a, a, a, a).
Definition Padding2 (v h : Z) := withPadding (v, h, v, h).
Definition Margin1 (a : Z) := withMargin (fun _ => (a, a, a, a)).
Definition MarginTop (a : Z) := withMargin (fun '(_, r, b, l) => (a, r, b, l)).
Definition MarginRight (a : Z) := withMargin (fun '(t, _, b, l) => (t, a, b, l)).
Definition MarginBottom (a : Z) := withMargin (fun '(t, r, _, l) => (t, r, a, l)).

Notation "s |> f" := (f s) (at level 45, left associativity, only parsing).

(** [Styles]: the pre-configured styles. *)
Record Styles := mkStyles {
  Header : Style; Footer : Style; StatusBar : Style;
  UserMessage : Style; AssistantMessage : Style; SystemMessage : Style;
  InputField : Style; InputFieldFocus : Style; InputPrompt : Style;
  FormContainer : Style; FormTitle : Style; FormLabel : Style;
  FormInput : Style; FormButton : Style; FormButtonFocus : Style;
  TableContainer : Style; TableHeader : Style; TableRow : Style;
  TableRowAlt : Style; TableSelected : Style;
  CodeContainer : Style; CodeTitle : Style;
  AlertInfo : Style; AlertSuccess : Style; AlertWarning : Style;
  AlertError : Style;
  ProgressContainer : Style; ProgressBar : Style; ProgressComplete : Style;
  Spinner : Style; Border_ : Style; Highlight : Style; Muted : Style
}.

(** [BuildStyles]: all styles from a palette. *)
Definition BuildStyles (c : Colors) : Styles :=
  let border := RoundedBorder in
  {| Header := NewStyle |> withBackground (Surface c) |> withForeground (Primary c)
                 |> Padding2 0 2 |> withBold true;
     Footer := NewStyle |> withBackground (Surface c) |> withForeground (TextMuted c)
                 |> Padding2 0 2;
     StatusBar := NewStyle |> withBackground (Surface c)
                 |> withForeground (TextMuted c) |> Padding2 0 1;
     UserMessage := NewStyle |> withBackground (Surface c) |> withForeground (Text c)
                 |> withBorder border |> withBorderForeground (Primary c)
                 |> Padding2 1 2 |> MarginTop 1 |> MarginBottom 1;
     AssistantMessage := NewStyle |> withForeground (Text c) |> Padding2 1 2
                 |> MarginTop 1 |> MarginBottom 1;
     SystemMessage := NewStyle |> withForeground (TextMuted c) |> withItalic true
                 |> Padding2 0 2;
     InputField := NewStyle |> withBackground (Surface c) |> withForeground (Text c)
                 |> withBorder border |> withBorderForeground (TextDim c)
                 |> Padding2 0 1;
     InputFieldFocus := NewStyle |> withBackground (Surface c)
                 |> withForeground (Text c) |> withBorder border
                 |> withBorderForeground (Primary c) |> Padding2 0 1;
     InputPrompt := NewStyle |> withForeground (Primary c) |> withBold true;
     FormContainer := NewStyle |> withBackground (Surface c) |> withBorder border
                 |> withBorderForeground (Primary c) |> Padding2 1 2 |> Margin1 1;
     FormTitle := NewStyle |> withForeground (Primary c) |> withBold true
                 |> MarginBottom 1;
     FormLabel := NewStyle |> withForeground (Text c);
     FormInput := NewStyle |> withBackground (Overlay c) |> withForeground (Text c)
                 |> Padding2 0 1;
     FormButton := NewStyle |> withBackground (Surface c)
                 |> withForeground (TextMuted c) |> withBorder border
                 |> withBorderForeground (TextDim c) |> Padding2 0 2
                 |> MarginRight 1;
     FormButtonFocus := NewStyle |> withBackground (Primary c)
                 |> withForeground (Background c) |> withBorder border
                 |> withBorderForeground (Primary c) |> Padding2 0 2
                 |> MarginRight 1;
     TableContainer := NewStyle |> withBorder border
                 |> withBorderForeground (TextDim c) |> Padding2 0 1;
     TableHeader := NewStyle |> withBackground (Surface c)
                 |> withForeground (Primary c) |> withBold true |> Padding2 0 1;
     TableRow := NewStyle |> withForeground (Text c) |> Padding2 0 1;
     TableRowAlt := NewStyle |> withBackground (Surface c)
                 |> withForeground (Text c) |> Padding2 0 1;
     TableSelected := NewStyle |> withBackground (Primary c)
                 |> withForeground (Background c) |> Padding2 0 1;
     CodeContainer := NewStyle |> withBackground (Surface c) |> withBorder border
                 |> withBorderForeground (TextDim c) |> Padding1 1;
     CodeTitle := NewStyle |> withForeground (TextMuted c) |> withItalic true;
     AlertInfo := NewStyle |> withBorder border |> withBorderForeground (Info c)
                 |> withForeground (Text c) |> Padding2 1 2 |> Margin1 1;
     AlertSuccess := NewStyle |> withBorder border
                 |> withBorderForeground (Success c) |> withForeground (Text c)
                 |> Padding2 1 2 |> Margin1 1;
     AlertWarning := NewStyle |> withBorder border
                 |> withBorderForeground (Warning c) |> withForeground (Text c)
                 |> Padding2 1 2 |> Margin1 1;
     AlertError := NewStyle |> withBorder border
                 |> withBorderForeground (Error c) |> withForeground (Text c)
                 |> Padding2 1 2 |> Margin1 1;
     ProgressContainer := NewStyle |> Padding2 1 2;
     ProgressBar := NewStyle |> withForeground (Primary c);
     ProgressComplete := NewStyle |> withForeground (Success c);
     Spinner := NewStyle |> withForeground (Primary c);
     Border_ := NewStyle |> withBorder border |> withBorderForeground (TextDim c);
     Highlight := NewStyle |> withForeground (Primary c) |> withBold true;
     Muted := NewStyle |> withForeground (TextMuted c) |}.

(** [Theme]: metadata, palette, styles.  The record is named [ThemeT]
    and its zero value [zeroTheme]. *)
Record ThemeT := mkTheme {
  ID : string;
  Name : string;
  Description : string;
  Author : string;
  Version : string;
  colors : Colors;
  styles : Styles
}.

Definition zeroColors : Colors :=
  mkColors NilColor NilColor NilColor NilColor NilColor NilColor NilColor
           NilColor NilColor NilColor NilColor NilColor NilColor NilColor
           NilColor.

Definition zeroStyles : Styles :=
  mkStyles NewStyle NewStyle NewStyle NewStyle NewStyle NewStyle NewStyle
           NewStyle NewStyle NewStyle NewStyle NewStyle NewStyle NewStyle
           NewStyle NewStyle NewStyle NewStyle NewStyle NewStyle NewStyle
           NewStyle NewStyle NewStyle NewStyle NewStyle NewStyle NewStyle
           NewStyle NewStyle NewStyle NewStyle NewStyle.

Definition zeroTheme : ThemeT :=
  {| ID := ""; Name := ""; Description := ""; Author := ""; Version := "";
     colors := zeroColors; styles := zeroStyles |}.

Definition withStyles (t : ThemeT) (s : Styles) : ThemeT :=
  {| ID := ID t; Name := Name t; Description := Description t;
     Author := Author t; Version := Version t; colors := colors t;
     styles := s |}.

(** The package state: [Current] (a theme value) and [Available] (the
    registry).  The registry holds pointers in the source; no function of
    the package writes through a registered pointer, so each entry is the
    theme it points to, unless a client registers the address of
    [Current] itself, which [SetTheme] writes: [Registry] below has the
    themes at addresses for that. *)
Record Globals := mkGlobals {
  Current : ThemeT;
  Available : gmap string ThemeT
}.

(** [SetTheme]: changes the current theme; reports whether the name was
    found. *)
Definition SetTheme (name : string) (g : Globals) : Globals * bool :=
  match Available g !! name with
  | Some theme => ({| Current := theme; Available := Available g |}, true)
  | None => (g, false)
  end.

(** [Register]: adds a theme under its own [ID]. *)
Definition Register (t : ThemeT) (g : Globals) : Globals :=
  {| Current := Current g; Available := <[ID t := t]> (Available g) |}.

(** *** charm.go *)

Definition CharmPurple := Color "#7D56F4".
Definition CharmPink := Color "212".
Definition CharmViolet := Color "99".
Definition CharmTeal := Color "35".
Definition CharmIndigo := Color "63".

(** The three built-in themes as declared, before [init] builds their
    styles. *)
Definition CharmDark0 : ThemeT :=
  {| ID := "charm-dark";
     Name := "Charm Dark";
     Description := "The signature Charm aesthetic - glamorous terminal vibes";
     Author := "AgentUI Team";
     Version := "1.0.0";
     colors :=
       {| Primary := CharmPink; Secondary := CharmPurple;
          Background := Color "#1a1a2e"; Surface := Color "#252538";
          Overlay := Color "#2f2f45";
          Text := Color "#FAFAFA"; TextMuted := Color "#a9b1d6";
          TextDim := Color "#565f89";
          Success := Color "#04B575"; Warning := Color "#ffb86c";
          Error := Color "#ff6b6b"; Info := Color "#7dcfff";
          Accent1 := CharmPink; Accent2 := CharmPurple; Accent3 := CharmTeal |};
     styles := zeroStyles |}.

Definition CharmLight0 : ThemeT :=
  {| ID := "charm-light";
     Name := "Charm Light";
     Description := "The signature Charm aesthetic - light mode";
     Author := "AgentUI Team";
     Version := "1.0.0";
     colors :=
       {| Primary := Color "#7D56F4"; Secondary := Color "#d946ef";
          Background := Color "#faf4ed"; Surface := Color "#f2e9e1";
          Overlay := Color "#e8ddd5";
          Text := Color "#1a1a2e"; TextMuted := Color "#6e6a86";
          TextDim := Color "#9893a5";
          Success := Color "#059669"; Warning := Color "#d97706";
          Error := Color "#dc2626"; Info := Color "#0284c7";
          Accent1 := Color "#d946ef"; Accent2 := Color "#7D56F4";
          Accent3 := Color "#059669" |};
     styles := zeroStyles |}.

Definition CharmAuto0 : ThemeT :=
  {| ID := "charm-auto";
     Name := "Charm Auto";
     Description := "Automatically adapts to terminal light/dark mode";
     Author := "AgentUI Team";
     Version := "1.0.0";
     colors :=
       {| Primary := AdaptiveColor "#7D56F4" "212";
          Secondary := AdaptiveColor "#d946ef" "#7D56F4";
          Background := AdaptiveColor "#faf4ed" "#1a1a2e";
          Surface := AdaptiveColor "#f2e9e1" "#252538";
          Overlay := AdaptiveColor "#e8ddd5" "#2f2f45";
          Text := AdaptiveColor "#1a1a2e" "#FAFAFA";
          TextMuted := AdaptiveColor "#6e6a86" "#a9b1d6";
          TextDim := AdaptiveColor "#9893a5" "#565f89";
          Success := AdaptiveColor "#059669" "#04B575";
          Warning := AdaptiveColor "#d97706" "#ffb86c";
          Error := AdaptiveColor "#dc2626" "#ff6b6b";
          Info := AdaptiveColor "#0284c7" "#7dcfff";
          Accent1 := AdaptiveColor "#d946ef" "212";
          Accent2 := AdaptiveColor "#7D56F4" "#7D56F4";
          Accent3 := AdaptiveColor "#059669" "35" |};
     styles := zeroStyles |}.

(** The package variables after [init] has built their styles. *)
Definition CharmDark : ThemeT := withStyles CharmDark0 (BuildStyles (colors CharmDark0)).
Definition CharmLight : ThemeT := withStyles CharmLight0 (BuildStyles (colors CharmLight0)).
Definition CharmAuto : ThemeT := withStyles CharmAuto0 (BuildStyles (colors CharmAuto0)).

(** The package state before any [init] has run: [Current] is the zero
    theme and [Available] the empty map made at its declaration. *)
Definition globals0 : Globals := {| Current := zeroTheme; Available := ∅ |}.

(** [init]: builds the styles, registers the three themes, sets the
    default. *)
Definition init (g : Globals) : Globals :=
  let g := Register CharmDark g in
  let g := Register CharmLight g in
  let g := Register CharmAuto g in
  {| Current := CharmDark; Available := Available g |}.

(** *** loader.go *)

(** [ColorsJSON] and [ThemeJSON]: the theme as it stands in a file. *)
Record ColorsJSON := mkColorsJSON {
  jPrimary : string; jSecondary : string; jBackground : string;
  jSurface : string; jOverlay : string;
  jText : string; jTextMuted : string; jTextDim : string;
  jSuccess : string; jWarning : string; jError : string; jInfo : string;
  jAccent1 : string; jAccent2 : string; jAccent3 : string
}.

Record ThemeJSON := mkThemeJSON {
  jID : string;
  jName : string;
  jDescription : string;
  jAuthor : string;
  jVersion : string;
  jColors : ColorsJSON
}.

(** Go error values: an error of an external package, or one built by
    [fmt.Errorf], with the wrapped cause when the format has [%w]. *)
Inductive error :=
| ExternalError (msg : string)
| Errorf (msg : string)
| ErrorfW (msg : string) (cause : error).

Fixpoint errorString (e : error) : string :=
  match e with
  | ExternalError m => m
  | Errorf m => m
  | ErrorfW m c => m ++ errorString c
  end.

(** The result of a call returning [(T, error)]. *)
Inductive result (A : Type) :=
| Ok (a : A)
| Err (e : error).

Arguments Ok {A} a.
Arguments Err {A} e.

(** [parseColor]: a color string to a simple color. *)
Definition parseColor (s : string) : TerminalColor :=
  if decide (s = "") then Color "" else Color s.

(** [colorToString]: the string of a simple color; empty for nil and for
    every other color type. *)
Definition colorToString (c : TerminalColor) : string :=
  match c with
  | NilColor => ""
  | Color s => s
  | _ => ""
  end.

(** [ThemeJSON.ToTheme] *)
Definition ToTheme (tj : ThemeJSON) : result ThemeT :=
  let cs :=
    {| Primary := parseColor (jPrimary (jColors tj));
       Secondary := parseColor (jSecondary (jColors tj));
       Background := parseColor (jBackground (jColors tj));
       Surface := parseColor (jSurface (jColors tj));
       Overlay := parseColor (jOverlay (jColors tj));
       Text := parseColor (jText (jColors tj));
       TextMuted := parseColor (jTextMuted (jColors tj));
       TextDim := parseColor (jTextDim (jColors tj));
       Success := parseColor (jSuccess (jColors tj));
       Warning := parseColor (jWarning (jColors tj));
       Error := parseColor (jError (jColors tj));
       Info := parseColor (jInfo (jColors tj));
       Accent1 := parseColor (jAccent1 (jColors tj));
       Accent2 := parseColor (jAccent2 (jColors tj));
       Accent3 := parseColor (jAccent3 (jColors tj)) |} in
  Ok {| ID := jID tj; Name := jName tj; Description := jDescription tj;
        Author := jAuthor tj; Version := jVersion tj;
        colors := cs; styles := BuildStyles cs |}.

(** The [ThemeJSON] value [ExportThemeToJSON] hands to the marshaller. *)
Definition exportJSON (t : ThemeT) : ThemeJSON :=
  {| jID := ID t; jName := Name t; jDescription := Description t;
     jAuthor := Author t; jVersion := Version t;
     jColors :=
       {| jPrimary := colorToString (Primary (colors t));
          jSecondary := colorToString (Secondary (colors t));
          jBackground := colorToString (Background (colors t));
          jSurface := colorToString (Surface (colors t));
          jOverlay := colorToString (Overlay (colors t));
          jText := colorToString (Text (colors t));
          jTextMuted := colorToString (TextMuted (colors t));
          jTextDim := colorToString (TextDim (colors t));
          jSuccess := colorToString (Success (colors t));
          jWarning := colorToString (Warning (colors t));
          jError := colorToString (Error (colors t));
          jInfo := colorToString (Info (colors t));
          jAccent1 := colorToString (Accent1 (colors t));
          jAccent2 := colorToString (Accent2 (colors t));
          jAccent3 := colorToString (Accent3 (colors t)) |} |}.

(** The operating system as the loader sees it: the environment and the
    files by path.  A path holds a regular file with its bytes or a
    directory. *)
Inductive FsNode :=
| FsFile (data : string)
| FsDir.

Record OS := mkOS {
  environ : gmap string string;
  files : gmap string FsNode
}.

(** [os.Getenv]: the value, empty when the variable is not set. *)
Definition Getenv (os : OS) (key : string) : string :=
  default "" (environ os !! key).

(** [os.Stat], as far as the loader uses it: whether the call succeeds. *)
Definition Stat_ok (os : OS) (path : string) : bool :=
  bool_decide (is_Some (files os !! path)).

(** [os.ReadFile] *)
Definition ReadFile (os : OS) (path : string) : result string :=
  match files os !! path with
  | Some (FsFile data) => Ok data
  | Some FsDir => Err (ExternalError ("read " ++ path ++ ": is a directory"))
  | None => Err (ExternalError ("open " ++ path ++ ": no such file or directory"))
  end.

Section Loader.

(** [encoding/json] is an external dependency: marshalling and
    unmarshalling of a [ThemeJSON] are taken as given. *)
Variable json_MarshalIndent : ThemeJSON -> result string.
Variable json_Unmarshal : string -> result ThemeJSON.

(** [LoadThemeFromJSON] *)
Definition LoadThemeFromJSON (data : string) : result ThemeT :=
  match json_Unmarshal data with
  | Err err => Err (ErrorfW "failed to parse theme JSON: " err)
  | Ok tj => ToTheme tj
  end.

(** [LoadThemeFromFile] *)
Definition LoadThemeFromFile (os : OS) (path : string) : result ThemeT :=
  match ReadFile os path with
  | Err err => Err (ErrorfW "failed to read theme file: " err)
  | Ok data => LoadThemeFromJSON data
  end.

(** [LoadThemeFromEnv]: the theme named by [AGENTUI_THEME], a registered
    ID or a file path.  Returns the new package state and the error
    ([None] for nil). *)
Definition LoadThemeFromEnv (os : OS) (g : Globals) : Globals * option error :=
  let themePath := Getenv os "AGENTUI_THEME" in
  if decide (themePath = "") then (g, None)
  else if decide (is_Some (Available g !! themePath)) then
    (fst (SetTheme themePath g), None)
  else if Stat_ok os themePath then
    match LoadThemeFromFile os themePath with
    | Err err =>
        (g, Some (ErrorfW ("failed to load theme from " ++ themePath ++ ": ") err))
    | Ok theme =>
        let g := Register theme g in
        (fst (SetTheme (ID theme) g), None)
    end
  else (g, Some (Errorf ("unknown theme: " ++ themePath))).

(** [ExportThemeToJSON] *)
Definition ExportThemeToJSON (t : ThemeT) : result string :=
  json_MarshalIndent (exportJSON t).

End Loader.

Arguments LoadThemeFromJSON json_Unmarshal data : assert.
Arguments LoadThemeFromFile json_Unmarshal os path : assert.
Arguments LoadThemeFromEnv json_Unmarshal os g : assert.
Arguments ExportThemeToJSON json_MarshalIndent t : assert.

(** [strings.HasSuffix] *)
Definition HasSuffix (s suffix : string) : bool :=
  (String.length suffix <=? String.length s)%nat
  && String.eqb (substring (String.length s - String.length suffix)
                   (String.length suffix) s) suffix.

(** [os.DirEntry], as far as the loader reads it. *)
Record DirEntry := mkDirEntry {
  entryName : string;
  entryIsDir : bool
}.

Section DirectoryLoader.

Variable json_Unmarshal : string -> result ThemeJSON.

(** [os.ReadDir] and [filepath.Join] are taken as given. *)
Variable os_ReadDir : OS -> string -> result (list DirEntry).
Variable filepath_Join : string -> string -> string.

(** The body of the loop of [LoadThemesFromDirectory]: the package
    state, [count] and [errors] after one entry. *)
Definition loadEntry (os : OS) (dir : string)
    (st : Globals * (Z * list error)) (entry : DirEntry)
  : Globals * (Z * list error) :=
  let '(g, (count, errors)) := st in
  if entryIsDir entry then st
  else
    let name := entryName entry in
    if negb (HasSuffix name ".json") then st
    else
      let path := filepath_Join dir name in
      match LoadThemeFromFile json_Unmarshal os path with
      | Err err =>
          (g, (count,
               (errors ++ [ErrorfW ("failed to load " ++ name ++ ": ")%string err])%list))
      | Ok theme => (Register theme g, (count + 1, errors))
      end.

(** [LoadThemesFromDirectory]: loads all JSON themes of a directory;
    returns the new package state, the number of themes loaded and the
    errors met. *)
Definition LoadThemesFromDirectory (os : OS) (g : Globals) (dir : string)
  : Globals * (Z * list error) :=
  match os_ReadDir os dir with
  | Err err => (g, (0, [ErrorfW "failed to read themes directory: " err]))
  | Ok entries => fold_left (loadEntry os dir) entries (g, (0, []))
  end.

End DirectoryLoader.

Arguments loadEntry json_Unmarshal filepath_Join os dir st entry : assert.
Arguments LoadThemesFromDirectory json_Unmarshal os_ReadDir filepath_Join os g dir
  : assert.

(** The directory entries the loader tries to load. *)
Definition candidate (entry : DirEntry) : bool :=
  negb (entryIsDir entry) && HasSuffix (entryName entry) ".json".

(** *** A JSON implementation to run the loader on

    Marshalling writes the fields in declaration order, two-space indented,
    and leaves out an empty [description], [author] or [version]
    ([omitempty]).  Unmarshalling reads an object: a missing or null field
    keeps its zero value, an unknown field is ignored, the last of several
    equal keys counts, and a field of the wrong type is an error.  Both
    coerce the strings to UTF-8, as [encoding/json] does.

    It stands in for [encoding/json] on the texts the marshaller writes.
    On other texts it differs: a key must match a field name exactly,
    where the library also accepts another case; a number must be an
    integer; and there is one error text for every text that does not
    parse.  The text it writes can differ from the library's in how a
    character is escaped (the library writes U+FFFD, [<], [>] and [&] as
    [\u] escapes), not in the value read back. *)

Import Json.

Definition colorsToJson (c : ColorsJSON) : json :=
  JObj [("primary", JStr (jPrimary c)); ("secondary", JStr (jSecondary c));
        ("background", JStr (jBackground c)); ("surface", JStr (jSurface c));
        ("overlay", JStr (jOverlay c)); ("text", JStr (jText c));
        ("textMuted", JStr (jTextMuted c)); ("textDim", JStr (jTextDim c));
        ("success", JStr (jSuccess c)); ("warning", JStr (jWarning c));
        ("error", JStr (jError c)); ("info", JStr (jInfo c));
        ("accent1", JStr (jAccent1 c)); ("accent2", JStr (jAccent2 c));
        ("accent3", JStr (jAccent3 c))].

Definition omitempty (key value : string) : list (string * json) :=
  if decide (value = "") then [] else [(key, JStr value)].

Definition themeToJson (tj : ThemeJSON) : json :=
  JObj ([("id", JStr (jID tj)); ("name", JStr (jName tj))]
        ++ omitempty "description" (jDescription tj)
        ++ omitempty "author" (jAuthor tj)
        ++ omitempty "version" (jVersion tj)
        ++ [("colors", colorsToJson (jColors tj))])%list.

(** The value of the last member named [key]. *)
Fixpoint member (key : string) (m : list (string * json)) : option json :=
  match m with
  | [] => None
  | (k, v) :: m' =>
      match member key m' with
      | Some w => Some w
      | None => if decide (k = key) then Some v else None
      end
  end.

Definition typeError (field : string) : error :=
  ExternalError ("json: cannot unmarshal into Go struct field " ++ field
                 ++ " of type string").

Definition stringField (key : string) (m : list (string * json)) : result string :=
  match member key m with
  | None | Some JNull => Ok ""
  | Some (JStr s) => Ok s
  | Some _ => Err (typeError key)
  end.

(** A small error monad for the field-by-field decoding. *)
Definition bind {A B : Type} (r : result A) (k : A -> result B) : result B :=
  match r with
  | Ok a => k a
  | Err e => Err e
  end.

Notation "x <- r ;; k" := (bind r (fun x => k))
  (at level 100, r at next level, right associativity).

Definition colorsOfJson (m : list (string * json)) : result ColorsJSON :=
  c1 <- stringField "primary" m ;; c2 <- stringField "secondary" m ;;
  c3 <- stringField "background" m ;; c4 <- stringField "surface" m ;;
  c5 <- stringField "overlay" m ;; c6 <- stringField "text" m ;;
  c7 <- stringField "textMuted" m ;; c8 <- stringField "textDim" m ;;
  c9 <- stringField "success" m ;; c10 <- stringField "warning" m ;;
  c11 <- stringField "error" m ;; c12 <- stringField "info" m ;;
  c13 <- stringField "accent1" m ;; c14 <- stringField "accent2" m ;;
  c15 <- stringField "accent3" m ;;
  Ok (mkColorsJSON c1 c2 c3 c4 c5 c6 c7 c8 c9 c10 c11 c12 c13 c14 c15).

Definition zeroColorsJSON : ColorsJSON :=
  mkColorsJSON "" "" "" "" "" "" "" "" "" "" "" "" "" "" "".

Definition themeOfJson (v : json) : result ThemeJSON :=
  match v with
  | JObj m =>
      i <- stringField "id" m ;; n <- stringField "name" m ;;
      d <- stringField "description" m ;; a <- stringField "author" m ;;
      ver <- stringField "version" m ;;
      cs <- match member "colors" m with
            | None | Some JNull => Ok zeroColorsJSON
            | Some (JObj cm) => colorsOfJson cm
            | Some _ => Err (typeError "colors")
            end ;;
      Ok (mkThemeJSON i n d a ver cs)
  | JNull => Ok (mkThemeJSON "" "" "" "" "" zeroColorsJSON)
  | _ => Err (typeError "ThemeJSON")
  end.

(** [encoding/json] coerces every string it writes or reads to valid
    UTF-8, a byte that starts no well-formed encoding becoming U+FFFD;
    this is the coercion on the strings of a record. *)
Definition coerceColorsJSON (c : ColorsJSON) : ColorsJSON :=
  {| jPrimary := toValidUTF8 (jPrimary c);
     jSecondary := toValidUTF8 (jSecondary c);
     jBackground := toValidUTF8 (jBackground c);
     jSurface := toValidUTF8 (jSurface c);
     jOverlay := toValidUTF8 (jOverlay c);
     jText := toValidUTF8 (jText c);
     jTextMuted := toValidUTF8 (jTextMuted c);
     jTextDim := toValidUTF8 (jTextDim c);
     jSuccess := toValidUTF8 (jSuccess c);
     jWarning := toValidUTF8 (jWarning c);
     jError := toValidUTF8 (jError c);
     jInfo := toValidUTF8 (jInfo c);
     jAccent1 := toValidUTF8 (jAccent1 c);
     jAccent2 := toValidUTF8 (jAccent2 c);
     jAccent3 := toValidUTF8 (jAccent3 c) |}.

Definition coerceThemeJSON (tj : ThemeJSON) : ThemeJSON :=
  {| jID := toValidUTF8 (jID tj);
     jName := toValidUTF8 (jName tj);
     jDescription := toValidUTF8 (jDescription tj);
     jAuthor := toValidUTF8 (jAuthor tj);
     jVersion := toValidUTF8 (jVersion tj);
     jColors := coerceColorsJSON (jColors tj) |}.

(** Whether every string of a record is valid UTF-8. *)
Definition utf8_ColorsJSON (c : ColorsJSON) : bool :=
  validUTF8 (jPrimary c) && validUTF8 (jSecondary c)
  && validUTF8 (jBackground c) && validUTF8 (jSurface c)
  && validUTF8 (jOverlay c) && validUTF8 (jText c)
  && validUTF8 (jTextMuted c) && validUTF8 (jTextDim c)
  && validUTF8 (jSuccess c) && validUTF8 (jWarning c)
  && validUTF8 (jError c) && validUTF8 (jInfo c)
  && validUTF8 (jAccent1 c) && validUTF8 (jAccent2 c)
  && validUTF8 (jAccent3 c).

Definition utf8_ThemeJSON (tj : ThemeJSON) : bool :=
  validUTF8 (jID tj) && validUTF8 (jName tj) && validUTF8 (jDescription tj)
  && validUTF8 (jAuthor tj) && validUTF8 (jVersion tj)
  && utf8_ColorsJSON (jColors tj).

(** What the loader relies on in [encoding/json], for a [ThemeJSON]:
    marshalling succeeds, and unmarshalling what was marshalled into a
    zero record returns the record marshalled, its strings coerced to
    UTF-8. *)
Definition json_roundtrips (json_MarshalIndent : ThemeJSON -> result string)
    (json_Unmarshal : string -> result ThemeJSON) : Prop :=
  forall tj, exists data,
    json_MarshalIndent tj = Ok data
    /\ json_Unmarshal data = Ok (coerceThemeJSON tj).

Definition refMarshalIndent (tj : ThemeJSON) : result string :=
  Ok (print_indent 0 (themeToJson (coerceThemeJSON tj))).

Definition refUnmarshal (data : string) : result ThemeJSON :=
  match parse data with
  | Some v =>
      match themeOfJson v with
      | Ok tj => Ok (coerceThemeJSON tj)
      | Err e => Err e
      end
  | None => Err (ExternalError "invalid character looking for beginning of value")
  end.

(** Sample inputs: a community theme as it stands in a file, and three
    systems that select it, a directory, and nothing that exists. *)
Definition cyberpunk : ThemeJSON :=
  {| jID := "cyberpunk"; jName := "Cyberpunk"; jDescription := "Neon night city vibes";
     jAuthor := "Community"; jVersion := "";
     jColors := mkColorsJSON "#00ffff" "#ff00ff" "#0a0a12" "#1a1a2e" "" "#ffffff"
                  "#8b8ba7" "" "#00ff9f" "#ffff00" "#ff0055" "#00ffff"
                  "#ff00ff" "#00ffff" "#ffff00" |}.

Definition cyberpunk_text : string := print_indent 0 (themeToJson cyberpunk).

Definition sample_files : gmap string FsNode :=
  {[ "themes" := FsDir;
     "themes/cyberpunk.json" := FsFile cyberpunk_text;
     "themes/broken.json" := FsFile "{ not json" ]}.

Definition os_with (value : option string) : OS :=
  {| environ := match value with
                | Some v => {[ "AGENTUI_THEME" := v ]}
                | None => ∅
                end;
     files := sample_files |}.

(** A directory listing and a path join to run the directory loader on:
    the entries directly below [dir] among the files of the system,
    sorted by name, and the join of a clean directory path with a
    name. *)
Definition refJoin (dir name : string) : string := dir ++ "/" ++ name.

Fixpoint stripPrefix (prefix s : string) : option string :=
  match prefix, s with
  | EmptyString, _ => Some s
  | String a prefix', String b s' =>
      if Ascii.eqb a b then stripPrefix prefix' s' else None
  | String _ _, EmptyString => None
  end.

Fixpoint hasSlash (s : string) : bool :=
  match s with
  | EmptyString => false
  | String c s' => Ascii.eqb c "/" || hasSlash s'
  end.

Fixpoint insertEntry (e : DirEntry) (l : list DirEntry) : list DirEntry :=
  match l with
  | [] => [e]
  | e' :: l' =>
      if String.leb (entryName e) (entryName e') then e :: l
      else e' :: insertEntry e l'
  end.

Definition entryOf (dir : string) (item : string * FsNode) : list DirEntry :=
  match stripPrefix (dir ++ "/") (fst item) with
  | Some name =>
      if hasSlash name || String.eqb name "" then []
      else [{| entryName := name;
               entryIsDir := match snd item with FsDir => true | _ => false end |}]
  | None => []
  end.

Definition refReadDir (os : OS) (dir : string) : result (list DirEntry) :=
  match files os !! dir with
  | Some FsDir =>
      Ok (foldr insertEntry []
            (concat (map (entryOf dir) (map_to_list (files os)))))
  | Some (FsFile _) =>
      Err (ExternalError ("readdirent " ++ dir ++ ": not a directory"))
  | None =>
      Err (ExternalError ("open " ++ dir ++ ": no such file or directory"))
  end.

(** Whether every color of a palette is a simple [Color]. *)
Definition is_simple (c : TerminalColor) : bool :=
  match c with Color _ => true | _ => false end.

Definition all_simple (c : Colors) : bool :=
  is_simple (Primary c) && is_simple (Secondary c) && is_simple (Background c)
  && is_simple (Surface c) && is_simple (Overlay c) && is_simple (Text c)
  && is_simple (TextMuted c) && is_simple (TextDim c) && is_simple (Success c)
  && is_simple (Warning c) && is_simple (Error c) && is_simple (Info c)
  && is_simple (Accent1 c) && is_simple (Accent2 c) && is_simple (Accent3 c).

(** The round trip as a statement about one theme: export and load
    succeed and give back the metadata and the colors. *)
Definition roundtrip_as_stated (json_MarshalIndent : ThemeJSON -> result string)
    (json_Unmarshal : string -> result ThemeJSON) (t : ThemeT) : Prop :=
  all_simple (colors t) = true ->
  exists data t',
    ExportThemeToJSON json_MarshalIndent t = Ok data
    /\ LoadThemeFromJSON json_Unmarshal data = Ok t'
    /\ ID t' = ID t /\ Name t' = Name t /\ Description t' = Description t
    /\ Author t' = Author t /\ Version t' = Version t
    /\ colors t' = colors t.

(** A theme with simple colors whose ID ends in the byte 233, an [e]
    with acute accent in Latin-1 and no valid UTF-8. *)
Definition latin1_theme : ThemeT :=
  {| ID := "caf" ++ String "233" ""; Name := Name CharmDark;
     Description := Description CharmDark; Author := Author CharmDark;
     Version := Version CharmDark; colors := colors CharmDark;
     styles := styles CharmDark |}.

(** The environment selection as a four-way rule, with "otherwise" read
    as: neither unset, nor a registered ID, nor a file that loads. *)
Definition theme_file (json_Unmarshal : string -> result ThemeJSON)
    (os : OS) (p : string) (t : ThemeT) : Prop :=
  exists data, files os !! p = Some (FsFile data)
               /\ LoadThemeFromJSON json_Unmarshal data = Ok t.

Definition four_way_selection (json_Unmarshal : string -> result ThemeJSON)
    (os : OS) (g : Globals) : Prop :=
  let p := Getenv os "AGENTUI_THEME" in
  let r := LoadThemeFromEnv json_Unmarshal os g in
  (p = "" -> r = (g, None))
  /\ (forall t, p <> "" -> Available g !! p = Some t ->
        Current (fst r) = t /\ snd r = None)
  /\ (forall t, p <> "" -> Available g !! p = None ->
        theme_file json_Unmarshal os p t ->
        Current (fst r) = t /\ Available (fst r) !! ID t = Some t /\ snd r = None)
  /\ (p <> "" -> Available g !! p = None ->
        (forall t, ~ theme_file json_Unmarshal os p t) ->
        snd r = Some (Errorf ("unknown theme: " ++ p))).

(* --------------------------------------------------------------------- *)
(** *** Properties of the registry and of the loader                       *)
(* --------------------------------------------------------------------- *)

Lemma parseColor_simple (s : string) : parseColor s = Color s.
Proof. unfold parseColor. case_decide; congruence. Qed.

Lemma parse_colorToString (c : TerminalColor) :
  is_simple c = true -> parseColor (colorToString c) = c.
Proof. destruct c; try discriminate. intros _. apply parseColor_simple. Qed.

(** C9: [SetTheme] on a registered name makes that theme current and
    returns [true], leaving the registry as it was; on a name that is not
    registered it returns [false] and leaves the whole package state
    unchanged. *)
Theorem SetTheme_atomic (name : string) (g : Globals) :
  (forall t, Available g !! name = Some t ->
     SetTheme name g = ({| Current := t; Available := Available g |}, true))
  /\ (Available g !! name = None -> SetTheme name g = (g, false)).
Proof. unfold SetTheme. split; [intros t -> | intros ->]; reflexivity. Qed.

Lemma SetTheme_atomic_witness :
  SetTheme "charm-light" (init globals0) =
    ({| Current := CharmLight; Available := Available (init globals0) |}, true)
  /\ SetTheme "solarized" (init globals0) = (init globals0, false).
Proof.
  split.
  - apply (proj1 (SetTheme_atomic "charm-light" (init globals0))).
    vm_compute. reflexivity.
  - apply (proj2 (SetTheme_atomic "solarized" (init globals0))).
    vm_compute. reflexivity.
Defined.

(** The JSON implementation returns on unmarshalling what it
    marshalled. *)
Lemma themeOfJson_themeToJson (tj : ThemeJSON) :
  themeOfJson (themeToJson tj) = Ok tj.
Proof.
  destruct tj as [i n d a v [c1 c2 c3 c4 c5 c6 c7 c8 c9 c10 c11 c12 c13 c14 c15]].
  unfold themeToJson, omitempty. cbn [jID jName jDescription jAuthor jVersion jColors].
  destruct (decide (d = "")) as [-> |]; destruct (decide (a = "")) as [-> |];
    destruct (decide (v = "")) as [-> |]; reflexivity.
Qed.

Lemma coerceThemeJSON_idem (tj : ThemeJSON) :
  coerceThemeJSON (coerceThemeJSON tj) = coerceThemeJSON tj.
Proof.
  unfold coerceThemeJSON, coerceColorsJSON. cbn.
  now rewrite !toValidUTF8_idem.
Qed.

Lemma coerceThemeJSON_valid (tj : ThemeJSON) :
  utf8_ThemeJSON tj = true -> coerceThemeJSON tj = tj.
Proof.
  destruct tj as [i n d a v [c1 c2 c3 c4 c5 c6 c7 c8 c9 c10 c11 c12 c13 c14 c15]].
  unfold utf8_ThemeJSON, utf8_ColorsJSON, coerceThemeJSON, coerceColorsJSON. cbn.
  intros Hv. apply andb_prop in Hv as [Hv Hc].
  repeat (apply andb_prop in Hv as [Hv ?]).
  repeat (apply andb_prop in Hc as [Hc ?]).
  rewrite !toValidUTF8_valid by assumption. reflexivity.
Qed.

Lemma refUnmarshal_print (tj : ThemeJSON) :
  refUnmarshal (print_indent 0 (themeToJson tj)) = Ok (coerceThemeJSON tj).
Proof.
  unfold refUnmarshal. now rewrite parse_print_indent, themeOfJson_themeToJson.
Qed.

(** The JSON implementation of this file has the round-trip law. *)
Lemma ref_json_roundtrips : json_roundtrips refMarshalIndent refUnmarshal.
Proof.
  intros tj. eexists. split; [reflexivity|].
  now rewrite refUnmarshal_print, coerceThemeJSON_idem.
Qed.

Section LoaderFacts.

Variable json_MarshalIndent : ThemeJSON -> result string.
Variable json_Unmarshal : string -> result ThemeJSON.

Lemma ToTheme_exportJSON (t : ThemeT) :
  all_simple (colors t) = true ->
  ToTheme (exportJSON t) =
    Ok {| ID := ID t; Name := Name t; Description := Description t;
          Author := Author t; Version := Version t; colors := colors t;
          styles := BuildStyles (colors t) |}.
Proof.
  intros Hs. unfold all_simple in Hs.
  repeat (apply andb_prop in Hs as [Hs ?]).
  destruct t as [i n d a v c s]. destruct c. cbn in *.
  unfold ToTheme. cbn.
  rewrite !parse_colorToString by assumption. reflexivity.
Qed.

(** C8, as the code has it: [LoadThemeFromEnv] reads [AGENTUI_THEME]; an
    unset (or empty) variable changes nothing and returns no error, so the
    default set by [init], [CharmDark], stays current; a registered ID
    becomes current; otherwise a path that exists is loaded as a theme
    file, and the loaded theme is registered under its ID and becomes
    current, or, when reading or parsing it fails, a "failed to load theme
    from" error wrapping the cause is returned and nothing changes; a value
    that is neither is an "unknown theme" error, and nothing changes. *)
Theorem LoadThemeFromEnv_cases (os : OS) (g : Globals) :
  let p := Getenv os "AGENTUI_THEME" in
  let r := LoadThemeFromEnv json_Unmarshal os g in
  (p = "" -> r = (g, None))
  /\ (forall g0, Current (init g0) = CharmDark)
  /\ (forall t, p <> "" -> Available g !! p = Some t ->
        r = ({| Current := t; Available := Available g |}, None))
  /\ (forall t, p <> "" -> Available g !! p = None -> is_Some (files os !! p) ->
        LoadThemeFromFile json_Unmarshal os p = Ok t ->
        r = ({| Current := t; Available := <[ID t := t]> (Available g) |}, None))
  /\ (forall err, p <> "" -> Available g !! p = None -> is_Some (files os !! p) ->
        LoadThemeFromFile json_Unmarshal os p = Err err ->
        r = (g, Some (ErrorfW ("failed to load theme from " ++ p ++ ": ") err)))
  /\ (p <> "" -> Available g !! p = None -> files os !! p = None ->
        r = (g, Some (Errorf ("unknown theme: " ++ p)))).
Proof.
  cbv zeta. unfold LoadThemeFromEnv.
  set (p := Getenv os "AGENTUI_THEME").
  repeat split.
  - intros ->. now rewrite decide_True.
  - intros t Hp Ht. rewrite decide_False, decide_True by (rewrite ?Ht; eauto).
    unfold SetTheme. now rewrite Ht.
  - intros t Hp Hn Hf Hl.
    rewrite decide_False, decide_False by (rewrite ?Hn; auto using is_Some_None).
    unfold Stat_ok. rewrite bool_decide_eq_true_2 by exact Hf. rewrite Hl.
    unfold SetTheme, Register. cbn [Available Current fst].
    now rewrite lookup_insert_eq.
  - intros err Hp Hn Hf Hl.
    rewrite decide_False, decide_False by (rewrite ?Hn; auto using is_Some_None).
    unfold Stat_ok. rewrite bool_decide_eq_true_2 by exact Hf. now rewrite Hl.
  - intros Hp Hn Hf.
    rewrite decide_False, decide_False by (rewrite ?Hn; auto using is_Some_None).
    unfold Stat_ok. rewrite bool_decide_eq_false_2; [reflexivity|].
    rewrite Hf. apply is_Some_None.
Qed.

(** Whatever is loaded has simple colors only. *)
Lemma loaded_colors_simple (data : string) (t' : ThemeT) :
  LoadThemeFromJSON json_Unmarshal data = Ok t' -> all_simple (colors t') = true.
Proof.
  unfold LoadThemeFromJSON. destruct (json_Unmarshal data) as [tj | e]; [|discriminate].
  unfold ToTheme. intros [= <-]. cbn. now rewrite !parseColor_simple.
Qed.

Lemma exportJSON_ToTheme (tj : ThemeJSON) (t : ThemeT) :
  ToTheme tj = Ok t -> exportJSON t = tj.
Proof.
  unfold ToTheme. intros Ht.
  assert (t = _) as -> by (symmetry; injection Ht as Ht; exact Ht).
  destruct tj as [i n d a v [c1 c2 c3 c4 c5 c6 c7 c8 c9 c10 c11 c12 c13 c14 c15]].
  unfold exportJSON. cbn. now rewrite !parseColor_simple.
Qed.

(** C10, as the code has it: provided the JSON library marshals every
    record and returns on unmarshalling the record it marshalled, its
    strings coerced to UTF-8, loading what [ExportThemeToJSON] wrote
    succeeds for every theme, and the theme loaded exports as the
    original does, up to that coercion.  So for a theme whose fifteen
    colors are all simple and whose ID, name, description, author,
    version and color strings are valid UTF-8 it gives back the ID, name,
    description, author, version and all fifteen colors; a color of any
    other type is exported as the empty string, so a theme that has one
    does not get its colors back. *)
Theorem export_load_roundtrip (t : ThemeT) :
  json_roundtrips json_MarshalIndent json_Unmarshal ->
  exists data t',
    ExportThemeToJSON json_MarshalIndent t = Ok data
    /\ LoadThemeFromJSON json_Unmarshal data = Ok t'
    /\ exportJSON t' = coerceThemeJSON (exportJSON t)
    /\ (all_simple (colors t) = true -> utf8_ThemeJSON (exportJSON t) = true ->
          ID t' = ID t /\ Name t' = Name t /\ Description t' = Description t
          /\ Author t' = Author t /\ Version t' = Version t
          /\ colors t' = colors t)
    /\ (forall c, is_simple c = false -> colorToString c = "")
    /\ (all_simple (colors t) = false -> colors t' <> colors t).
Proof.
  intros Hjson. destruct (Hjson (exportJSON t)) as (data & Hm & Hu).
  destruct (ToTheme (coerceThemeJSON (exportJSON t))) as [t'|e] eqn:Ht;
    [|discriminate Ht].
  assert (Hl : LoadThemeFromJSON json_Unmarshal data = Ok t').
  { unfold LoadThemeFromJSON. now rewrite Hu. }
  exists data, t'. split; [exact Hm|]. split; [exact Hl|].
  split; [exact (exportJSON_ToTheme _ _ Ht)|]. split; [|split].
  - intros Hs Hv. rewrite (coerceThemeJSON_valid _ Hv) in Ht.
    rewrite (ToTheme_exportJSON t Hs) in Ht. injection Ht as <-. cbn. auto 10.
  - now destruct c.
  - intros Hs E. apply loaded_colors_simple in Hl. congruence.
Qed.

(** X7: [LoadThemeFromEnv] changes nothing when it returns an error. *)
Theorem LoadThemeFromEnv_error_unchanged (os : OS) (g : Globals) (e : error) :
  snd (LoadThemeFromEnv json_Unmarshal os g) = Some e ->
  fst (LoadThemeFromEnv json_Unmarshal os g) = g.
Proof.
  unfold LoadThemeFromEnv.
  repeat (case_decide; [cbn; congruence|]).
  destruct (Stat_ok os _); [|reflexivity].
  destruct (LoadThemeFromFile _ _ _); [cbn; congruence | reflexivity].
Qed.

(** X8: a theme loaded from JSON has simple colors only, and its styles
    are the ones [BuildStyles] makes of them. *)
Theorem loaded_theme_shape (data : string) (t' : ThemeT) :
  LoadThemeFromJSON json_Unmarshal data = Ok t' ->
  all_simple (colors t') = true /\ styles t' = BuildStyles (colors t').
Proof.
  intros Hl. split; [now apply (loaded_colors_simple data)|].
  unfold LoadThemeFromJSON in Hl. destruct (json_Unmarshal data); [|discriminate].
  unfold ToTheme in Hl. now injection Hl as <-.
Qed.

End LoaderFacts.

Lemma LoadThemeFromEnv_cases_witness :
  LoadThemeFromEnv refUnmarshal (os_with None) (init globals0)
    = (init globals0, None)
  /\ Current (init globals0) = CharmDark
  /\ LoadThemeFromEnv refUnmarshal (os_with (Some "charm-light")) (init globals0)
    = ({| Current := CharmLight; Available := Available (init globals0) |}, None)
  /\ (exists t,
       ToTheme cyberpunk = Ok t
       /\ LoadThemeFromEnv refUnmarshal (os_with (Some "themes/cyberpunk.json"))
            (init globals0)
          = ({| Current := t;
                Available := <["cyberpunk" := t]> (Available (init globals0)) |},
             None))
  /\ snd (LoadThemeFromEnv refUnmarshal (os_with (Some "themes/broken.json"))
            (init globals0))
     = Some (ErrorfW "failed to load theme from themes/broken.json: "
               (ErrorfW "failed to parse theme JSON: "
                  (ExternalError "invalid character looking for beginning of value")))
  /\ LoadThemeFromEnv refUnmarshal (os_with (Some "nope")) (init globals0)
     = (init globals0, Some (Errorf "unknown theme: nope")).
Proof.
  split; [|split; [|split; [|split; [|split]]]].
  - apply (proj1 (LoadThemeFromEnv_cases refUnmarshal (os_with None) (init globals0))).
    reflexivity.
  - apply (proj1 (proj2 (LoadThemeFromEnv_cases refUnmarshal (os_with None) globals0))).
  - apply (proj1 (proj2 (proj2 (LoadThemeFromEnv_cases refUnmarshal
             (os_with (Some "charm-light")) (init globals0))))).
    + vm_compute. discriminate.
    + vm_compute. reflexivity.
  - destruct (ToTheme cyberpunk) as [t|e] eqn:E; [|discriminate E].
    exists t. split; [reflexivity|].
    assert (Hid : ID t = "cyberpunk") by (injection E as <-; reflexivity).
    rewrite <- Hid.
    apply (proj1 (proj2 (proj2 (proj2 (LoadThemeFromEnv_cases refUnmarshal
             (os_with (Some "themes/cyberpunk.json")) (init globals0)))))).
    + vm_compute. discriminate.
    + vm_compute. reflexivity.
    + vm_compute. eauto.
    + rewrite <- E. vm_compute. reflexivity.
  - rewrite (proj1 (proj2 (proj2 (proj2 (proj2 (LoadThemeFromEnv_cases refUnmarshal
             (os_with (Some "themes/broken.json")) (init globals0))))))
             (ErrorfW "failed to parse theme JSON: "
                (ExternalError "invalid character looking for beginning of value"))).
    + reflexivity.
    + vm_compute. discriminate.
    + vm_compute. reflexivity.
    + vm_compute. eauto.
    + vm_compute. reflexivity.
  - apply (proj2 (proj2 (proj2 (proj2 (proj2 (LoadThemeFromEnv_cases refUnmarshal
             (os_with (Some "nope")) (init globals0))))))).
    + vm_compute. discriminate.
    + vm_compute. reflexivity.
    + vm_compute. reflexivity.
Defined.

(** C8 as a four-way rule fails where the variable names a directory:
    the path exists, so the loader tries to read it and reports the
    failure to load, not an unknown theme. *)
Lemma four_way_selection_fails :
  ~ four_way_selection refUnmarshal (os_with (Some "themes")) (init globals0).
Proof.
  intros (_ & _ & _ & H).
  assert (E : snd (LoadThemeFromEnv refUnmarshal (os_with (Some "themes"))
                     (init globals0))
              = Some (Errorf "unknown theme: themes")).
  { apply H.
    - vm_compute. discriminate.
    - vm_compute. reflexivity.
    - intros t (data & Hf & _). vm_compute in Hf. discriminate Hf. }
  vm_compute in E. discriminate E.
Qed.

Lemma LoadThemeFromEnv_error_unchanged_witness :
  fst (LoadThemeFromEnv refUnmarshal (os_with (Some "themes/broken.json"))
         (init globals0)) = init globals0.
Proof.
  apply (LoadThemeFromEnv_error_unchanged refUnmarshal
           (os_with (Some "themes/broken.json")) (init globals0)
           (ErrorfW "failed to load theme from themes/broken.json: "
              (ErrorfW "failed to parse theme JSON: "
                 (ExternalError "invalid character looking for beginning of value")))).
  vm_compute. reflexivity.
Defined.

Lemma loaded_theme_shape_witness :
  exists t, LoadThemeFromJSON refUnmarshal cyberpunk_text = Ok t
            /\ all_simple (colors t) = true
            /\ styles t = BuildStyles (colors t).
Proof.
  destruct (LoadThemeFromJSON refUnmarshal cyberpunk_text) as [t|e] eqn:E;
    [|vm_compute in E; discriminate E].
  exists t. split; [reflexivity|].
  exact (loaded_theme_shape refUnmarshal cyberpunk_text t E).
Defined.

Lemma export_load_roundtrip_witness :
  exists data t',
    ExportThemeToJSON refMarshalIndent CharmDark = Ok data
    /\ LoadThemeFromJSON refUnmarshal data = Ok t'
    /\ exportJSON t' = coerceThemeJSON (exportJSON CharmDark)
    /\ (all_simple (colors CharmDark) = true ->
        utf8_ThemeJSON (exportJSON CharmDark) = true ->
          ID t' = ID CharmDark /\ Name t' = Name CharmDark
          /\ Description t' = Description CharmDark
          /\ Author t' = Author CharmDark /\ Version t' = Version CharmDark
          /\ colors t' = colors CharmDark)
    /\ (forall c, is_simple c = false -> colorToString c = "")
    /\ (all_simple (colors CharmDark) = false -> colors t' <> colors CharmDark).
Proof.
  exact (export_load_roundtrip refMarshalIndent refUnmarshal CharmDark
           ref_json_roundtrips).
Defined.

(** The round trip as C10 states it fails on a theme whose colors are
    all simple: the ID does not come back, its last byte has become
    U+FFFD. *)
Lemma export_load_fails :
  ~ roundtrip_as_stated refMarshalIndent refUnmarshal latin1_theme.
Proof.
  intros Hrt. destruct (Hrt eq_refl) as (data & t' & He & Hl & Hid & _).
  assert (data = print_indent 0
                   (themeToJson (coerceThemeJSON (exportJSON latin1_theme))))
    as -> by (unfold ExportThemeToJSON, refMarshalIndent in He; congruence).
  unfold LoadThemeFromJSON in Hl.
  rewrite refUnmarshal_print, coerceThemeJSON_idem in Hl.
  unfold ToTheme in Hl. injection Hl as <-.
  cbn [ID jID coerceThemeJSON exportJSON latin1_theme] in Hid.
  vm_compute in Hid. discriminate Hid.
Qed.

(* --------------------------------------------------------------------- *)
(** *** Further properties of the registry and of the loader              *)
(* --------------------------------------------------------------------- *)

Section RegistryFacts.

Variable json_Unmarshal : string -> result ThemeJSON.
Variable os_ReadDir : OS -> string -> result (list DirEntry).
Variable filepath_Join : string -> string -> string.

(** A property of the package state that [Register] keeps holds after
    the loop of [LoadThemesFromDirectory]. *)
Lemma loadEntries_keep (P : Globals -> Prop) (os : OS) (dir : string) :
  (forall t g, P g -> P (Register t g)) ->
  forall entries st, P (fst st) ->
    P (fst (fold_left (loadEntry json_Unmarshal filepath_Join os dir) entries st)).
Proof.
  intros HP. induction entries as [|entry entries IH]; intros st Hst; [exact Hst|].
  cbn [fold_left]. apply IH.
  destruct st as [g [count errors]]. unfold loadEntry.
  destruct (entryIsDir entry); [exact Hst|].
  destruct (negb _); [exact Hst|].
  destruct (LoadThemeFromFile _ _ _); cbn [fst] in *; auto.
Qed.

Lemma LoadThemesFromDirectory_keeps (P : Globals -> Prop) (os : OS) (g : Globals)
    (dir : string) :
  (forall t g, P g -> P (Register t g)) ->
  P g ->
  P (fst (LoadThemesFromDirectory json_Unmarshal os_ReadDir filepath_Join os g dir)).
Proof.
  intros HP Hg. unfold LoadThemesFromDirectory.
  destruct (os_ReadDir os dir) as [entries | err]; [|exact Hg].
  now apply loadEntries_keep.
Qed.

(** X11: calling [LoadThemeFromEnv] again on the same system changes
    nothing more and returns the same error. *)
Theorem LoadThemeFromEnv_idempotent (os : OS) (g : Globals) :
  LoadThemeFromEnv json_Unmarshal os (fst (LoadThemeFromEnv json_Unmarshal os g))
  = LoadThemeFromEnv json_Unmarshal os g.
Proof.
  set (p := Getenv os "AGENTUI_THEME").
  assert (Hun : forall g0,
            LoadThemeFromEnv json_Unmarshal os g0 =
            if decide (p = "") then (g0, None)
            else if decide (is_Some (Available g0 !! p)) then
              (fst (SetTheme p g0), None)
            else if Stat_ok os p then
              match LoadThemeFromFile json_Unmarshal os p with
              | Err err =>
                  (g0, Some (ErrorfW ("failed to load theme from " ++ p ++ ": ") err))
              | Ok theme => (fst (SetTheme (ID theme) (Register theme g0)), None)
              end
            else (g0, Some (Errorf ("unknown theme: " ++ p)))) by reflexivity.
  rewrite (Hun g).
  destruct (decide (p = "")) as [Hp | Hp]; [apply Hun|].
  destruct (decide (is_Some (Available g !! p))) as [Hr | Hr].
  { destruct Hr as [t Ht]. unfold SetTheme at 1 2. rewrite Ht. cbn [fst].
    rewrite Hun. cbn [Available].
    rewrite decide_True by eauto.
    unfold SetTheme. cbn [Available]. now rewrite Ht. }
  destruct (Stat_ok os p) eqn:Hs.
  - destruct (LoadThemeFromFile json_Unmarshal os p) as [theme | err] eqn:Hl.
    + unfold SetTheme at 1 2, Register. cbn [Available Current].
      rewrite lookup_insert_eq. cbn [fst].
      rewrite Hun. cbn [Available].
      destruct (decide (ID theme = p)) as [Hid | Hid].
      * rewrite decide_True by (rewrite <- Hid, lookup_insert_eq; eauto).
        unfold SetTheme. cbn [Available].
        rewrite <- Hid, lookup_insert_eq. reflexivity.
      * rewrite decide_False
          by (rewrite lookup_insert_ne by assumption; assumption).
        unfold SetTheme, Register. cbn [Available Current].
        rewrite lookup_insert_eq, insert_insert_eq. reflexivity.
    + cbn [fst]. rewrite Hun. now rewrite decide_False by assumption.
  - cbn [fst]. rewrite Hun. now rewrite decide_False by assumption.
Qed.

(** X12: [LoadThemeFromJSON] accepts whatever the JSON library accepts, with
    no check of its own, and keeps all of it: exporting the loaded
    theme hands the marshaller the very record that was read; it fails
    only with the library's error, wrapped. *)
Theorem LoadThemeFromJSON_lossless (json_MarshalIndent : ThemeJSON -> result string)
    (data : string) :
  (forall tj, json_Unmarshal data = Ok tj ->
     exists t, LoadThemeFromJSON json_Unmarshal data = Ok t
               /\ exportJSON t = tj
               /\ ExportThemeToJSON json_MarshalIndent t = json_MarshalIndent tj)
  /\ (forall err, json_Unmarshal data = Err err ->
        LoadThemeFromJSON json_Unmarshal data
        = Err (ErrorfW "failed to parse theme JSON: " err)).
Proof.
  unfold LoadThemeFromJSON. split.
  - intros tj ->. unfold ToTheme. eexists. split; [reflexivity|].
    assert (He : forall s, colorToString (parseColor s) = s).
    { intros s. now rewrite parseColor_simple. }
    match goal with
    | |- exportJSON ?t = _ /\ _ => assert (Hx : exportJSON t = tj)
    end.
    { destruct tj as [i n d a v [c1 c2 c3 c4 c5 c6 c7 c8 c9 c10 c11 c12 c13 c14 c15]].
      unfold exportJSON. cbn. now rewrite !He. }
    split; [exact Hx|]. unfold ExportThemeToJSON. now rewrite Hx.
  - now intros err ->.
Qed.

(** X13: [LoadThemesFromDirectory] never changes the current theme and
    never removes a registration.  When the directory can be read, every
    entry that is not a directory and whose name ends in [.json] is
    either counted or reported, none twice and no other; each theme in
    the registry afterwards was there before or was loaded from such an
    entry and is stored under its ID; and the registry grew by at most
    [count] entries.  When the directory cannot be read, the state is
    unchanged and the result is 0 with the one wrapped error. *)
Theorem LoadThemesFromDirectory_accounting (os : OS) (g : Globals) (dir : string) :
  let r := LoadThemesFromDirectory json_Unmarshal os_ReadDir filepath_Join os g dir in
  Current (fst r) = Current g
  /\ (forall k, is_Some (Available g !! k) -> is_Some (Available (fst r) !! k))
  /\ (forall entries, os_ReadDir os dir = Ok entries ->
        (fst (snd r) + Z.of_nat (length (snd (snd r)))
         = Z.of_nat (length (filter (fun e => candidate e = true) entries)))%Z
        /\ (0 <= fst (snd r))%Z
        /\ (Z.of_nat (base.size (Available (fst r)))
            <= Z.of_nat (base.size (Available g)) + fst (snd r))%Z
        /\ (forall k t, Available (fst r) !! k = Some t ->
              Available g !! k = Some t
              \/ exists entry, In entry entries /\ candidate entry = true
                   /\ LoadThemeFromFile json_Unmarshal os
                        (filepath_Join dir (entryName entry)) = Ok t
                   /\ ID t = k))
  /\ (forall err, os_ReadDir os dir = Err err ->
        r = (g, (0%Z, [ErrorfW "failed to read themes directory: " err]))).
Proof.
  cbv zeta. split; [|split; [|split]].
  - apply (LoadThemesFromDirectory_keeps (fun g' => Current g' = Current g));
      [intros t g' Hg'; exact Hg' | reflexivity].
  - intros k Hk.
    apply (LoadThemesFromDirectory_keeps
             (fun g' => is_Some (Available g' !! k))); [|exact Hk].
    intros t g' Hg'. unfold Register. cbn [Available].
    apply lookup_insert_is_Some. destruct (decide (ID t = k)); auto.
  - intros entries Hr. unfold LoadThemesFromDirectory. rewrite Hr.
    assert (Hgen : forall es st,
              let st' := fold_left (loadEntry json_Unmarshal filepath_Join os dir) es st in
              (fst (snd st') + Z.of_nat (length (snd (snd st')))
               = fst (snd st) + Z.of_nat (length (snd (snd st)))
                 + Z.of_nat (length (filter (fun e => candidate e = true) es)))%Z
              /\ (fst (snd st) <= fst (snd st'))%Z
              /\ (Z.of_nat (base.size (Available (fst st'))) - fst (snd st')
                  <= Z.of_nat (base.size (Available (fst st))) - fst (snd st))%Z
              /\ (forall k t, Available (fst st') !! k = Some t ->
                    Available (fst st) !! k = Some t
                    \/ exists entry, In entry es /\ candidate entry = true
                         /\ LoadThemeFromFile json_Unmarshal os
                              (filepath_Join dir (entryName entry)) = Ok t
                         /\ ID t = k)).
    { induction es as [|e es IH]; intros st; cbv zeta.
      - cbn [fold_left]. rewrite filter_nil. cbn [length].
        split; [lia|]. split; [lia|]. split; [lia|]. auto.
      - cbn [fold_left]. specialize (IH (loadEntry json_Unmarshal filepath_Join os dir st e)).
        cbv zeta in IH. destruct IH as (IH1 & IH2 & IH3 & IH4).
        rewrite IH1. clear IH1.
        assert (Hstep :
          let st1 := loadEntry json_Unmarshal filepath_Join os dir st e in
          (fst (snd st1) + Z.of_nat (length (snd (snd st1)))
           = fst (snd st) + Z.of_nat (length (snd (snd st)))
             + (if candidate e then 1 else 0))%Z
          /\ (fst (snd st) <= fst (snd st1))%Z
          /\ (Z.of_nat (base.size (Available (fst st1))) - fst (snd st1)
              <= Z.of_nat (base.size (Available (fst st))) - fst (snd st))%Z
          /\ (forall k t, Available (fst st1) !! k = Some t ->
                Available (fst st) !! k = Some t
                \/ (candidate e = true
                    /\ LoadThemeFromFile json_Unmarshal os
                         (filepath_Join dir (entryName e)) = Ok t
                    /\ ID t = k))).
        { cbv zeta. destruct st as [g0 [count errors]]. unfold loadEntry, candidate.
          destruct (entryIsDir e); cbn [negb andb fst snd];
            [repeat split; try lia; auto|].
          destruct (HasSuffix (entryName e) ".json"); cbn [negb fst snd];
            [|repeat split; try lia; auto].
          destruct (LoadThemeFromFile _ _ _) as [theme | err] eqn:Hl; cbn [fst snd].
          - unfold Register. cbn [Available].
            split; [lia|]. split; [lia|]. split.
            + destruct (Available g0 !! ID theme) eqn:Hi.
              * rewrite map_size_insert_Some by eauto. lia.
              * rewrite map_size_insert_None by assumption. lia.
            + intros k t Hk.
              apply lookup_insert_Some in Hk as [[<- <-] | [_ Hk]]; auto.
          - rewrite List.length_app. cbn [length]. repeat split; try lia; auto. }
        cbv zeta in Hstep. destruct Hstep as (S1 & S2 & S3 & S4).
        split; [|split; [|split]].
        + rewrite S1. rewrite filter_cons.
          destruct (decide (candidate e = true)) as [Hc | Hc].
          * rewrite Hc. cbn [length]. lia.
          * apply not_true_is_false in Hc. rewrite Hc. lia.
        + lia.
        + lia.
        + intros k t Hk. destruct (IH4 k t Hk) as [Hk1 | (entry & Hin & Hc & Hl & Hid)].
          * destruct (S4 k t Hk1) as [Hk0 | (Hc & Hl & Hid)]; [now left|].
            right. exists e. repeat split; auto. now left.
          * right. exists entry. repeat split; auto. now right. }
    specialize (Hgen entries (g, (0%Z, []))). cbv zeta in Hgen.
    cbn [fst snd length] in Hgen. destruct Hgen as (G1 & G2 & G3 & G4).
    repeat split; try lia; auto.
  - intros err Hr. unfold LoadThemesFromDirectory. now rewrite Hr.
Qed.

End RegistryFacts.

Lemma LoadThemesFromDirectory_accounting_witness :
  let r := LoadThemesFromDirectory refUnmarshal refReadDir refJoin
             (os_with None) (init globals0) "themes" in
  fst (snd r) = 1 /\ length (snd (snd r)) = 1%nat
  /\ Current (fst r) = CharmDark
  /\ is_Some (Available (fst r) !! "cyberpunk").
Proof.
  cbv zeta.
  destruct (LoadThemesFromDirectory_accounting refUnmarshal refReadDir refJoin
              (os_with None) (init globals0) "themes") as (Hc & _ & Hacc & _).
  split; [vm_compute; reflexivity|]. split; [vm_compute; reflexivity|].
  split; [exact Hc|]. vm_compute. eauto.
Defined.

End Theme.

(* ===================================================================== *)
(** ** internal/theme: the registry with its pointers                      *)
(* ===================================================================== *)

(** [Available] holds [*Theme], and [SetTheme] copies the theme a pointer
    leads to into [Current].  Here the themes live at addresses, so that
    a registered pointer may lead to [Current] itself. *)
Module Registry.

#[local] Open Scope string_scope.
#[local] Open Scope Z_scope.

(** The address of a theme: of the package variable [Current], or of any
    other theme (the variables [CharmDark], [CharmLight] and [CharmAuto],
    a theme a client built, a theme the loader allocated). *)
Inductive Ptr :=
| AddrCurrent
| AddrTheme (n : nat).

(** The package state: [Current], the other themes by address, and the
    registry. *)
Record Memory := mkMemory {
  Current : Theme.ThemeT;
  themes : list Theme.ThemeT;
  Available : gmap string Ptr
}.

(** [*p]; [None] when the pointer leads to no theme, where the program
    panics. *)
Definition load (m : Memory) (p : Ptr) : option Theme.ThemeT :=
  match p with
  | AddrCurrent => Some (Current m)
  | AddrTheme n => themes m !! n
  end.

(** [&Theme{...}]: a new theme and its address. *)
Definition new (t : Theme.ThemeT) (m : Memory) : Memory * Ptr :=
  ({| Current := Current m; themes := themes m ++ [t];
      Available := Available m |},
   AddrTheme (length (themes m))).

(** [SetTheme] *)
Definition SetTheme (name : string) (m : Memory) : option (Memory * bool) :=
  match Available m !! name with
  | Some theme =>
      t ← load m theme;
      Some ({| Current := t; themes := themes m; Available := Available m |},
            true)
  | None => Some (m, false)
  end.

(** [Register] *)
Definition Register (t : Ptr) (m : Memory) : option Memory :=
  v ← load m t;
  Some {| Current := Current m; themes := themes m;
          Available := <[Theme.ID v := t]> (Available m) |}.

(** The package state before [init]: the three theme variables hold
    their literals, without styles. *)
Definition addrCharmDark : Ptr := AddrTheme 0.
Definition addrCharmLight : Ptr := AddrTheme 1.
Definition addrCharmAuto : Ptr := AddrTheme 2.

Definition memory0 : Memory :=
  {| Current := Theme.zeroTheme;
     themes := [Theme.CharmDark0; Theme.CharmLight0; Theme.CharmAuto0];
     Available := ∅ |}.

(** [p.Styles = BuildStyles(p.Colors)] *)
Definition buildStyles (p : Ptr) (m : Memory) : option Memory :=
  t ← load m p;
  let t := Theme.withStyles t (Theme.BuildStyles (Theme.colors t)) in
  match p with
  | AddrCurrent =>
      Some {| Current := t; themes := themes m; Available := Available m |}
  | AddrTheme n =>
      Some {| Current := Current m; themes := <[n := t]> (themes m);
              Available := Available m |}
  end.

(** [init] *)
Definition init (m : Memory) : option Memory :=
  m ← buildStyles addrCharmDark m;
  m ← buildStyles addrCharmLight m;
  m ← buildStyles addrCharmAuto m;
  m ← Register addrCharmDark m;
  m ← Register addrCharmLight m;
  m ← Register addrCharmAuto m;
  t ← load m addrCharmDark;
  Some {| Current := t; themes := themes m; Available := Available m |}.

(** The calls a client can make that touch the package state:
    [Register] with the address of an existing theme or of a theme built
    for the call, and the three others. *)
Inductive Call :=
| CallRegister (t : Ptr)
| CallRegisterNew (t : Theme.ThemeT)
| CallSetTheme (name : string)
| CallLoadThemeFromEnv (os : Theme.OS)
| CallLoadThemesFromDirectory (os : Theme.OS) (dir : string).

(** Whether a call hands [Register] the address of [Current]. *)
Definition registers_Current (c : Call) : bool :=
  match c with
  | CallRegister AddrCurrent => true
  | _ => false
  end.

Section Loader.

Variable json_Unmarshal : string -> Theme.result Theme.ThemeJSON.
Variable os_ReadDir : Theme.OS -> string -> Theme.result (list Theme.DirEntry).
Variable filepath_Join : string -> string -> string.

(** [LoadThemeFromEnv] *)
Definition LoadThemeFromEnv (os : Theme.OS) (m : Memory)
  : option (Memory * option Theme.error) :=
  let themePath := Theme.Getenv os "AGENTUI_THEME" in
  if decide (themePath = "") then Some (m, None)
  else if decide (is_Some (Available m !! themePath)) then
    r ← SetTheme themePath m;
    Some (fst r, None)
  else if Theme.Stat_ok os themePath then
    match Theme.LoadThemeFromFile json_Unmarshal os themePath with
    | Theme.Err err =>
        Some (m, Some (Theme.ErrorfW
                         ("failed to load theme from " ++ themePath ++ ": ") err))
    | Theme.Ok theme =>
        let '(m, p) := new theme m in
        m ← Register p m;
        r ← SetTheme (Theme.ID theme) m;
        Some (fst r, None)
    end
  else Some (m, Some (Theme.Errorf ("unknown theme: " ++ themePath))).

(** The body of the loop of [LoadThemesFromDirectory]. *)
Definition loadEntry (os : Theme.OS) (dir : string)
    (st : option (Memory * (Z * list Theme.error))) (entry : Theme.DirEntry)
  : option (Memory * (Z * list Theme.error)) :=
  st ← st;
  let '(m, (count, errors)) := st in
  if Theme.entryIsDir entry then Some st
  else
    let name := Theme.entryName entry in
    if negb (Theme.HasSuffix name ".json") then Some st
    else
      let path := filepath_Join dir name in
      match Theme.LoadThemeFromFile json_Unmarshal os path with
      | Theme.Err err =>
          Some (m, (count,
                    (errors ++ [Theme.ErrorfW
                                  ("failed to load " ++ name ++ ": ")%string
                                  err])%list))
      | Theme.Ok theme =>
          let '(m, p) := new theme m in
          m ← Register p m;
          Some (m, (count + 1, errors))
      end.

(** [LoadThemesFromDirectory] *)
Definition LoadThemesFromDirectory (os : Theme.OS) (m : Memory) (dir : string)
  : option (Memory * (Z * list Theme.error)) :=
  match os_ReadDir os dir with
  | Theme.Err err =>
      Some (m, (0, [Theme.ErrorfW "failed to read themes directory: " err]))
  | Theme.Ok entries =>
      fold_left (loadEntry os dir) entries (Some (m, (0, [])))
  end.

Definition call (m : Memory) (c : Call) : option Memory :=
  match c with
  | CallRegister t => Register t m
  | CallRegisterNew t => let '(m, p) := new t m in Register p m
  | CallSetTheme name => r ← SetTheme name m; Some (fst r)
  | CallLoadThemeFromEnv os => r ← LoadThemeFromEnv os m; Some (fst r)
  | CallLoadThemesFromDirectory os dir =>
      r ← LoadThemesFromDirectory os m dir; Some (fst r)
  end.

(** The package state after [init] and the calls, in order. *)
Definition run (cs : list Call) : option Memory :=
  fold_left (fun m c => m ← m; call m c) cs (init memory0).

End Loader.

(** What holds of the package state as long as [Current] is not
    registered: every registered pointer leads to a theme other than
    [Current] whose ID is the key, and the ID of the current theme and
    the three built-in IDs are registered. *)
Definition registry_ok (m : Memory) : Prop :=
  (forall k p, Available m !! k = Some p ->
     exists n t, p = AddrTheme n /\ themes m !! n = Some t /\ Theme.ID t = k)
  /\ is_Some (Available m !! Theme.ID (Current m))
  /\ is_Some (Available m !! "charm-dark")
  /\ is_Some (Available m !! "charm-light")
  /\ is_Some (Available m !! "charm-auto").

(** A theme to register and a system to load from. *)
Definition solarized : Theme.ThemeT :=
  {| Theme.ID := "solarized"; Theme.Name := "Solarized";
     Theme.Description := ""; Theme.Author := ""; Theme.Version := "";
     Theme.colors := Theme.colors Theme.CharmLight;
     Theme.styles := Theme.styles Theme.CharmLight |}.

Definition sample_calls : list Call :=
  [CallRegisterNew solarized;
   CallLoadThemeFromEnv (Theme.os_with (Some "themes/cyberpunk.json"));
   CallRegister (AddrTheme 1);
   CallLoadThemesFromDirectory (Theme.os_with None) "themes";
   CallSetTheme "solarized"].

(** The three calls after which the registry holds [Current] under an
    ID that is not its own. *)
Definition aliasing_calls : list Call :=
  [CallRegister AddrCurrent; CallSetTheme "charm-light"; CallSetTheme "charm-dark"].

(* --------------------------------------------------------------------- *)
(** *** Properties of the registry                                         *)
(* --------------------------------------------------------------------- *)

Lemma registry_ok_init : exists m, init memory0 = Some m /\ registry_ok m.
Proof.
  exists {| Current := Theme.CharmDark;
            themes := [Theme.CharmDark; Theme.CharmLight; Theme.CharmAuto];
            Available := <["charm-auto" := addrCharmAuto]>
                           (<["charm-light" := addrCharmLight]>
                              (<["charm-dark" := addrCharmDark]> ∅)) |}.
  split; [reflexivity|]. split.
  - intros k p. cbn [Available themes]. intros Hk.
    apply lookup_insert_Some in Hk as [[<- <-] | [_ Hk]];
      [exists 2%nat; eexists; repeat split; reflexivity|].
    apply lookup_insert_Some in Hk as [[<- <-] | [_ Hk]];
      [exists 1%nat; eexists; repeat split; reflexivity|].
    apply lookup_insert_Some in Hk as [[<- <-] | [_ Hk]];
      [exists 0%nat; eexists; repeat split; reflexivity|].
    now rewrite lookup_empty in Hk.
  - repeat split; vm_compute; eauto.
Qed.

Lemma registry_ok_new (t : Theme.ThemeT) (m : Memory) :
  registry_ok m ->
  registry_ok (fst (new t m))
  /\ load (fst (new t m)) (snd (new t m)) = Some t
  /\ snd (new t m) = AddrTheme (length (themes m)).
Proof.
  intros (Hk & Hrest). unfold new. cbn [fst snd load themes].
  split; [|split; [|reflexivity]].
  - split; [|exact Hrest]. cbn [Available themes]. intros k p Hp.
    destruct (Hk k p Hp) as (n & t0 & -> & Hn & Hid).
    exists n, t0. split; [reflexivity|]. split; [|exact Hid].
    now apply lookup_app_l_Some.
  - rewrite lookup_app_r by reflexivity.
    now rewrite Nat.sub_diag.
Qed.

Lemma registry_ok_Register (n : nat) (m m' : Memory) :
  registry_ok m -> Register (AddrTheme n) m = Some m' -> registry_ok m'.
Proof.
  intros (Hk & Hc & H1 & H2 & H3). unfold Register. cbn [load].
  destruct (themes m !! n) as [v|] eqn:Hv; [|discriminate].
  cbn. intros [= <-].
  assert (Hgrow : forall k, is_Some (Available m !! k) ->
                            is_Some (<[Theme.ID v := AddrTheme n]> (Available m) !! k)).
  { intros k Hs. apply lookup_insert_is_Some.
    destruct (decide (Theme.ID v = k)); auto. }
  split; [|cbn [Available Current]; auto].
  intros k p. cbn [Available themes]. intros Hl.
  apply lookup_insert_Some in Hl as [[<- <-] | [_ Hl]]; [|exact (Hk _ _ Hl)].
  exists n, v. auto.
Qed.

Lemma registry_ok_SetTheme (name : string) (m m' : Memory) (b : bool) :
  registry_ok m -> SetTheme name m = Some (m', b) ->
  registry_ok m' /\ (b = true -> Theme.ID (Current m') = name).
Proof.
  intros Hm. pose proof Hm as (Hk & Hc & H1 & H2 & H3). unfold SetTheme.
  destruct (Available m !! name) as [p|] eqn:E.
  - destruct (Hk _ _ E) as (n & t & -> & Hn & Hid). cbn [load]. rewrite Hn.
    cbn. intros [= <- <-]. split; [|intros _; exact Hid].
    split; [exact Hk|]. cbn [Available Current]. rewrite Hid, E. eauto.
  - intros [= <- <-]. split; [exact Hm | discriminate].
Qed.

Section RegistryFacts.

Variable json_Unmarshal : string -> Theme.result Theme.ThemeJSON.
Variable os_ReadDir : Theme.OS -> string -> Theme.result (list Theme.DirEntry).
Variable filepath_Join : string -> string -> string.

Lemma registry_ok_new_Register (t : Theme.ThemeT) (m : Memory) :
  registry_ok m ->
  exists m', Register (snd (new t m)) (fst (new t m)) = Some m' /\ registry_ok m'.
Proof.
  intros Hm. destruct (registry_ok_new t m Hm) as (Hn & Hl & Hp).
  destruct (Register (snd (new t m)) (fst (new t m))) as [m'|] eqn:Hr.
  - exists m'. split; [reflexivity|]. rewrite Hp in Hr.
    exact (registry_ok_Register _ _ _ Hn Hr).
  - unfold Register in Hr. rewrite Hl in Hr. discriminate Hr.
Qed.

Lemma registry_ok_LoadThemeFromEnv (os : Theme.OS) (m : Memory)
    (r : Memory * option Theme.error) :
  registry_ok m -> LoadThemeFromEnv json_Unmarshal os m = Some r ->
  registry_ok (fst r).
Proof.
  intros Hm. unfold LoadThemeFromEnv.
  case_decide; [now intros [= <-]|].
  case_decide.
  { destruct (SetTheme _ m) as [[m1 b]|] eqn:Hs; [|discriminate].
    cbn. intros [= <-]. exact (proj1 (registry_ok_SetTheme _ _ _ _ Hm Hs)). }
  destruct (Theme.Stat_ok os _); [|now intros [= <-]].
  destruct (Theme.LoadThemeFromFile _ _ _) as [theme | err]; [|now intros [= <-]].
  destruct (registry_ok_new_Register theme m Hm) as (m1 & Hr & Hm1).
  destruct (new theme m) as [m0 p]. cbn [fst snd] in Hr. rewrite Hr. cbn.
  destruct (SetTheme _ m1) as [[m2 b]|] eqn:Hs; [|discriminate].
  cbn. intros [= <-]. exact (proj1 (registry_ok_SetTheme _ _ _ _ Hm1 Hs)).
Qed.

Lemma loadEntry_Some (os : Theme.OS) (dir : string) (m : Memory) (count : Z)
    (errors : list Theme.error) (entry : Theme.DirEntry) :
  loadEntry json_Unmarshal filepath_Join os dir (Some (m, (count, errors))) entry =
    if Theme.entryIsDir entry then Some (m, (count, errors))
    else if negb (Theme.HasSuffix (Theme.entryName entry) ".json")
    then Some (m, (count, errors))
    else
      match Theme.LoadThemeFromFile json_Unmarshal os
              (filepath_Join dir (Theme.entryName entry)) with
      | Theme.Err err =>
          Some (m, (count,
                    (errors ++ [Theme.ErrorfW
                                  ("failed to load " ++ Theme.entryName entry
                                   ++ ": ")%string err])%list))
      | Theme.Ok theme =>
          match Register (snd (new theme m)) (fst (new theme m)) with
          | Some m' => Some (m', (count + 1, errors))
          | None => None
          end
      end.
Proof.
  unfold loadEntry. cbn [mbind option_bind].
  destruct (Theme.entryIsDir entry); [reflexivity|].
  destruct (negb _); [reflexivity|].
  destruct (Theme.LoadThemeFromFile _ _ _) as [theme | err]; [|reflexivity].
  destruct (new theme m) as [m0 p]. cbn [fst snd].
  now destruct (Register p m0).
Qed.

Lemma registry_ok_loadEntries (os : Theme.OS) (dir : string)
    (entries : list Theme.DirEntry) :
  forall st r,
    (forall s, st = Some s -> registry_ok (fst s)) ->
    fold_left (loadEntry json_Unmarshal filepath_Join os dir) entries st = Some r ->
    registry_ok (fst r).
Proof.
  induction entries as [|entry entries IH]; intros st r Hst; cbn [fold_left].
  { intros ->. now apply Hst. }
  apply IH. intros s Hs.
  destruct st as [[m [count errors]]|]; [|discriminate Hs].
  specialize (Hst _ eq_refl). cbn [fst] in Hst.
  rewrite loadEntry_Some in Hs.
  destruct (Theme.entryIsDir entry); [now injection Hs as <-|].
  destruct (negb _); [now injection Hs as <-|].
  destruct (Theme.LoadThemeFromFile _ _ _) as [theme | err];
    [|now injection Hs as <-].
  destruct (registry_ok_new_Register theme m Hst) as (m1 & Hr & Hm1).
  rewrite Hr in Hs. now injection Hs as <-.
Qed.

Lemma registry_ok_LoadThemesFromDirectory (os : Theme.OS) (m : Memory)
    (dir : string) (r : Memory * (Z * list Theme.error)) :
  registry_ok m ->
  LoadThemesFromDirectory json_Unmarshal os_ReadDir filepath_Join os m dir = Some r ->
  registry_ok (fst r).
Proof.
  intros Hm. unfold LoadThemesFromDirectory.
  destruct (os_ReadDir os dir) as [entries | err]; [|now intros [= <-]].
  apply registry_ok_loadEntries. now intros s [= <-].
Qed.

Lemma registry_ok_call (m m' : Memory) (c : Call) :
  registers_Current c = false ->
  registry_ok m ->
  call json_Unmarshal os_ReadDir filepath_Join m c = Some m' ->
  registry_ok m'.
Proof.
  intros Hc Hm. destruct c as [[|n] | t | name | os | os dir]; cbn [call].
  - discriminate Hc.
  - now apply registry_ok_Register.
  - destruct (registry_ok_new_Register t m Hm) as (m1 & Hr & Hm1).
    destruct (new t m) as [m0 p]. cbn [fst snd] in Hr. rewrite Hr.
    now intros [= <-].
  - destruct (SetTheme name m) as [[m1 b]|] eqn:Hs; [|discriminate].
    cbn. intros [= <-]. exact (proj1 (registry_ok_SetTheme _ _ _ _ Hm Hs)).
  - destruct (LoadThemeFromEnv _ os m) as [r|] eqn:Hl; [|discriminate].
    cbn. intros [= <-]. exact (registry_ok_LoadThemeFromEnv _ _ _ Hm Hl).
  - destruct (LoadThemesFromDirectory _ _ _ os m dir) as [r|] eqn:Hl; [|discriminate].
    cbn. intros [= <-]. exact (registry_ok_LoadThemesFromDirectory _ _ _ _ Hm Hl).
Qed.

Lemma registry_ok_run (cs : list Call) (m : Memory) :
  forallb (fun c => negb (registers_Current c)) cs = true ->
  run json_Unmarshal os_ReadDir filepath_Join cs = Some m ->
  registry_ok m.
Proof.
  unfold run. destruct registry_ok_init as (m0 & -> & Hm0).
  revert m0 Hm0. induction cs as [|c cs IH]; intros m0 Hm0 Hcs; cbn [fold_left].
  { now intros [= <-]. }
  cbn [forallb] in Hcs. apply andb_prop in Hcs as [Hc Hcs].
  apply negb_true_iff in Hc. cbn.
  destruct (call _ _ _ m0 c) as [m1|] eqn:Hcall.
  - apply IH; [|exact Hcs]. exact (registry_ok_call _ _ _ Hc Hm0 Hcall).
  - clear. induction cs as [|c' cs IH]; [discriminate | exact IH].
Qed.

(** X10: the registry holds pointers.  Whatever sequence of [Register],
    [SetTheme], [LoadThemeFromEnv] and [LoadThemesFromDirectory] calls
    follows [init], as long as [Register] is never handed the address of
    [Current]: every registered pointer leads to a theme whose ID is the
    key it is stored under, the three built-in IDs and the ID of the
    current theme are registered, and a [SetTheme] that returns [true]
    makes current a theme whose ID is the name asked for.  Once
    [Current] itself is registered this fails: after [Register(&Current)],
    [SetTheme("charm-light")] and [SetTheme("charm-dark")], the key
    [charm-dark] leads to a theme whose ID is [charm-light], and the last
    call has returned [true] with that theme current. *)
Theorem registry_keyed_by_ID :
  (forall (cs : list Call) (m : Memory) (name : string),
     forallb (fun c => negb (registers_Current c)) cs = true ->
     run json_Unmarshal os_ReadDir filepath_Join cs = Some m ->
     (forall k p, Available m !! k = Some p ->
        exists t, load m p = Some t /\ Theme.ID t = k)
     /\ is_Some (Available m !! Theme.ID (Current m))
     /\ is_Some (Available m !! "charm-dark")
     /\ is_Some (Available m !! "charm-light")
     /\ is_Some (Available m !! "charm-auto")
     /\ (forall m', SetTheme name m = Some (m', true) ->
           Theme.ID (Current m') = name))
  /\ (exists m0 m,
        run json_Unmarshal os_ReadDir filepath_Join
          [CallRegister AddrCurrent; CallSetTheme "charm-light"] = Some m0
        /\ SetTheme "charm-dark" m0 = Some (m, true)
        /\ run json_Unmarshal os_ReadDir filepath_Join aliasing_calls = Some m
        /\ Available m !! "charm-dark" = Some AddrCurrent
        /\ Theme.ID (Current m) = "charm-light").
Proof.
  split.
  - intros cs m name Hcs Hrun.
    pose proof (registry_ok_run cs m Hcs Hrun) as Hm.
    pose proof Hm as (Hk & Hc & H1 & H2 & H3).
    split.
    { intros k p Hp. destruct (Hk k p Hp) as (n & t & -> & Hn & Hid).
      exists t. auto. }
    repeat (split; [assumption|]).
    intros m' Hs. exact (proj2 (registry_ok_SetTheme _ _ _ _ Hm Hs) eq_refl).
  - eexists. eexists. split; [vm_compute; reflexivity|].
    split; [vm_compute; reflexivity|].
    split; [vm_compute; reflexivity|].
    split; vm_compute; reflexivity.
Qed.

End RegistryFacts.

Lemma registry_keyed_by_ID_witness :
  exists m,
    run Theme.refUnmarshal Theme.refReadDir Theme.refJoin sample_calls = Some m
    /\ (forall k p, Available m !! k = Some p ->
          exists t, load m p = Some t /\ Theme.ID t = k)
    /\ Theme.ID (Current m) = "solarized"
    /\ is_Some (Available m !! "cyberpunk").
Proof.
  destruct (run Theme.refUnmarshal Theme.refReadDir Theme.refJoin sample_calls)
    as [m|] eqn:E; [|vm_compute in E; discriminate E].
  exists m. split; [reflexivity|].
  destruct (proj1 (registry_keyed_by_ID Theme.refUnmarshal Theme.refReadDir
                     Theme.refJoin) sample_calls m "solarized" eq_refl E)
    as (Hk & _).
  split; [exact Hk|].
  assert (Hm : Some m = run Theme.refUnmarshal Theme.refReadDir Theme.refJoin
                          sample_calls) by (symmetry; exact E).
  vm_compute in Hm. injection Hm as ->. split; vm_compute; eauto.
Defined.

End Registry.

(* ===================================================================== *)
(** * internal/ui/views: the syntax-highlighting style                    *)
(* ===================================================================== *)

Module Views.

#[local] Open Scope string_scope.

(** The token types of [chroma] that the style names, and the entries of
    a style: a Go map literal with distinct constant keys, kept here in
    the order of the source. *)
Module chroma.

Inductive TokenType :=
| Background
| LineNumbers
| LineNumbersTable
| Keyword
| KeywordConstant
| KeywordDeclaration
| KeywordNamespace
| KeywordType
| Name
| NameAttribute
| NameBuiltin
| NameClass
| NameConstant
| NameDecorator
| NameEntity
| NameException
| NameFunction
| NameLabel
| NameNamespace
| NameTag
| NameVariable
| LiteralString
| LiteralStringAffix
| LiteralStringBacktick
| LiteralStringChar
| LiteralStringDelimiter
| LiteralStringDoc
| LiteralStringDouble
| LiteralStringEscape
| LiteralStringHeredoc
| LiteralStringInterpol
| LiteralStringRegex
| LiteralStringSingle
| LiteralNumber
| LiteralNumberBin
| LiteralNumberFloat
| LiteralNumberHex
| LiteralNumberInteger
| LiteralNumberIntegerLong
| LiteralNumberOct
| Operator
| OperatorWord
| Punctuation
| Comment
| CommentHashbang
| CommentMultiline
| CommentPreproc
| CommentSingle
| CommentSpecial
| Generic
| GenericDeleted
| GenericEmph
| GenericError
| GenericHeading
| GenericInserted
| GenericOutput
| GenericPrompt
| GenericStrong
| GenericSubheading
| GenericTraceback
| Error.

Definition StyleEntries := list (TokenType * string).

End chroma.

(** *** chroma_style.go *)

(** [toChromaColor]: a [lipgloss.TerminalColor] to a Chroma color
    string. *)
Definition toChromaColor (c : Theme.TerminalColor) : string :=
  match c with
  | Theme.Color color => color
  | Theme.AdaptiveColor _ Dark => Dark
  | Theme.CompleteColor TrueColor ANSI256 ANSI =>
      if negb (String.eqb TrueColor "") then TrueColor
      else if negb (String.eqb ANSI256 "") then ANSI256
      else ANSI
  | Theme.CompleteAdaptiveColor _ (TrueColor, ANSI256, ANSI) =>
      if negb (String.eqb TrueColor "") then TrueColor
      else if negb (String.eqb ANSI256 "") then ANSI256
      else ANSI
  | _ => "#FFFFFF"
  end.

(** The [chroma.StyleEntries] literal of [BuildChromaStyle], over the
    color conversion it calls. *)
Definition styleEntries (toChromaColor : Theme.TerminalColor -> string)
    (colors : Theme.Colors) : chroma.StyleEntries :=
  [
    (chroma.Background, toChromaColor (Theme.Surface colors));
    (chroma.LineNumbers, toChromaColor (Theme.TextDim colors));
    (chroma.LineNumbersTable, toChromaColor (Theme.TextDim colors));
    (chroma.Keyword, toChromaColor (Theme.Primary colors) ++ " bold");
    (chroma.KeywordConstant, toChromaColor (Theme.Accent2 colors));
    (chroma.KeywordDeclaration, toChromaColor (Theme.Primary colors));
    (chroma.KeywordNamespace, toChromaColor (Theme.Accent2 colors));
    (chroma.KeywordType, toChromaColor (Theme.Accent3 colors));
    (chroma.Name, toChromaColor (Theme.Text colors));
    (chroma.NameAttribute, toChromaColor (Theme.Accent1 colors));
    (chroma.NameBuiltin, toChromaColor (Theme.Accent3 colors));
    (chroma.NameClass, toChromaColor (Theme.Accent2 colors) ++ " bold");
    (chroma.NameConstant, toChromaColor (Theme.Accent1 colors));
    (chroma.NameDecorator, toChromaColor (Theme.Primary colors));
    (chroma.NameEntity, toChromaColor (Theme.Accent1 colors));
    (chroma.NameException, toChromaColor (Theme.Error colors));
    (chroma.NameFunction, toChromaColor (Theme.Accent2 colors));
    (chroma.NameLabel, toChromaColor (Theme.Primary colors));
    (chroma.NameNamespace, toChromaColor (Theme.Accent2 colors));
    (chroma.NameTag, toChromaColor (Theme.Primary colors));
    (chroma.NameVariable, toChromaColor (Theme.Text colors));
    (chroma.LiteralString, toChromaColor (Theme.Accent3 colors));
    (chroma.LiteralStringAffix, toChromaColor (Theme.Accent3 colors));
    (chroma.LiteralStringBacktick, toChromaColor (Theme.Accent3 colors));
    (chroma.LiteralStringChar, toChromaColor (Theme.Accent3 colors));
    (chroma.LiteralStringDelimiter, toChromaColor (Theme.Accent3 colors));
    (chroma.LiteralStringDoc, toChromaColor (Theme.TextMuted colors));
    (chroma.LiteralStringDouble, toChromaColor (Theme.Accent3 colors));
    (chroma.LiteralStringEscape, toChromaColor (Theme.Accent1 colors));
    (chroma.LiteralStringHeredoc, toChromaColor (Theme.Accent3 colors));
    (chroma.LiteralStringInterpol, toChromaColor (Theme.Accent1 colors));
    (chroma.LiteralStringRegex, toChromaColor (Theme.Accent1 colors));
    (chroma.LiteralStringSingle, toChromaColor (Theme.Accent3 colors));
    (chroma.LiteralNumber, toChromaColor (Theme.Accent1 colors));
    (chroma.LiteralNumberBin, toChromaColor (Theme.Accent1 colors));
    (chroma.LiteralNumberFloat, toChromaColor (Theme.Accent1 colors));
    (chroma.LiteralNumberHex, toChromaColor (Theme.Accent1 colors));
    (chroma.LiteralNumberInteger, toChromaColor (Theme.Accent1 colors));
    (chroma.LiteralNumberIntegerLong, toChromaColor (Theme.Accent1 colors));
    (chroma.LiteralNumberOct, toChromaColor (Theme.Accent1 colors));
    (chroma.Operator, toChromaColor (Theme.Primary colors));
    (chroma.OperatorWord, toChromaColor (Theme.Primary colors) ++ " bold");
    (chroma.Punctuation, toChromaColor (Theme.TextMuted colors));
    (chroma.Comment, toChromaColor (Theme.TextDim colors) ++ " italic");
    (chroma.CommentHashbang, toChromaColor (Theme.TextDim colors) ++ " italic");
    (chroma.CommentMultiline, toChromaColor (Theme.TextDim colors) ++ " italic");
    (chroma.CommentPreproc, toChromaColor (Theme.TextMuted colors));
    (chroma.CommentSingle, toChromaColor (Theme.TextDim colors) ++ " italic");
    (chroma.CommentSpecial, toChromaColor (Theme.TextMuted colors) ++ " italic bold");
    (chroma.Generic, toChromaColor (Theme.Text colors));
    (chroma.GenericDeleted, toChromaColor (Theme.Error colors));
    (chroma.GenericEmph, toChromaColor (Theme.Text colors) ++ " italic");
    (chroma.GenericError, toChromaColor (Theme.Error colors));
    (chroma.GenericHeading, toChromaColor (Theme.Primary colors) ++ " bold");
    (chroma.GenericInserted, toChromaColor (Theme.Success colors));
    (chroma.GenericOutput, toChromaColor (Theme.TextMuted colors));
    (chroma.GenericPrompt, toChromaColor (Theme.Primary colors) ++ " bold");
    (chroma.GenericStrong, toChromaColor (Theme.Text colors) ++ " bold");
    (chroma.GenericSubheading, toChromaColor (Theme.Accent2 colors) ++ " bold");
    (chroma.GenericTraceback, toChromaColor (Theme.Error colors));
    (chroma.Error, toChromaColor (Theme.Error colors) ++ " bold")
  ].

Section Style.

(** [chroma.MustNewStyle] is taken as given. *)
Variable chroma_Style : Type.
Variable chroma_MustNewStyle : string -> chroma.StyleEntries -> chroma_Style.

(** [BuildChromaStyle]: the style made of the current theme's colors. *)
Definition BuildChromaStyle (g : Theme.Globals) : chroma_Style :=
  let colors := Theme.colors (Theme.Current g) in
  chroma_MustNewStyle "charm" (styleEntries toChromaColor colors).

End Style.

Arguments BuildChromaStyle {chroma_Style} chroma_MustNewStyle g.

(** *** The revision of chroma_style.go that converts to hex *)

Module Hex.

(** [ansi256ToHex]: ANSI 256 color codes to approximate hex values. *)
Definition ansiMap : gmap string string :=
  {[ "212" := "#FF87D7"; "35" := "#00AF5F"; "99" := "#875FFF";
     "63" := "#5F5FFF"; "8" := "#808080"; "7" := "#C0C0C0";
     "0" := "#000000"; "15" := "#FFFFFF" ]}.

Definition ansi256ToHex (ansiCode : string) : string :=
  match ansiMap !! ansiCode with
  | Some hex => hex
  | None => "#888888"
  end.

(** [len(s) > 0 && s[0] == '#'] *)
Definition startsWithHash (s : string) : bool :=
  match s with
  | String c _ => Ascii.eqb c "#"
  | EmptyString => false
  end.

(** [toChromaColor]: a [lipgloss.TerminalColor] to a hex color string. *)
Definition toChromaColor (c : Theme.TerminalColor) : string :=
  match c with
  | Theme.Color colorStr =>
      if startsWithHash colorStr then colorStr else ansi256ToHex colorStr
  | Theme.AdaptiveColor _ Dark =>
      if startsWithHash Dark then Dark else ansi256ToHex Dark
  | Theme.CompleteColor TrueColor ANSI256 ANSI =>
      if negb (String.eqb TrueColor "") then TrueColor
      else if negb (String.eqb ANSI256 "") then ansi256ToHex ANSI256
      else ansi256ToHex ANSI
  | Theme.CompleteAdaptiveColor _ (TrueColor, ANSI256, ANSI) =>
      if negb (String.eqb TrueColor "") then TrueColor
      else if negb (String.eqb ANSI256 "") then ansi256ToHex ANSI256
      else ansi256ToHex ANSI
  | _ => "#FFFFFF"
  end.

Section Style.

Variable chroma_Style : Type.
Variable chroma_MustNewStyle : string -> chroma.StyleEntries -> chroma_Style.

Definition BuildChromaStyle (g : Theme.Globals) : chroma_Style :=
  let colors := Theme.colors (Theme.Current g) in
  chroma_MustNewStyle "charm" (styleEntries toChromaColor colors).

End Style.

Arguments BuildChromaStyle {chroma_Style} chroma_MustNewStyle g.

End Hex.

(** The position of a token type in the literal. *)
Definition token_index (t : chroma.TokenType) : nat :=
  match t with
  | chroma.Background => 0
  | chroma.LineNumbers => 1
  | chroma.LineNumbersTable => 2
  | chroma.Keyword => 3
  | chroma.KeywordConstant => 4
  | chroma.KeywordDeclaration => 5
  | chroma.KeywordNamespace => 6
  | chroma.KeywordType => 7
  | chroma.Name => 8
  | chroma.NameAttribute => 9
  | chroma.NameBuiltin => 10
  | chroma.NameClass => 11
  | chroma.NameConstant => 12
  | chroma.NameDecorator => 13
  | chroma.NameEntity => 14
  | chroma.NameException => 15
  | chroma.NameFunction => 16
  | chroma.NameLabel => 17
  | chroma.NameNamespace => 18
  | chroma.NameTag => 19
  | chroma.NameVariable => 20
  | chroma.LiteralString => 21
  | chroma.LiteralStringAffix => 22
  | chroma.LiteralStringBacktick => 23
  | chroma.LiteralStringChar => 24
  | chroma.LiteralStringDelimiter => 25
  | chroma.LiteralStringDoc => 26
  | chroma.LiteralStringDouble => 27
  | chroma.LiteralStringEscape => 28
  | chroma.LiteralStringHeredoc => 29
  | chroma.LiteralStringInterpol => 30
  | chroma.LiteralStringRegex => 31
  | chroma.LiteralStringSingle => 32
  | chroma.LiteralNumber => 33
  | chroma.LiteralNumberBin => 34
  | chroma.LiteralNumberFloat => 35
  | chroma.LiteralNumberHex => 36
  | chroma.LiteralNumberInteger => 37
  | chroma.LiteralNumberIntegerLong => 38
  | chroma.LiteralNumberOct => 39
  | chroma.Operator => 40
  | chroma.OperatorWord => 41
  | chroma.Punctuation => 42
  | chroma.Comment => 43
  | chroma.CommentHashbang => 44
  | chroma.CommentMultiline => 45
  | chroma.CommentPreproc => 46
  | chroma.CommentSingle => 47
  | chroma.CommentSpecial => 48
  | chroma.Generic => 49
  | chroma.GenericDeleted => 50
  | chroma.GenericEmph => 51
  | chroma.GenericError => 52
  | chroma.GenericHeading => 53
  | chroma.GenericInserted => 54
  | chroma.GenericOutput => 55
  | chroma.GenericPrompt => 56
  | chroma.GenericStrong => 57
  | chroma.GenericSubheading => 58
  | chroma.GenericTraceback => 59
  | chroma.Error => 60
  end.

(** A hex digit, and a color written [#RRGGBB]. *)
Definition is_hex_digit (c : ascii) : bool :=
  let n := nat_of_ascii c in
  ((48 <=? n) && (n <=? 57) || (65 <=? n) && (n <=? 70)
   || (97 <=? n) && (n <=? 102))%nat.

Definition is_hex_color (s : string) : bool :=
  match s with
  | String c rest =>
      Ascii.eqb c "#" && (String.length rest =? 6)%nat
      && forallb is_hex_digit (list_ascii_of_string rest)
  | EmptyString => false
  end.

(** A color that is neither of the two complete color types. *)
Definition plain (c : Theme.TerminalColor) : bool :=
  match c with
  | Theme.CompleteColor _ _ _ | Theme.CompleteAdaptiveColor _ _ => false
  | _ => true
  end.

(** The ten colors the style reads. *)
Definition highlight_colors (colors : Theme.Colors) : list Theme.TerminalColor :=
  [Theme.Surface colors; Theme.TextDim colors; Theme.Primary colors;
   Theme.Accent1 colors; Theme.Accent2 colors; Theme.Accent3 colors;
   Theme.Text colors; Theme.Error colors; Theme.TextMuted colors;
   Theme.Success colors].

(** The eleven colors [BuildStyles] reads. *)
Definition style_colors (colors : Theme.Colors) : list Theme.TerminalColor :=
  [Theme.Surface colors; Theme.Primary colors; Theme.TextMuted colors;
   Theme.Text colors; Theme.TextDim colors; Theme.Overlay colors;
   Theme.Background colors; Theme.Info colors; Theme.Success colors;
   Theme.Warning colors; Theme.Error colors].

(** The value of the entry at a position of the literal. *)
Definition entry_at (k : nat) (entries : chroma.StyleEntries) : string :=
  nth k (map snd entries) "".

(** A style constructor to evaluate [BuildChromaStyle] on: it keeps the
    name and the entries. *)
Definition keepEntries (name : string) (entries : chroma.StyleEntries)
  : string * chroma.StyleEntries := (name, entries).

(* --------------------------------------------------------------------- *)
(** *** Properties of the style                                            *)
(* --------------------------------------------------------------------- *)

(** The keys of the literal are pairwise distinct, so the list stands
    for the map. *)
Lemma styleEntries_distinct (conv : Theme.TerminalColor -> string)
    (colors : Theme.Colors) :
  NoDup (map fst (styleEntries conv colors)).
Proof.
  apply (NoDup_fmap_1 token_index).
  apply (bool_decide_unpack _). vm_compute. reflexivity.
Qed.

Lemma ansi256ToHex_hex (ansiCode : string) :
  is_hex_color (Hex.ansi256ToHex ansiCode) = true.
Proof.
  unfold Hex.ansi256ToHex.
  destruct (Hex.ansiMap !! ansiCode) as [hex|] eqn:E; [|reflexivity].
  assert (Hall : map_Forall (fun _ v => is_hex_color v = true) Hex.ansiMap).
  { unfold Hex.ansiMap. repeat (apply map_Forall_insert_2; [reflexivity|]).
    apply map_Forall_empty. }
  exact (Hall _ _ E).
Qed.

Lemma hex_color_hash (s : string) :
  is_hex_color s = true -> Hex.startsWithHash s = true.
Proof.
  destruct s as [|c rest]; [discriminate|]. cbn [is_hex_color Hex.startsWithHash].
  intros Hs. apply andb_prop in Hs as [Hs _]. now apply andb_prop in Hs as [Hs _].
Qed.

Lemma hash_app (s suffix : string) :
  Hex.startsWithHash s = true -> Hex.startsWithHash (s ++ suffix) = true.
Proof. destruct s; [discriminate | exact id]. Qed.

Lemma Hex_plain_hash (c : Theme.TerminalColor) :
  plain c = true -> Hex.startsWithHash (Hex.toChromaColor c) = true.
Proof.
  destruct c as [| | s | l d | tc a256 a | l d]; try discriminate; intros _;
    cbn [Hex.toChromaColor]; try reflexivity.
  - destruct (Hex.startsWithHash s) eqn:E; [exact E|].
    apply hex_color_hash, ansi256ToHex_hex.
  - destruct (Hex.startsWithHash d) eqn:E; [exact E|].
    apply hex_color_hash, ansi256ToHex_hex.
Qed.

Lemma BuildStyles_reads (c c' : Theme.Colors) :
  Theme.BuildStyles c = Theme.BuildStyles c' <-> style_colors c = style_colors c'.
Proof.
  split; intros E.
  - pose proof (f_equal (fun s => Theme.sBackground (Theme.Header s)) E) as H1.
    pose proof (f_equal (fun s => Theme.sForeground (Theme.Header s)) E) as H2.
    pose proof (f_equal (fun s => Theme.sForeground (Theme.Footer s)) E) as H3.
    pose proof (f_equal (fun s => Theme.sForeground (Theme.UserMessage s)) E) as H4.
    pose proof (f_equal (fun s => Theme.sBorderForeground (Theme.InputField s)) E) as H5.
    pose proof (f_equal (fun s => Theme.sBackground (Theme.FormInput s)) E) as H6.
    pose proof (f_equal (fun s => Theme.sForeground (Theme.TableSelected s)) E) as H7.
    pose proof (f_equal (fun s => Theme.sBorderForeground (Theme.AlertInfo s)) E) as H8.
    pose proof (f_equal (fun s => Theme.sForeground (Theme.ProgressComplete s)) E) as H9.
    pose proof (f_equal (fun s => Theme.sBorderForeground (Theme.AlertWarning s)) E) as H10.
    pose proof (f_equal (fun s => Theme.sBorderForeground (Theme.AlertError s)) E) as H11.
    cbn in H1, H2, H3, H4, H5, H6, H7, H8, H9, H10, H11.
    unfold style_colors. congruence.
  - unfold style_colors in E. injection E as H1 H2 H3 H4 H5 H6 H7 H8 H9 H10 H11.
    unfold Theme.BuildStyles.
    rewrite H1, H2, H3, H4, H5, H6, H7, H8, H9, H10, H11. reflexivity.
Qed.

Lemma styleEntries_reads (conv : Theme.TerminalColor -> string)
    (c c' : Theme.Colors) :
  styleEntries conv c = styleEntries conv c'
  <-> map conv (highlight_colors c) = map conv (highlight_colors c').
Proof.
  split; intros E.
  - pose proof (f_equal (entry_at 0) E) as HSurface.
    pose proof (f_equal (entry_at 1) E) as HTextDim.
    pose proof (f_equal (entry_at 5) E) as HPrimary.
    pose proof (f_equal (entry_at 9) E) as HAccent1.
    pose proof (f_equal (entry_at 4) E) as HAccent2.
    pose proof (f_equal (entry_at 7) E) as HAccent3.
    pose proof (f_equal (entry_at 8) E) as HText.
    pose proof (f_equal (entry_at 15) E) as HError.
    pose proof (f_equal (entry_at 26) E) as HTextMuted.
    pose proof (f_equal (entry_at 54) E) as HSuccess.
    cbn in HSurface, HTextDim, HPrimary, HAccent1, HAccent2, HAccent3, HText,
           HError, HTextMuted, HSuccess.
    unfold highlight_colors. cbn [map]. congruence.
  - unfold highlight_colors in E. cbn [map] in E.
    injection E as H1 H2 H3 H4 H5 H6 H7 H8 H9 H10.
    unfold styleEntries.
    rewrite H1, H2, H3, H4, H5, H6, H7, H8, H9, H10. reflexivity.
Qed.

(** X14: which colors of the palette matter: two palettes give the same styles
    exactly when they agree on the eleven colors [BuildStyles] reads,
    and the same highlighting entries exactly when the conversions of
    the ten colors [BuildChromaStyle] reads agree, in either revision.
    [Secondary] is among neither, the three accents only among the
    ten, and [Background], [Overlay], [Warning] and [Info] only among the
    eleven. *)
Theorem palette_use {chroma_Style : Type}
    (chroma_MustNewStyle : string -> chroma.StyleEntries -> chroma_Style)
    (g g' : Theme.Globals) :
  let c := Theme.colors (Theme.Current g) in
  let c' := Theme.colors (Theme.Current g') in
  (Theme.BuildStyles c = Theme.BuildStyles c' <-> style_colors c = style_colors c')
  /\ (styleEntries toChromaColor c = styleEntries toChromaColor c'
      <-> map toChromaColor (highlight_colors c)
          = map toChromaColor (highlight_colors c'))
  /\ (styleEntries Hex.toChromaColor c = styleEntries Hex.toChromaColor c'
      <-> map Hex.toChromaColor (highlight_colors c)
          = map Hex.toChromaColor (highlight_colors c'))
  /\ (highlight_colors c = highlight_colors c' ->
      BuildChromaStyle chroma_MustNewStyle g = BuildChromaStyle chroma_MustNewStyle g'
      /\ Hex.BuildChromaStyle chroma_MustNewStyle g
         = Hex.BuildChromaStyle chroma_MustNewStyle g').
Proof.
  cbv zeta. split; [apply BuildStyles_reads|].
  split; [apply styleEntries_reads|]. split; [apply styleEntries_reads|].
  intros E. unfold BuildChromaStyle, Hex.BuildChromaStyle. cbv zeta.
  split; f_equal; apply styleEntries_reads; now rewrite E.
Qed.

(** X15: the revised conversion: [ansi256ToHex] always returns a color
    written [#RRGGBB]; [toChromaColor] returns either such a color or
    the very string the first revision returns; and on every color that
    is not of a complete color type its result starts with [#]. *)
Theorem hex_conversion (c : Theme.TerminalColor) (ansiCode : string) :
  is_hex_color (Hex.ansi256ToHex ansiCode) = true
  /\ (is_hex_color (Hex.toChromaColor c) = true
      \/ Hex.toChromaColor c = toChromaColor c)
  /\ (plain c = true -> Hex.startsWithHash (Hex.toChromaColor c) = true).
Proof.
  split; [apply ansi256ToHex_hex|]. split; [|apply Hex_plain_hash].
  destruct c as [| | s | l d | tc a256 a | l [[tc a256] a]];
    cbn [Hex.toChromaColor toChromaColor]; auto.
  - destruct (Hex.startsWithHash s); [now right | left; apply ansi256ToHex_hex].
  - destruct (Hex.startsWithHash d); [now right | left; apply ansi256ToHex_hex].
  - destruct (negb (String.eqb tc "")); [now right|].
    destruct (negb (String.eqb a256 "")); left; apply ansi256ToHex_hex.
  - destruct (negb (String.eqb tc "")); [now right|].
    destruct (negb (String.eqb a256 "")); left; apply ansi256ToHex_hex.
Qed.

Lemma Hex_entries_plain (colors : Theme.Colors) :
  forallb plain (highlight_colors colors) = true ->
  Forall (fun entry => Hex.startsWithHash (snd entry) = true)
    (styleEntries Hex.toChromaColor colors).
Proof.
  intros Hp.
  unfold highlight_colors in Hp. cbn [forallb] in Hp.
  repeat (apply andb_prop in Hp as [? Hp]).
  unfold styleEntries.
  repeat (apply Forall_cons; split;
          [cbn [snd]; first [apply hash_app|idtac]; now apply Hex_plain_hash|]).
  apply Forall_nil_2.
Qed.

(** X16: in the revised style every one of the 61 entries starts with [#]
    when none of the ten colors it reads is of a complete color type. *)
Theorem hex_entries_hash (colors : Theme.Colors) :
  forallb plain (highlight_colors colors) = true ->
  length (styleEntries Hex.toChromaColor colors) = 61%nat
  /\ Forall (fun entry => Hex.startsWithHash (snd entry) = true)
       (styleEntries Hex.toChromaColor colors).
Proof.
  intros Hp. split; [reflexivity | now apply Hex_entries_plain].
Qed.

(** X17: every theme the loader makes of a JSON text gets such a style: all
    entries of the revised style start with [#], and in the first
    revision the ten colors read reach the style as the color strings
    of the file. *)
Theorem loaded_theme_highlighting (json_Unmarshal : string -> Theme.result Theme.ThemeJSON)
    (data : string) (tj : Theme.ThemeJSON) (t : Theme.ThemeT) :
  json_Unmarshal data = Theme.Ok tj ->
  Theme.LoadThemeFromJSON json_Unmarshal data = Theme.Ok t ->
  Forall (fun entry => Hex.startsWithHash (snd entry) = true)
    (styleEntries Hex.toChromaColor (Theme.colors t))
  /\ map toChromaColor (highlight_colors (Theme.colors t))
     = [Theme.jSurface (Theme.jColors tj); Theme.jTextDim (Theme.jColors tj);
        Theme.jPrimary (Theme.jColors tj); Theme.jAccent1 (Theme.jColors tj);
        Theme.jAccent2 (Theme.jColors tj); Theme.jAccent3 (Theme.jColors tj);
        Theme.jText (Theme.jColors tj); Theme.jError (Theme.jColors tj);
        Theme.jTextMuted (Theme.jColors tj); Theme.jSuccess (Theme.jColors tj)].
Proof.
  unfold Theme.LoadThemeFromJSON. intros -> Ht. unfold Theme.ToTheme in Ht.
  assert (t = _) as -> by (symmetry; injection Ht as Ht; exact Ht).
  cbn [Theme.colors]. rewrite !Theme.parseColor_simple.
  split; [|reflexivity].
  apply Hex_entries_plain. reflexivity.
Qed.

Lemma hex_entries_hash_witness :
  length (styleEntries Hex.toChromaColor (Theme.colors Theme.CharmAuto)) = 61%nat
  /\ Forall (fun entry => Hex.startsWithHash (snd entry) = true)
       (styleEntries Hex.toChromaColor (Theme.colors Theme.CharmAuto)).
Proof. exact (hex_entries_hash (Theme.colors Theme.CharmAuto) eq_refl). Defined.

Lemma loaded_theme_highlighting_witness :
  exists t,
    Theme.LoadThemeFromJSON Theme.refUnmarshal Theme.cyberpunk_text = Theme.Ok t
    /\ Forall (fun entry => Hex.startsWithHash (snd entry) = true)
         (styleEntries Hex.toChromaColor (Theme.colors t))
    /\ map toChromaColor (highlight_colors (Theme.colors t))
       = ["#1a1a2e"; ""; "#00ffff"; "#ff00ff"; "#00ffff"; "#ffff00"; "#ffffff";
          "#ff0055"; "#8b8ba7"; "#00ff9f"].
Proof.
  destruct (Theme.LoadThemeFromJSON Theme.refUnmarshal Theme.cyberpunk_text)
    as [t|e] eqn:E; [|vm_compute in E; discriminate E].
  exists t. split; [reflexivity|].
  assert (Hu : Theme.refUnmarshal Theme.cyberpunk_text = Theme.Ok Theme.cyberpunk).
  { exact (Theme.refUnmarshal_print Theme.cyberpunk). }
  exact (loaded_theme_highlighting Theme.refUnmarshal Theme.cyberpunk_text
           Theme.cyberpunk t Hu E).
Defined.

End Views.

(* ===================================================================== *)
(** ** The wire protocol of the specification                              *)
(* ===================================================================== *)

Module Codec.

Import Json.
#[local] Open Scope string_scope.

(** Modelled from the spec: the message kinds of the protocol package
    ([internal/protocol], not among the sources): the eleven UI primitives
    of section 2, and the reply, error and quit messages sections 4.3 and
    4.4 speak of. *)
Inductive Kind :=
| KText | KMarkdown | KAlert | KProgress | KSpinner | KTable | KCode
| KForm | KConfirm | KSelect | KInput
| KReply | KError | KQuit.

Definition kind_tag (k : Kind) : string :=
  match k with
  | KText => "text" | KMarkdown => "markdown" | KAlert => "alert"
  | KProgress => "progress" | KSpinner => "spinner" | KTable => "table"
  | KCode => "code" | KForm => "form" | KConfirm => "confirm"
  | KSelect => "select" | KInput => "input"
  | KReply => "reply" | KError => "error" | KQuit => "quit"
  end.

Definition all_kinds : list Kind :=
  [KText; KMarkdown; KAlert; KProgress; KSpinner; KTable; KCode;
   KForm; KConfirm; KSelect; KInput; KReply; KError; KQuit].

Definition kind_of_tag (tag : string) : option Kind :=
  find (fun k => String.eqb (kind_tag k) tag) all_kinds.

(** Modelled from the spec: the [Message] of section 3,
    [{kind, id: optional token, payload: kind-specific structured data}];
    the payload is the member list of a JSON object. *)
Record Message := mkMessage {
  kind : Kind;
  id : option string;
  payload : list (string * json)
}.

(** Modelled from the spec: the two error kinds of the codec (sections
    4.1 and 7) and the result of a call that may fail with one. *)
Inductive EncodingError := Unrepresentable.

Inductive DecodingError :=
| NotWellFormed
| UnknownKind (tag : string)
| MissingField (name : string).

Inductive outcome (E A : Type) :=
| Done (a : A)
| Failed (e : E).

Arguments Done {E A} a.
Arguments Failed {E A} e.

(** The first of [names] that is no key of [m]. *)
Definition first_missing (names : list string) (m : list (string * json))
  : option string :=
  find (fun n => negb (existsb (fun kv => String.eqb (fst kv) n) m)) names.

(** The value of the last member named [key]. *)
Fixpoint field (key : string) (m : list (string * json)) : option json :=
  match m with
  | [] => None
  | (k, v) :: m' =>
      match field key m' with
      | Some w => Some w
      | None => if String.eqb k key then Some v else None
      end
  end.

Definition line_end : string := String "010"%char "".

(** Modelled from the spec: the envelope of section 6, the JSON object
    with the fields [kind], [id] (left out when the message has none) and
    [payload]. *)
Definition envelope (m : Message) : json :=
  JObj (("kind", JStr (kind_tag (kind m)))
        :: match id m with
           | Some i => [("id", JStr i)]
           | None => []
           end
        ++ [("payload", JObj (payload m))])%list.

Section Coding.

(** The fields a payload of each kind must have; the spec names them for
    no kind, so they are left open. *)
Variable required : Kind -> list string.

(** Modelled from the spec: what [encode] of section 4.1 can represent.
    The wire is UTF-8 text (section 6), so a message can be represented
    when its id and every string of its payload are valid UTF-8. *)
Definition representable (m : Message) : bool :=
  match id m with
  | Some i => validUTF8 i
  | None => true
  end
  && utf8_json (JObj (payload m)).

(** Modelled from the spec: [encode] of section 4.1 (the codec of
    [internal/protocol] and [protocol.py], not among the sources): one
    JSON object with the envelope fields [kind], [id] (when present) and
    [payload], on one newline-terminated line; it fails with an
    [EncodingError] when the message cannot be represented, and does not
    look at which fields the payload has. *)
Definition encode (m : Message) : outcome EncodingError string :=
  if representable m then Done (print (envelope m) ++ line_end)
  else Failed Unrepresentable.

(** Modelled from the spec: [decode] of section 4.1: the line must be one
    JSON object whose [kind] is a known tag, whose [id], when there is one,
    is a string, and whose [payload] is an object holding every field the
    kind requires; a field the decoder does not know is no failure, and
    every failure is a [DecodingError]. *)
Definition decode (line : string) : outcome DecodingError Message :=
  match parse line with
  | Some (JObj env) =>
      match field "kind" env with
      | Some (JStr tag) =>
          match kind_of_tag tag with
          | None => Failed (UnknownKind tag)
          | Some k =>
              match field "payload" env with
              | Some (JObj p) =>
                  match first_missing (required k) p with
                  | Some name => Failed (MissingField name)
                  | None =>
                      match field "id" env with
                      | None | Some JNull => Done (mkMessage k None p)
                      | Some (JStr i) => Done (mkMessage k (Some i) p)
                      | Some _ => Failed NotWellFormed
                      end
                  end
              | Some _ => Failed NotWellFormed
              | None => Failed (MissingField "payload")
              end
          end
      | Some _ => Failed NotWellFormed
      | None => Failed (MissingField "kind")
      end
  | _ => Failed NotWellFormed
  end.

(** The round trip as a statement about one message: when [encode]
    gives a line, [decode] gives the message back. *)
Definition roundtrip_as_stated (m : Message) : Prop :=
  forall line, encode m = Done line -> decode line = Done m.

End Coding.

(** The confirmation request of the spec's scenario, with [message]
    required of a confirm payload and nothing of the other kinds. *)
Definition confirm_required (k : Kind) : list string :=
  match k with KConfirm => ["message"] | _ => [] end.

Definition confirm_r1 : Message :=
  {| kind := KConfirm; id := Some "r1";
     payload := [("message", JStr "Delete?")] |}.

Definition confirm_r1_line : string :=
  print (JObj [("kind", JStr "confirm"); ("id", JStr "r1");
               ("payload", JObj [("message", JStr "Delete?")])]) ++ line_end.

(** The same request with nothing in its payload. *)
Definition confirm_empty : Message :=
  {| kind := KConfirm; id := Some "r1"; payload := [] |}.

Lemma kind_of_tag_kind_tag (k : Kind) : kind_of_tag (kind_tag k) = Some k.
Proof. destruct k; reflexivity. Qed.

Section CodecFacts.

Variable required : Kind -> list string.

Lemma decode_envelope (m : Message) :
  decode required (print (envelope m) ++ line_end) =
    match first_missing (required (kind m)) (payload m) with
    | Some name => Failed (MissingField name)
    | None => Done m
    end.
Proof.
  unfold decode.
  rewrite parse_print_then; [| exact eq_refl | reflexivity].
  destruct m as [k [i|] p]; unfold envelope; cbn [kind id payload] in *;
    cbn [field app String.eqb Ascii.eqb Bool.eqb];
    rewrite kind_of_tag_kind_tag;
    destruct (first_missing (required k) p); reflexivity.
Qed.


End CodecFacts.



End Codec.


(* ===================================================================== *)
(** ** The progress view of the specification                              *)
(* ===================================================================== *)

Module Progress.

#[local] Open Scope Z_scope.

(** Modelled from the spec: the payload of a [progress] message (the
    progress view of [internal/ui/views] is not among the sources): a
    current value, which may lie outside the range, and a total, a count. *)
Record Payload := mkPayload {
  current : Z;
  total : N
}.

(** Modelled from the spec: what the progress view renders, an unbounded
    spinner or a bar with its value, its total and the percentage shown. *)
Inductive Fragment :=
| Spinner
| Bar (value total percent : Z).

(** Modelled from the spec: the failure section 4.5 rules out. *)
Inductive RenderError := DivisionByZero.

Definition clamp (lo hi x : Z) : Z := Z.max lo (Z.min hi x).

(** Integer percentage; dividing by zero is a failure, not a number. *)
Definition percentage (value total : Z) : option Z :=
  if total =? 0 then None else Some (value * 100 / total).

(** Modelled from the spec: the progress view handler of section 4.5: a
    total of zero is indeterminate progress, any other payload is a bar at
    the value clamped to [[0, total]]. *)
Definition render (p : Payload) : RenderError + Fragment :=
  if (total p =? 0)%N then inr Spinner
  else
    let value := clamp 0 (Z.of_N (total p)) (current p) in
    match percentage value (Z.of_N (total p)) with
    | Some pct => inr (Bar value (Z.of_N (total p)) pct)
    | None => inl DivisionByZero
    end.

Definition indeterminate (p : Payload) : bool :=
  match render p with inr Spinner => true | _ => false end.

(** C6: every progress payload renders without a division by zero; a
    total of zero renders as the unbounded spinner; any other payload
    renders as a bar whose value lies in [[0, total]], at 100% when
    [current] is at or beyond the total and at 0% when it is at or below
    zero. *)
Theorem progress_clamped (p : Payload) :
  render p <> inl DivisionByZero
  /\ (total p = 0%N -> render p = inr Spinner /\ indeterminate p = true)
  /\ (total p <> 0%N ->
      exists value pct,
        render p = inr (Bar value (Z.of_N (total p)) pct)
        /\ value = clamp 0 (Z.of_N (total p)) (current p)
        /\ 0 <= value <= Z.of_N (total p)
        /\ 0 <= pct <= 100
        /\ (Z.of_N (total p) <= current p ->
            value = Z.of_N (total p) /\ pct = 100)
        /\ (current p <= 0 -> value = 0 /\ pct = 0)).
Proof.
  destruct p as [c t]. unfold indeterminate, render, percentage, clamp.
  cbn [current total].
  destruct (N.eqb_spec t 0) as [-> | Ht].
  { repeat split; try discriminate. intros []. reflexivity. }
  assert (Hpos : 0 < Z.of_N t) by lia.
  destruct (Z.eqb_spec (Z.of_N t) 0) as [E | _]; [lia|].
  split; [discriminate|]. split; [intros ->; congruence|]. intros _.
  eexists _, _. split; [reflexivity|]. split; [reflexivity|].
  set (v := Z.max 0 (Z.min (Z.of_N t) c)).
  assert (Hv : 0 <= v <= Z.of_N t) by (subst v; lia).
  split; [exact Hv|]. split.
  - split.
    + apply Z.div_pos; lia.
    + apply Z.div_le_upper_bound; lia.
  - split.
    + intros Hc. assert (v = Z.of_N t) as -> by (subst v; lia).
      split; [reflexivity|]. rewrite Z.mul_comm. apply Z.div_mul. lia.
    + intros Hc. assert (v = 0) as -> by (subst v; lia).
      split; reflexivity.
Qed.

Lemma progress_clamped_witness :
  render (mkPayload 7 0) = inr Spinner
  /\ render (mkPayload 150 100) = inr (Bar 100 100 100)
  /\ render (mkPayload (-3) 8) = inr (Bar 0 8 0)
  /\ render (mkPayload 1 3) = inr (Bar 1 3 33).
Proof.
  split; [|split; [|split]].
  - apply (proj1 (proj2 (progress_clamped (mkPayload 7 0)))). reflexivity.
  - destruct (proj2 (proj2 (progress_clamped (mkPayload 150 100))))
      as (v & pct & E & _ & _ & _ & Hfull & _); [discriminate|].
    destruct Hfull as [-> ->]; [cbn; lia|]. exact E.
  - destruct (proj2 (proj2 (progress_clamped (mkPayload (-3) 8))))
      as (v & pct & E & _ & _ & _ & _ & Hzero); [discriminate|].
    destruct Hzero as [-> ->]; [cbn; lia|]. exact E.
  - reflexivity.
Defined.

End Progress.

(* ===================================================================== *)
(** ** The transport bridge of the specification                           *)
(* ===================================================================== *)

Module Bridge.

Import Codec.

(** Modelled from the spec: what a caller of [request] observes (sections
    4.3 and 7; the bridge is [bridge.py], not among the sources): the
    reply, tagged with the id it answers, or one of the two errors. *)
Inductive Outcome :=
| Reply (id : nat) (payload : list (string * Json.json))
| Timeout
| TransportClosed.

(** Modelled from the spec: why a call never reached the wire (sections
    4.2 and 4.3). *)
Inductive Rejection :=
| TransportUnavailable
| ProtocolViolation.

(** Modelled from the spec: the [PendingRequest] of section 3, the
    issuing caller's completion handle and a deadline. *)
Record Pending := mkPending {
  caller : nat;
  deadline : nat
}.

(** Modelled from the spec: the state of the Transport Bridge of section
    4.3: the Correlation Table, the next identifier to assign, the clock,
    whether the renderer is connected, and three logs: who issued which
    identifier, what was written to the renderer, and what each caller was
    handed (outcomes of sent requests, rejections of calls that were never
    sent). *)
Record State := mkState {
  table : gmap nat Pending;
  next_id : nat;
  now : nat;
  connected : bool;
  issued : gmap nat nat;
  wire : list (option nat * Message);
  delivered : list (nat * nat * Outcome);
  rejected : list (nat * Rejection)
}.

Definition init : State :=
  {| table := ∅; next_id := 0; now := 0; connected := true; issued := ∅;
     wire := []; delivered := []; rejected := [] |}.

(** Modelled from the spec: [register] of section 4.2; it fails when the
    id is already registered. *)
Definition register (i : nat) (p : Pending) (t : gmap nat Pending)
  : option (gmap nat Pending) :=
  match t !! i with
  | Some _ => None
  | None => Some (<[i := p]> t)
  end.

(** Modelled from the spec: [complete] of section 4.2: resolves and
    removes the matching entry, in one step; with no such entry the result
    is dropped. *)
Definition complete (i : nat) (o : Outcome) (s : State) : State :=
  match table s !! i with
  | Some p =>
      {| table := delete i (table s); next_id := next_id s; now := now s;
         connected := connected s; issued := issued s; wire := wire s;
         delivered := delivered s ++ [(caller p, i, o)];
         rejected := rejected s |}
  | None => s
  end.

(** The outcome [o] for every entry of a table. *)
Definition resolutions (o : Outcome) (t : gmap nat Pending)
  : list (nat * nat * Outcome) :=
  (fun kv => (caller kv.2, kv.1, o)) <$> map_to_list t.

(** Modelled from the spec: [cancelAll] of section 4.2, used when the
    transport is torn down: every outstanding entry is completed with the
    transport-closed error, and the bridge is disconnected. *)
Definition cancelAll (s : State) : State :=
  {| table := ∅; next_id := next_id s; now := now s; connected := false;
     issued := issued s; wire := wire s;
     delivered := delivered s ++ resolutions TransportClosed (table s);
     rejected := rejected s |}.

(** Modelled from the spec: the passing of one unit of time: every entry
    whose deadline has elapsed is removed and its caller fails with
    [Timeout]. *)
Definition tick (s : State) : State :=
  let t := S (now s) in
  {| table := filter (fun kv => t < deadline kv.2) (table s);
     next_id := next_id s; now := t; connected := connected s;
     issued := issued s; wire := wire s;
     delivered :=
       delivered s
       ++ resolutions Timeout (filter (fun kv => ¬ t < deadline kv.2) (table s));
     rejected := rejected s |}.

(** Modelled from the spec: [request] of section 4.3: assign an id,
    register it with the deadline, write the message, as one step; on a
    disconnected bridge the call is rejected and nothing is sent. *)
Definition request (c : nat) (m : Message) (timeout : nat) (s : State) : State :=
  if connected s then
    match register (next_id s) (mkPending c (now s + timeout)) (table s) with
    | Some t =>
        {| table := t; next_id := S (next_id s); now := now s;
           connected := connected s;
           issued := <[next_id s := c]> (issued s);
           wire := wire s ++ [(Some (next_id s), m)];
           delivered := delivered s; rejected := rejected s |}
    | None =>
        {| table := table s; next_id := next_id s; now := now s;
           connected := connected s; issued := issued s; wire := wire s;
           delivered := delivered s;
           rejected := rejected s ++ [(c, ProtocolViolation)] |}
    end
  else
    {| table := table s; next_id := next_id s; now := now s;
       connected := connected s; issued := issued s; wire := wire s;
       delivered := delivered s;
       rejected := rejected s ++ [(c, TransportUnavailable)] |}.

(** Modelled from the spec: [send] of section 4.3, fire-and-forget. *)
Definition send (c : nat) (m : Message) (s : State) : State :=
  if connected s then
    {| table := table s; next_id := next_id s; now := now s;
       connected := connected s; issued := issued s;
       wire := wire s ++ [(None, m)];
       delivered := delivered s; rejected := rejected s |}
  else
    {| table := table s; next_id := next_id s; now := now s;
       connected := connected s; issued := issued s; wire := wire s;
       delivered := delivered s;
       rejected := rejected s ++ [(c, TransportUnavailable)] |}.

(** Modelled from the spec: a restart attempt of section 4.3 that
    succeeded: the bridge is connected again. *)
Definition restart (s : State) : State :=
  {| table := table s; next_id := next_id s; now := now s; connected := true;
     issued := issued s; wire := wire s; delivered := delivered s;
     rejected := rejected s |}.

(** Modelled from the spec: what can happen to the bridge, one at a
    time (sections 4.3 and 5): a caller sends a request or a message, a
    reply line arrives from the renderer, time passes, the renderer exits
    or its pipe breaks, the renderer is restarted. *)
Inductive Event :=
| CallRequest (c : nat) (m : Message) (timeout : nat)
| CallSend (c : nat) (m : Message)
| ReplyArrives (i : nat) (payload : list (string * Json.json))
| TimePasses
| TransportFails
| Restarted.

Definition step (s : State) (e : Event) : State :=
  match e with
  | CallRequest c m timeout => request c m timeout s
  | CallSend c m => send c m s
  | ReplyArrives i p => complete i (Reply i p) s
  | TimePasses => tick s
  | TransportFails => cancelAll s
  | Restarted => restart s
  end.

Definition run (s : State) (es : list Event) : State := fold_left step es s.

(** What the callers were handed for request [i]. *)
Definition outcomes (i : nat) (s : State) : list (nat * nat * Outcome) :=
  filter (fun x => x.1.2 = i) (delivered s).

(** An outcome a request [i] may end with: a reply with that id, or one
    of the two errors. *)
Definition answers (i : nat) (o : Outcome) : Prop :=
  match o with
  | Reply j _ => j = i
  | Timeout | TransportClosed => True
  end.

(** The invariant of the bridge: identifiers are issued in order; an
    entry of the table belongs to its issuer, has a deadline that has not
    passed, and nothing was handed out for it; an issued request that left
    the table was handed exactly one outcome, to its issuer; nothing is
    handed out for an identifier that was not issued. *)
Record Inv (s : State) : Prop := mkInv {
  inv_issued : forall i, is_Some (issued s !! i) <-> i < next_id s;
  inv_pending : forall i p, table s !! i = Some p ->
      issued s !! i = Some (caller p) /\ now s <= deadline p
      /\ outcomes i s = [];
  inv_settled : forall i c, issued s !! i = Some c -> table s !! i = None ->
      exists o, outcomes i s = [(c, i, o)] /\ answers i o;
  inv_fresh : forall i, issued s !! i = None -> outcomes i s = []
}.

(** The number of time steps among some events. *)
Fixpoint ticks (es : list Event) : nat :=
  match es with
  | [] => 0
  | TimePasses :: es' => S (ticks es')
  | _ :: es' => ticks es'
  end.

(** A run to evaluate: two requests; the first is answered, and answered
    again too late; the second times out after its five time units. *)
Definition sample_run : list Event :=
  [CallRequest 7 confirm_r1 50; CallRequest 8 confirm_r1 5; TimePasses;
   ReplyArrives 0 [("confirmed", Json.JBool true)];
   ReplyArrives 0 [("confirmed", Json.JBool false)];
   TimePasses; TimePasses; TimePasses; TimePasses;
   ReplyArrives 1 [("confirmed", Json.JBool true)]; TransportFails].

(** *** Proofs *)

Lemma filter_resolutions_list (o : Outcome) (i : nat) (l : list (nat * Pending)) :
  NoDup (l.*1) ->
  (forall p, (i, p) ∈ l ->
     filter (fun x : nat * nat * Outcome => x.1.2 = i)
            ((fun kv : nat * Pending => (caller kv.2, kv.1, o)) <$> l)
     = [(caller p, i, o)])
  /\ (i ∉ l.*1 ->
     filter (fun x : nat * nat * Outcome => x.1.2 = i)
            ((fun kv : nat * Pending => (caller kv.2, kv.1, o)) <$> l) = []).
Proof.
  induction l as [|[k q] l IH]; intros Hnd.
  { split; [intros p Hp; inversion Hp | reflexivity]. }
  cbn in Hnd. apply NoDup_cons in Hnd as [Hk Hnd].
  destruct (IH Hnd) as [IHin IHout]. cbn [fmap list_fmap].
  destruct (decide (k = i)) as [-> | Hne].
  - rewrite filter_cons_True by reflexivity. rewrite (IHout Hk).
    split; [|intros Hi; exfalso; apply Hi; cbn; left].
    intros p Hp. apply elem_of_cons in Hp as [[= ->] | Hp]; [reflexivity|].
    exfalso. apply Hk. apply list_elem_of_fmap. exists (i, p). auto.
  - rewrite filter_cons_False by (cbn; congruence).
    split.
    + intros p Hp. apply elem_of_cons in Hp as [[= E _] | Hp]; [congruence|].
      now apply IHin.
    + intros Hi. apply IHout. intros Hin. apply Hi. cbn. now right.
Qed.

Lemma filter_resolutions (o : Outcome) (i : nat) (t : gmap nat Pending) :
  filter (fun x : nat * nat * Outcome => x.1.2 = i) (resolutions o t)
  = match t !! i with
    | Some p => [(caller p, i, o)]
    | None => []
    end.
Proof.
  unfold resolutions.
  destruct (filter_resolutions_list o i (map_to_list t)
              (NoDup_fst_map_to_list t)) as [Hin Hout].
  destruct (t !! i) as [p|] eqn:E.
  - apply Hin. now apply elem_of_map_to_list.
  - apply Hout. intros Hi. apply list_elem_of_fmap in Hi as ([k p] & -> & Hp).
    apply elem_of_map_to_list in Hp. cbn in E. congruence.
Qed.

Lemma Inv_init : Inv init.
Proof.
  split; cbn.
  - intros i. rewrite lookup_empty. split; [intros [? [=]] | lia].
  - intros i p. rewrite lookup_empty. discriminate.
  - intros i c. rewrite lookup_empty. discriminate.
  - reflexivity.
Qed.

Lemma Inv_complete (i : nat) (o : Outcome) (s : State) :
  answers i o -> Inv s -> Inv (complete i o s).
Proof.
  intros Ho [Hiss Hpend Hset Hfresh]. unfold complete.
  destruct (table s !! i) as [p|] eqn:Hi; [|now split].
  destruct (Hpend i p Hi) as (Hip & _ & Hnone).
  assert (Hout : forall j, outcomes j
            {| table := delete i (table s); next_id := next_id s; now := now s;
               connected := connected s; issued := issued s; wire := wire s;
               delivered := delivered s ++ [(caller p, i, o)];
               rejected := rejected s |}
          = outcomes j s ++ (if decide (i = j) then [(caller p, i, o)] else [])).
  { intros j. unfold outcomes. cbn [delivered]. rewrite filter_app. reflexivity. }
  split; cbn [table next_id now issued].
  - exact Hiss.
  - intros j q Hj. apply lookup_delete_Some in Hj as [Hne Hj].
    destruct (Hpend j q Hj) as (? & ? & Hq). rewrite Hout, Hq, decide_False by done.
    auto.
  - intros j c Hc Hj. rewrite Hout. destruct (decide (i = j)) as [<- | Hne].
    + rewrite Hnone. exists o. split; [|exact Ho]. cbn. congruence.
    + rewrite lookup_delete_ne in Hj by done.
      destruct (Hset j c Hc Hj) as (o' & -> & ?). exists o'. now rewrite app_nil_r.
  - intros j Hj. rewrite Hout, (Hfresh j Hj), decide_False; [reflexivity|].
    intros <-. congruence.
Qed.

Lemma Inv_cancelAll (s : State) : Inv s -> Inv (cancelAll s).
Proof.
  intros [Hiss Hpend Hset Hfresh].
  assert (Hout : forall j, outcomes j (cancelAll s)
          = outcomes j s ++ match table s !! j with
                            | Some p => [(caller p, j, TransportClosed)]
                            | None => []
                            end).
  { intros j. unfold outcomes, cancelAll. cbn [delivered].
    now rewrite filter_app, filter_resolutions. }
  split; cbn [cancelAll table next_id now issued].
  - exact Hiss.
  - intros j q. rewrite lookup_empty. discriminate.
  - intros j c Hc _. rewrite Hout. destruct (table s !! j) as [p|] eqn:Hj.
    + destruct (Hpend j p Hj) as (Hip & _ & ->). exists TransportClosed.
      split; [|exact I]. cbn. congruence.
    + destruct (Hset j c Hc Hj) as (o' & -> & ?). exists o'. now rewrite app_nil_r.
  - intros j Hj. rewrite Hout, (Hfresh j Hj).
    destruct (table s !! j) as [p|] eqn:Hp; [|reflexivity].
    destruct (Hpend j p Hp) as (Hip & _). congruence.
Qed.

Lemma Inv_tick (s : State) : Inv s -> Inv (tick s).
Proof.
  intros [Hiss Hpend Hset Hfresh].
  assert (Hout : forall j, outcomes j (tick s)
          = outcomes j s
            ++ match filter (fun kv : nat * Pending => ¬ S (now s) < deadline kv.2)
                            (table s) !! j with
               | Some p => [(caller p, j, Timeout)]
               | None => []
               end).
  { intros j. unfold outcomes, tick. cbn [delivered].
    now rewrite filter_app, filter_resolutions. }
  split; cbn [tick table next_id now issued].
  - exact Hiss.
  - intros j q Hj. apply map_lookup_filter_Some in Hj as [Hj Hd]. cbn in Hd.
    destruct (Hpend j q Hj) as (? & ? & Hq). rewrite Hout, Hq.
    rewrite map_lookup_filter_None_2; [split; [done | split; [lia | done]]|].
    right. intros q' Hq'. cbn. rewrite Hj in Hq'. injection Hq' as <-. lia.
  - intros j c Hc Hj. rewrite Hout.
    destruct (table s !! j) as [p|] eqn:Hp.
    + destruct (Hpend j p Hp) as (Hip & _ & ->).
      apply map_lookup_filter_None in Hj as [Hj | Hj]; [congruence|].
      specialize (Hj p Hp). cbn in Hj.
      rewrite (map_lookup_filter_Some_2 _ _ j p Hp Hj).
      exists Timeout. split; [|exact I]. cbn. congruence.
    + rewrite map_lookup_filter_None_2 by (left; done).
      destruct (Hset j c Hc Hp) as (o' & -> & ?). exists o'. now rewrite app_nil_r.
  - intros j Hj. rewrite Hout, (Hfresh j Hj).
    rewrite map_lookup_filter_None_2; [reflexivity|]. left.
    destruct (table s !! j) as [p|] eqn:Hp; [|reflexivity].
    destruct (Hpend j p Hp) as (Hip & _). congruence.
Qed.

Lemma Inv_request (c : nat) (m : Message) (timeout : nat) (s : State) :
  Inv s -> Inv (request c m timeout s).
Proof.
  intros [Hiss Hpend Hset Hfresh]. unfold request, register.
  destruct (connected s); [|now split].
  assert (Hnew : issued s !! next_id s = None).
  { destruct (issued s !! next_id s) eqn:E; [|reflexivity].
    assert (next_id s < next_id s) by (apply Hiss; eauto). lia. }
  destruct (table s !! next_id s) as [p|] eqn:Ht; [now split|].
  split; cbn [table next_id now issued]; unfold outcomes; cbn [delivered].
  - intros i. destruct (decide (next_id s = i)) as [<- | Hne].
    + rewrite lookup_insert_eq. split; [lia | eauto].
    + rewrite lookup_insert_ne by done. rewrite Hiss. lia.
  - intros i p Hi. destruct (decide (next_id s = i)) as [<- | Hne].
    + rewrite lookup_insert_eq in Hi. injection Hi as <-.
      rewrite lookup_insert_eq. cbn. split; [done | split; [lia|]].
      apply (Hfresh _ Hnew).
    + rewrite lookup_insert_ne in Hi by done. rewrite lookup_insert_ne by done.
      now apply Hpend.
  - intros i c' Hc Hi. destruct (decide (next_id s = i)) as [<- | Hne].
    + now rewrite lookup_insert_eq in Hi.
    + rewrite lookup_insert_ne in Hi by done. rewrite lookup_insert_ne in Hc by done.
      now apply Hset.
  - intros i Hi. destruct (decide (next_id s = i)) as [<- | Hne].
    + now rewrite lookup_insert_eq in Hi.
    + rewrite lookup_insert_ne in Hi by done. now apply Hfresh.
Qed.

Lemma Inv_step (s : State) (e : Event) : Inv s -> Inv (step s e).
Proof.
  intros H. destruct e as [c m t | c m | i p | | |]; cbn [step].
  - now apply Inv_request.
  - destruct H. unfold send. destruct (connected s); now split.
  - now apply Inv_complete.
  - now apply Inv_tick.
  - now apply Inv_cancelAll.
  - destruct H. now split.
Qed.

Lemma Inv_run (es : list Event) (s : State) : Inv s -> Inv (run s es).
Proof.
  revert s. induction es as [|e es IH]; intros s H; [exact H|].
  cbn. apply IH. now apply Inv_step.
Qed.

(** An issued identifier stays issued to the same caller, and the table
    never gets an entry back for it. *)
Lemma step_issued (s : State) (e : Event) (i c : nat) :
  Inv s -> issued s !! i = Some c -> issued (step s e) !! i = Some c.
Proof.
  intros [Hiss _ _ _] Hi.
  destruct e as [c' m t | c' m | j p | | |]; cbn [step].
  - unfold request, register. destruct (connected s); [|exact Hi].
    destruct (table s !! next_id s); [exact Hi|]. cbn [issued].
    rewrite lookup_insert_ne; [exact Hi|]. intros E.
    assert (i < next_id s) by (apply Hiss; eauto). lia.
  - unfold send. now destruct (connected s).
  - unfold complete. now destruct (table s !! j).
  - exact Hi.
  - exact Hi.
  - exact Hi.
Qed.

Lemma step_table (s : State) (e : Event) (i c : nat) (p : Pending) :
  Inv s -> issued s !! i = Some c ->
  table (step s e) !! i = Some p -> table s !! i = Some p.
Proof.
  intros [Hiss _ _ _] Hi.
  destruct e as [c' m t | c' m | j q | | |]; cbn [step].
  - unfold request, register. destruct (connected s); [|auto].
    destruct (table s !! next_id s); [auto|]. cbn [table].
    rewrite lookup_insert_ne; [auto|]. intros E.
    assert (i < next_id s) by (apply Hiss; eauto). lia.
  - unfold send. destruct (connected s); auto.
  - unfold complete. destruct (table s !! j); [|auto]. cbn [table].
    intros H. now apply lookup_delete_Some in H as [_ H].
  - cbn [tick table]. intros H. now apply map_lookup_filter_Some in H as [H _].
  - cbn [cancelAll table]. rewrite lookup_empty. discriminate.
  - auto.
Qed.

Lemma now_step (s : State) (e : Event) :
  now (step s e) = now s + ticks [e].
Proof.
  destruct e as [c m t | c m | j q | | |]; cbn [step ticks].
  - unfold request, register. destruct (connected s); [|cbn; lia].
    destruct (table s !! next_id s); cbn; lia.
  - unfold send. destruct (connected s); cbn; lia.
  - unfold complete. destruct (table s !! j); cbn; lia.
  - cbn. lia.
  - cbn. lia.
  - cbn. lia.
Qed.

Lemma run_later (es : list Event) (s : State) (i c : nat) :
  Inv s -> issued s !! i = Some c ->
  issued (run s es) !! i = Some c
  /\ now (run s es) = now s + ticks es
  /\ (forall p, table (run s es) !! i = Some p -> table s !! i = Some p).
Proof.
  revert s. induction es as [|e es IH]; intros s H Hi.
  { cbn. split; [done | split; [lia | done]]. }
  cbn [run fold_left]. fold (run (step s e) es).
  destruct (IH (step s e) (Inv_step s e H) (step_issued s e i c H Hi))
    as (Hiss & Hnow & Htab).
  split; [exact Hiss | split].
  - rewrite Hnow, now_step. destruct e; cbn; lia.
  - intros p Hp. apply (step_table s e i c p H Hi). now apply Htab.
Qed.

(** C1: in every run of the bridge, a request that was sent (it has an
    id, issued to its caller) has at every moment either no outcome yet,
    while its entry is in the table, or exactly one outcome handed to its
    caller: a reply carrying its id, [Timeout] or [TransportClosed]; and
    once the clock has passed its deadline, whatever else happened, it has
    exactly one. *)
Theorem request_exactly_one_outcome (es : list Event) (i c : nat) :
  let s := run init es in
  issued s !! i = Some c ->
  ((is_Some (table s !! i) /\ outcomes i s = [])
   \/ (table s !! i = None
       /\ exists o, outcomes i s = [(c, i, o)] /\ answers i o))
  /\ (forall p es', table s !! i = Some p ->
        deadline p - now s < ticks es' ->
        exists o, outcomes i (run s es') = [(c, i, o)] /\ answers i o).
Proof.
  cbv zeta. intros Hi.
  pose proof (Inv_run es init Inv_init) as H.
  split.
  - destruct (table (run init es) !! i) as [p|] eqn:Hp.
    + left. split; [eauto|]. now apply (inv_pending _ H i p).
    + right. split; [reflexivity|]. now apply (inv_settled _ H).
  - intros p es' Hp Hlate.
    destruct (run_later es' _ i c H Hi) as (Hiss & Hnow & Htab).
    pose proof (Inv_run es' _ H) as H'.
    apply (inv_settled _ H' i c Hiss).
    destruct (table (run (run init es) es') !! i) as [q|] eqn:Hq; [|reflexivity].
    exfalso. pose proof (Htab q eq_refl) as Hq'.
    assert (q = p) as -> by congruence.
    destruct (inv_pending _ H' i p Hq) as (_ & Hd & _). lia.
Qed.

Lemma request_exactly_one_outcome_witness :
  outcomes 0 (run init sample_run)
    = [(7, 0, Reply 0 [("confirmed", Json.JBool true)])]
  /\ outcomes 1 (run init sample_run) = [(8, 1, Timeout)].
Proof.
  split.
  - destruct (proj1 (request_exactly_one_outcome sample_run 0 7 eq_refl))
      as [[_ E] | [_ (o & E & _)]]; [vm_compute in E; discriminate E|].
    vm_compute. reflexivity.
  - destruct (proj1 (request_exactly_one_outcome sample_run 1 8 eq_refl))
      as [[_ E] | [_ (o & E & _)]]; [vm_compute in E; discriminate E|].
    vm_compute. reflexivity.
Defined.

End Bridge.
